(** * A shallow embedding of the Scheme interpreter (object.h, parser.cpp,
      scheme.h, scheme.cpp, tokenizer.cpp) and the properties of its value
      model, environments, evaluator, reader and tokenizer.

    Modelling conventions.

    - A [std::shared_ptr<Object>] is an [Object]: the null pointer, an
      immutable atom carried by value ([Number], [Boolean], [Symbol]; their
      identity is never observed by the program), or the address of a
      mutable heap object ([CellPtr], [LambdaPtr]).
    - The heap is the [State]: the cells, the closures and the scopes ever
      allocated, addressed by their index.
    - [int64_t] is a [Z]; the result of an arithmetic operation is reduced by
      [int64_wrap].  [size_t] is a [Z] reduced modulo [2^64].
    - A function that throws, loops or recurses returns an [Outcome]: a value,
      a thrown exception, [Crash] ([std::terminate], an access through a
      handle that designates no object, or a trap of the processor: the
      program ends without a result), or [Timeout] when the fuel given to
      it is exhausted.  Loops and recursive calls take one unit of fuel per
      iteration or call, so that a computation that never ends in the program
      is one that times out for every amount of fuel.
    - The messages of the exceptions are built as the program builds them,
      with [ToString]: an exception whose message cannot be rendered (a
      cyclic pair) is never thrown.
    - The strong count of a [std::shared_ptr<Scope>] is the field [use_count]
      of the scope; a scope whose count reaches zero is destroyed, and every
      [std::weak_ptr] to it is then expired.  The strong counts of
      [std::shared_ptr<Object>] are not tracked: the evaluator keeps every
      cell and closure, and [Lambda_dtor] is given as an operation of its
      own.  So a closure that the program destroys when its last reference
      goes stays here, the counter of its scope is not decremented and the
      frames it owns stay: a frame can be alive here when the program has
      destroyed it.  The program releases a reference where it overwrites a
      variable or a field of a pair, where it destroys a scope with its
      variables, and where a function returns and its local objects go.  The
      release of a value that is data (a tree of pairs over numbers,
      booleans, symbols and the empty list: [denotes]) destroys no closure
      and no scope, and the state here is then the state of the program;
      the properties that state what an overwriting or a pruning leaves
      unchanged are stated for values that are data ([is_data],
      [replaces_data], [binds_data]), and those of an application are
      stated of its result.
      The properties of a form are stated for any behaviour [Ev] of the
      recursive calls of [Interpreter::Eval], so that they do not depend on
      it.
    - The reader is given the tokens.  The scanning of characters
      (tokenizer.cpp) is embedded on its own: the stream is the list of the
      characters left and its end-of-file flag. *)

From Stdlib Require Import ZArith Ascii String List Lia DecimalString
  DecimalPos.
From stdpp Require Import base option list gmap strings.

Local Open Scope Z_scope.
Local Open Scope string_scope.

(** ** Machine integers *)

Definition int64_wrap (z : Z) : Z := (z + 2 ^ 63) mod 2 ^ 64 - 2 ^ 63.

Definition size_t_wrap (z : Z) : Z := z mod 2 ^ 64.

(** [std::to_string(int64_t)]: the decimal rendering. *)
Definition to_string (z : Z) : string := NilZero.string_of_int (Z.to_int z).

(** ** error.h *)

Inductive Exception :=
| SyntaxError (what : string)
| RuntimeError (what : string)
| NameError (what : string).

Inductive Outcome (A : Type) :=
| Ret (a : A)
| Throw (e : Exception)
| Crash
| Timeout.

Arguments Ret {A} a.
Arguments Throw {A} e.
Arguments Crash {A}.
Arguments Timeout {A}.

Definition obind {A B} (o : Outcome A) (k : A -> Outcome B) : Outcome B :=
  match o with
  | Ret a => k a
  | Throw e => Throw e
  | Crash => Crash
  | Timeout => Timeout
  end.

Declare Scope outcome_scope.
Delimit Scope outcome_scope with outcome.
Notation "x <-- e ;; k" := (obind e (fun x => k))
  (at level 100, e at next level, right associativity) : outcome_scope.

(** ** object.h: the objects *)

Inductive Object :=
| nullptr
| Number (value_ : Z)
| Boolean (value_ : bool)
| Symbol (name_ : string)
| CellPtr (addr : nat)
| LambdaPtr (addr : nat).

Global Instance Object_eq_dec : EqDecision Object.
Proof. solve_decision. Defined.

Record Cell := mkCell { first_ : Object; second_ : Object }.

(** [std::weak_ptr<Scope>]: empty, or the handle of a scope that may have
    been destroyed since. *)
Definition weak_ptr := option nat.

Record Lambda := mkLambda {
  arg_names_ : list string;
  scope_ : weak_ptr;
  expressions_ : list Object;
  local_scopes_ : list nat
}.

(** ** scheme.h: the scopes *)

(** [use_count] is not a member of the class: it is the number of
    [std::shared_ptr<Scope>] that own the scope. *)
Record Scope := mkScope {
  parent_ : weak_ptr;
  variables_ : gmap string Object;
  refs_ : Z;
  use_count : nat
}.

Record State := mkState {
  cells : list Cell;
  lambdas : list Lambda;
  scopes : list (option Scope)
}.

Definition get_scope (st : State) (h : nat) : option Scope :=
  match scopes st !! h with
  | Some (Some sc) => Some sc
  | _ => None
  end.

Definition expired (st : State) (w : weak_ptr) : bool :=
  match w with
  | Some h => match get_scope st h with Some _ => false | None => true end
  | None => true
  end.

(** ** The state and exception monad of the evaluator *)

Definition M (A : Type) : Type := State -> Outcome A * State.

Definition ret {A} (a : A) : M A := fun st => (Ret a, st).

Definition throw {A} (e : Exception) : M A := fun st => (Throw e, st).

Definition crash {A} : M A := fun st => (Crash, st).

Definition bind {A B} (m : M A) (k : A -> M B) : M B :=
  fun st =>
    match m st with
    | (Ret a, st') => k a st'
    | (Throw e, st') => (Throw e, st')
    | (Crash, st') => (Crash, st')
    | (Timeout, st') => (Timeout, st')
    end.

(** A function that only reads the heap. *)
Definition read {A} (f : State -> Outcome A) : M A := fun st => (f st, st).

Definition modify (f : State -> State) : M unit := fun st => (Ret tt, f st).

(** [try { m } catch (...) { handler }]: every C++ exception is caught, a
    crash or a computation that does not end is not. *)
Definition catch_all {A} (m : M A) (handler : M A) : M A :=
  fun st =>
    match m st with
    | (Throw _, st') => handler st'
    | r => r
    end.

Declare Scope monad_scope.
Delimit Scope monad_scope with monad.
Notation "x <- e ;; k" := (bind e (fun x => k))
  (at level 100, e at next level, right associativity) : monad_scope.
Notation "e ;;; k" := (bind e (fun _ => k))
  (at level 100, right associativity) : monad_scope.

(** ** parser.cpp: rendering *)

Definition Boolean_ToString (value : bool) : string :=
  if value then "#t" else "#f".

(** [Lambda::ToString], the text before the body: the names, each followed by
    a space, then the last character replaced by a closing bracket. *)
Definition replace_back (s : string) (c : Ascii.ascii) : string :=
  match rev (list_ascii_of_string s) with
  | [] => s
  | _ :: r => string_of_list_ascii (rev (c :: r))
  end.

Definition Lambda_header (names : list string) : string :=
  replace_back
    (fold_left (fun result name => result ++ name ++ " ") names "(lambda (")
    ")"%char.

(** [ToString], [Cell::ToString] (through the loop of [ListToString]) and
    [Lambda::ToString] (through the loop over its expressions). *)
Fixpoint ToString (fuel : nat) (st : State) (obj : Object) : Outcome string :=
  match fuel with
  | O => Timeout
  | S f =>
    match obj with
    | nullptr => Ret "()"
    | Number value => Ret (to_string value)
    | Boolean value => Ret (Boolean_ToString value)
    | Symbol name => Ret name
    | CellPtr _ => ListToString_loop f st "(" true obj
    | LambdaPtr l =>
      match lambdas st !! l with
      | Some lam =>
        (result <-- Lambda_body_loop f st (Lambda_header (arg_names_ lam))
                      (expressions_ lam) ;;
         Ret (result ++ ")"))%outcome
      | None => Crash
      end
    end
  end
with ListToString_loop (fuel : nat) (st : State) (result : string)
       (first : bool) (object : Object) : Outcome string :=
  match fuel with
  | O => Timeout
  | S f =>
    match object with
    | nullptr => Ret (result ++ ")")
    | CellPtr c =>
      match cells st !! c with
      | Some cell =>
        let result := if first then result else result ++ " " in
        (s <-- ToString f st (first_ cell) ;;
         ListToString_loop f st (result ++ s) false (second_ cell))%outcome
      | None => Crash
      end
    | _ =>
      (s <-- ToString f st object ;;
       Ret (result ++ " . " ++ s ++ ")"))%outcome
    end
  end
with Lambda_body_loop (fuel : nat) (st : State) (result : string)
       (expressions : list Object) : Outcome string :=
  match fuel with
  | O => Timeout
  | S f =>
    match expressions with
    | [] => Ret result
    | expression :: rest =>
      (s <-- ToString f st expression ;;
       Lambda_body_loop f st (result ++ " " ++ s) rest)%outcome
    end
  end.

Definition ListToString (fuel : nat) (st : State) (object : Object) :
  Outcome string :=
  ListToString_loop fuel st "(" true object.

Definition Lambda_ToString (fuel : nat) (st : State) (l : nat) :
  Outcome string :=
  ToString fuel st (LambdaPtr l).

(** ** parser.cpp: equality, ordering, arithmetic *)

Definition FailCompare {A} (fuel : nat) (st : State) (lhs rhs : Object) :
  Outcome A :=
  (l <-- ToString fuel st lhs ;;
   r <-- ToString fuel st rhs ;;
   Throw (NameError ("Cannot compare: " ++ l ++ " and " ++ r)))%outcome.

(** [Equal], with the virtual [IsEqualTo] of each class inlined.  In
    [Cell::IsEqualTo] the second [Equal] runs only when the first holds. *)
Fixpoint Equal (fuel : nat) (st : State) (lhs rhs : Object) : Outcome bool :=
  match fuel with
  | O => Timeout
  | S f =>
    match lhs, rhs with
    | nullptr, nullptr => Ret true
    | nullptr, _ => Ret false
    | _, nullptr => Ret false
    | Number value, Number other => Ret (Z.eqb value other)
    | Number _, _ => Ret false
    | Symbol name, Symbol other => Ret (String.eqb other name)
    | Symbol _, _ => Ret false
    | Boolean value, Boolean other => Ret (Bool.eqb value other)
    | Boolean _, _ => Ret false
    | CellPtr c, CellPtr c' =>
      match cells st !! c, cells st !! c' with
      | Some this, Some cell =>
        (b <-- Equal f st (first_ this) (first_ cell) ;;
         if b then Equal f st (second_ this) (second_ cell)
         else Ret false)%outcome
      | _, _ => Crash
      end
    | CellPtr _, _ => Ret false
    | LambdaPtr l, LambdaPtr l' => Ret (Nat.eqb l l')
    | LambdaPtr _, _ => Ret false
    end
  end.

(** [Less], with the virtual [IsLessThan] of each class inlined: only
    [Number::IsLessThan] can return. *)
Definition Less (fuel : nat) (st : State) (lhs rhs : Object) : Outcome bool :=
  match lhs, rhs with
  | nullptr, _ | _, nullptr => FailCompare fuel st lhs rhs
  | Number value, Number other => Ret (Z.ltb value other)
  | _, _ => FailCompare fuel st lhs rhs
  end.

Definition LessOrEqual (fuel : nat) (st : State) (lhs rhs : Object) :
  Outcome bool :=
  (b <-- Less fuel st lhs rhs ;;
   if b then Ret true else Equal fuel st lhs rhs)%outcome.

Definition Greater (fuel : nat) (st : State) (lhs rhs : Object) :
  Outcome bool :=
  Less fuel st rhs lhs.

Definition GreaterOrEqual (fuel : nat) (st : State) (lhs rhs : Object) :
  Outcome bool :=
  LessOrEqual fuel st rhs lhs.

(** [GetNumberConstant]: the table of shared instances is not observable. *)
Definition GetNumberConstant (value : Z) : Object := Number value.

Definition GetBooleanConstant (value : bool) : Object := Boolean value.

Definition arith_fail {A} (what : string) (fuel : nat) (st : State)
  (lhs rhs : Object) : Outcome A :=
  (l <-- ToString fuel st lhs ;;
   r <-- ToString fuel st rhs ;;
   Throw (RuntimeError (what ++ l ++ " and " ++ r)))%outcome.

(** The result of an operation of [int64_t] is reduced by [int64_wrap]. *)
Definition Add (fuel : nat) (st : State) (lhs rhs : Object) : Outcome Object :=
  match lhs, rhs with
  | Number l, Number r => Ret (GetNumberConstant (int64_wrap (l + r)))
  | _, _ => arith_fail "Cannot add: " fuel st lhs rhs
  end.

Definition Subtract (fuel : nat) (st : State) (lhs rhs : Object) :
  Outcome Object :=
  match lhs, rhs with
  | Number l, Number r => Ret (GetNumberConstant (int64_wrap (l - r)))
  | _, _ => arith_fail "Cannot subtract: " fuel st lhs rhs
  end.

Definition Multiply (fuel : nat) (st : State) (lhs rhs : Object) :
  Outcome Object :=
  match lhs, rhs with
  | Number l, Number r => Ret (GetNumberConstant (int64_wrap (l * r)))
  | _, _ => arith_fail "Cannot multiply: " fuel st lhs rhs
  end.

(** The quotient of [int64_t] truncates toward zero: [Z.quot].  The
    quotient of the least [int64_t] by -1 is no [int64_t]: the division
    traps. *)
Definition Divide (fuel : nat) (st : State) (lhs rhs : Object) :
  Outcome Object :=
  match lhs, rhs with
  | Number l, Number r =>
    if Z.eqb r 0 then arith_fail "Cannot divide: " fuel st lhs rhs
    else if Z.eqb l (- 2 ^ 63) && Z.eqb r (-1) then Crash
    else Ret (GetNumberConstant (int64_wrap (Z.quot l r)))
  | _, _ => arith_fail "Cannot divide: " fuel st lhs rhs
  end.

Definition AsBoolean (object : Object) : bool :=
  match object with
  | Boolean value => value
  | _ => true
  end.

Definition Not (object : Object) : Object :=
  GetBooleanConstant (negb (AsBoolean object)).

(** ** scheme.cpp: helpers *)

(** [UnfoldList]: the loop over the chain of second fields. *)
Fixpoint UnfoldList_loop (fuel : nat) (st : State) (result : list Object)
  (object : Object) : Outcome (list Object) :=
  match fuel with
  | O => Timeout
  | S f =>
    match object with
    | nullptr => Ret result
    | CellPtr c =>
      match cells st !! c with
      | Some cell =>
        UnfoldList_loop f st (result ++ [first_ cell])%list (second_ cell)
      | None => Crash
      end
    | _ =>
      (s <-- ToString f st object ;;
       Throw (RuntimeError ("Expected list, but got: " ++ s)))%outcome
    end
  end.

Definition UnfoldList (fuel : nat) (st : State) (object : Object) :
  Outcome (list Object) :=
  UnfoldList_loop fuel st [] object.

Fixpoint FailEvaluation_loop (fuel : nat) (st : State) (msg : string)
  (args : list Object) : Outcome string :=
  match args with
  | [] => Ret msg
  | arg :: rest =>
    (s <-- ToString fuel st arg ;;
     FailEvaluation_loop fuel st (msg ++ " " ++ s) rest)%outcome
  end.

Definition FailEvaluation_msg (fuel : nat) (st : State) (args : list Object) :
  Outcome string :=
  (msg <-- FailEvaluation_loop fuel st "Failed to evaluate: (" args ;;
   Ret (msg ++ ")"))%outcome.

Definition FailEvaluation {A} (fuel : nat) (args : list Object) : M A :=
  fun st =>
    match FailEvaluation_msg fuel st args with
    | Ret msg => (Throw (RuntimeError msg), st)
    | Throw e => (Throw e, st)
    | Crash => (Crash, st)
    | Timeout => (Timeout, st)
    end.

Definition SymbolToName (fuel : nat) (st : State) (object : Object) :
  Outcome string :=
  match object with
  | Symbol name => Ret name
  | _ =>
    (s <-- ToString fuel st object ;;
     Throw (RuntimeError ("Expected symbol, but got: " ++ s)))%outcome
  end.

(** ** scheme.cpp: Scope *)

Definition put_scope (h : nat) (sc : option Scope) (st : State) : State :=
  mkState (cells st) (lambdas st) (<[h := sc]> (scopes st)).

(** [new Scope(parent)] held by one [std::shared_ptr]. *)
Definition new_Scope (parent : weak_ptr) : M nat :=
  fun st =>
    (Ret (length (scopes st)),
     mkState (cells st) (lambdas st)
       (scopes st ++ [Some (mkScope parent ∅ 0 1)])).

Definition with_scope {A} (h : nat) (k : Scope -> M A) : M A :=
  fun st =>
    match get_scope st h with
    | Some sc => k sc st
    | None => (Crash, st)
    end.

Definition AddRef (h : nat) : M unit :=
  with_scope h (fun sc =>
    modify (put_scope h (Some (mkScope (parent_ sc) (variables_ sc)
                                 (size_t_wrap (refs_ sc + 1)) (use_count sc))))).

Definition DelRef (h : nat) : M unit :=
  with_scope h (fun sc =>
    modify (put_scope h (Some (mkScope (parent_ sc) (variables_ sc)
                                 (size_t_wrap (refs_ sc - 1)) (use_count sc))))).

Definition GetRefs (st : State) (h : nat) : option Z :=
  refs_ <$> get_scope st h.

(** A copy of a [std::shared_ptr<Scope>] is made, or one is destroyed; the
    scope is destroyed with its last owner.  The variables of a scope that
    is destroyed are released: this is the program's state when nothing else
    is destroyed with them, as when they are data. *)
Definition acquire (h : nat) : M unit :=
  with_scope h (fun sc =>
    modify (put_scope h (Some (mkScope (parent_ sc) (variables_ sc) (refs_ sc)
                                 (S (use_count sc)))))).

Definition release_scope (h : nat) (st : State) : State :=
  match get_scope st h with
  | Some sc =>
    match use_count sc with
    | S (S n) =>
      put_scope h (Some (mkScope (parent_ sc) (variables_ sc) (refs_ sc) (S n)))
        st
    | _ => put_scope h None st
    end
  | None => st
  end.

Definition release (h : nat) : M unit := modify (release_scope h).

(** [FindVariable] returns the address of a slot of [variables_]: here the
    handle of the scope that holds the name. *)
Fixpoint FindVariable (fuel : nat) (st : State) (h : nat) (name : string) :
  Outcome (option nat) :=
  match fuel with
  | O => Timeout
  | S f =>
    match get_scope st h with
    | Some sc =>
      match variables_ sc !! name with
      | Some _ => Ret (Some h)
      | None =>
        match parent_ sc with
        | Some p => if expired st (Some p) then Ret None
                    else FindVariable f st p name
        | None => Ret None
        end
      end
    | None => Crash
    end
  end.

(** The value in the slot [FindVariable] returned. *)
Definition slot_value (st : State) (h : nat) (name : string) : option Object :=
  sc ← get_scope st h; variables_ sc !! name.

(** [*ptr = value] for the slot of [name] in scope [h].  The value that was
    in the slot is released: this is the program's state when nothing else
    is destroyed with it, as when that value is data. *)
Definition slot_assign (h : nat) (name : string) (value : Object) : M unit :=
  with_scope h (fun sc =>
    modify (put_scope h (Some (mkScope (parent_ sc)
                                 (<[name := value]> (variables_ sc))
                                 (refs_ sc) (use_count sc))))).

Definition GetVariable (fuel : nat) (h : nat) (name : string) : M Object :=
  fun st =>
    match FindVariable fuel st h name with
    | Ret (Some h') =>
      match slot_value st h' name with
      | Some value => (Ret value, st)
      | None => (Crash, st)
      end
    | Ret None => (Throw (NameError ("No such variable: " ++ name)), st)
    | Throw e => (Throw e, st)
    | Crash => (Crash, st)
    | Timeout => (Timeout, st)
    end.

(** [variables_.insert(std::make_pair(name, value))]: [std::map::insert]
    leaves the map as it is when the key is present. *)
Definition std_map_insert (name : string) (value : Object)
  (variables : gmap string Object) : gmap string Object :=
  match variables !! name with
  | Some _ => variables
  | None => <[name := value]> variables
  end.

Definition SetLocalVariable (h : nat) (name : string) (value : Object) :
  M unit :=
  with_scope h (fun sc =>
    modify (put_scope h (Some (mkScope (parent_ sc)
                                 (std_map_insert name value (variables_ sc))
                                 (refs_ sc) (use_count sc))))).

Definition SetVariable (fuel : nat) (h : nat) (name : string)
  (value : Object) : M unit :=
  (ptr <- read (fun st => FindVariable fuel st h name) ;;
   match ptr with
   | Some h' => slot_assign h' name value
   | None => SetLocalVariable h name value
   end)%monad.

(** ** parser.cpp: Lambda *)

Local Open Scope monad_scope.

Definition new_Cell (first second : Object) : M Object :=
  fun st =>
    (Ret (CellPtr (length (cells st))),
     mkState (cells st ++ [mkCell first second]) (lambdas st) (scopes st)).

Definition with_cell {A} (c : nat) (k : Cell -> M A) : M A :=
  fun st =>
    match cells st !! c with
    | Some cell => k cell st
    | None => (Crash, st)
    end.

Definition put_cell (c : nat) (cell : Cell) (st : State) : State :=
  mkState (<[c := cell]> (cells st)) (lambdas st) (scopes st).

Definition with_lambda {A} (l : nat) (k : Lambda -> M A) : M A :=
  fun st =>
    match lambdas st !! l with
    | Some lam => k lam st
    | None => (Crash, st)
    end.

Definition set_local_scopes (l : nat) (frames : list nat) (st : State) :
  State :=
  match lambdas st !! l with
  | Some lam =>
    mkState (cells st)
      (<[l := mkLambda (arg_names_ lam) (scope_ lam) (expressions_ lam) frames]>
         (lambdas st))
      (scopes st)
  | None => st
  end.

(** [Lambda::Lambda]. *)
Definition new_Lambda (arg_names : list string) (scope : weak_ptr)
  (expressions : list Object) : M nat :=
  fun st =>
    let l := length (lambdas st) in
    let st' := mkState (cells st)
                 (lambdas st ++ [mkLambda arg_names scope expressions []])
                 (scopes st) in
    match scope with
    | Some h =>
      if expired st' scope then (Ret l, st')
      else (_ <- AddRef h ;; ret l) st'
    | None => (Ret l, st')
    end.

Definition release_all (frames : list nat) (st : State) : State :=
  fold_left (fun s h => release_scope h s) frames st.

(** [Lambda::~Lambda], followed by the destruction of the member
    [local_scopes_]. *)
Definition Lambda_dtor (l : nat) : M unit :=
  with_lambda l (fun lam =>
    (match scope_ lam with
     | Some h => fun st => if expired st (scope_ lam) then (Ret tt, st)
                           else DelRef h st
     | None => ret tt
     end) ;;;
    modify (fun st => set_local_scopes l [] (release_all (local_scopes_ lam) st))).

(** The predicate given to [std::remove_if]. *)
Definition dead (st : State) (h : nat) : bool :=
  match GetRefs st h with
  | Some refs => Z.leb refs 0
  | None => false
  end.

(** [std::remove_if] and [erase] on [local_scopes_].  A frame that is
    removed is released during the pass or at its end; the frames are tested
    here on their counters at the start of the pass, which are the counters
    at the time of each test when the release of the frames removed
    decrements none, as when these frames bind data. *)
Definition Lambda_prune (l : nat) : M unit :=
  with_lambda l (fun lam st =>
    if forallb (fun h => bool_decide (is_Some (get_scope st h)))
         (local_scopes_ lam)
    then
      (Ret tt,
       release_all (List.filter (dead st) (local_scopes_ lam))
         (set_local_scopes l
            (List.filter (fun h => negb (dead st h)) (local_scopes_ lam)) st))
    else (Crash, st)).

(** [local_scopes_.push_back(local_scope)]. *)
Definition Lambda_register (l : nat) (local_scope : nat) : M unit :=
  with_lambda l (fun lam =>
    acquire local_scope ;;;
    modify (set_local_scopes l (local_scopes_ lam ++ [local_scope])%list)).

(** The destructors of the local objects run when the block is left, by a
    return or by an exception. *)
Definition finally {A} (m : M A) (cleanup : M unit) : M A :=
  fun st =>
    match m st with
    | (Ret a, st') =>
      match cleanup st' with
      | (Ret _, st'') => (Ret a, st'')
      | (Throw e, st'') => (Throw e, st'')
      | (Crash, st'') => (Crash, st'')
      | (Timeout, st'') => (Timeout, st'')
      end
    | (Throw e, st') =>
      match cleanup st' with
      | (Ret _, st'') => (Throw e, st'')
      | (Throw e', st'') => (Throw e', st'')
      | (Crash, st'') => (Crash, st'')
      | (Timeout, st'') => (Timeout, st'')
      end
    | r => r
    end.

Fixpoint bind_arguments (local_scope : nat) (arg_names : list string)
  (args : list Object) : M unit :=
  match arg_names, args with
  | name :: arg_names', arg :: args' =>
    SetLocalVariable local_scope name arg ;;;
    bind_arguments local_scope arg_names' args'
  | _, _ => ret tt
  end.

Fixpoint eval_body (Eval : Object -> M Object) (result : Object)
  (expressions : list Object) : M Object :=
  match expressions with
  | [] => ret result
  | expression :: rest =>
    result' <- Eval expression ;;
    eval_body Eval result' rest
  end.

(** The first statements of [Lambda::Call]: the new frame, the pruning of
    [local_scopes_], the registration of the new frame. *)
Definition Lambda_Call_frame (l : nat) : M nat :=
  with_lambda l (fun lam =>
    local_scope <- new_Scope (scope_ lam) ;;
    Lambda_prune l ;;;
    Lambda_register l local_scope ;;;
    ret local_scope).

(** The statements of [Lambda::Call] that follow: the check of the number of
    arguments, the binding of the parameters, the evaluation of the
    expressions by an interpreter built on the new frame.  [Eval] is
    [Interpreter::Eval] of the interpreter built on the scope given to it. *)
Definition Lambda_Call_body (fuel : nat) (Eval : nat -> Object -> M Object)
  (l : nat) (lam : Lambda) (args : list Object) (local_scope : nat) :
  M Object :=
  let num_args := length (arg_names_ lam) in
  finally
    (if negb (Nat.eqb (length args) num_args) then
       s <- read (fun st => Lambda_ToString fuel st l) ;;
       throw (RuntimeError
                ("Invalid number of arguments in for lambda: " ++ s))
     else
       bind_arguments local_scope (arg_names_ lam) args ;;;
       acquire local_scope ;;;
       AddRef local_scope ;;;
       finally
         (eval_body (Eval local_scope) nullptr (expressions_ lam))
         (DelRef local_scope ;;; release local_scope))
    (release local_scope).

(** [Lambda::Call]. *)
Definition Lambda_Call (fuel : nat) (Eval : nat -> Object -> M Object)
  (l : nat) (args : list Object) : M Object :=
  with_lambda l (fun lam =>
    local_scope <- Lambda_Call_frame l ;;
    Lambda_Call_body fuel Eval l lam args local_scope).

(** ** scheme.cpp: the commands of [Interpreter::InitCommands]

    A command receives the whole form, [args[0]] being the symbol of the
    command.  [Eval] is [Interpreter::Eval] for any scope; the commands use it
    on the scope [scope_] of their interpreter. *)

Definition Command : Type :=
  nat -> (nat -> Object -> M Object) -> nat -> list Object -> M Object.

(** [for (i = 1; i < n; ++i) args[i] = Eval(args[i]);] *)
Fixpoint eval_each (Eval : Object -> M Object) (args : list Object) :
  M (list Object) :=
  match args with
  | [] => ret []
  | arg :: rest =>
    value <- Eval arg ;;
    values <- eval_each Eval rest ;;
    ret (value :: values)
  end.

Definition eval_args (Eval : Object -> M Object) (args : list Object) :
  M (list Object) :=
  match args with
  | [] => ret []
  | command :: rest =>
    values <- eval_each Eval rest ;;
    ret (command :: values)
  end.

Definition is_Number (object : Object) : bool :=
  match object with Number _ => true | _ => false end.

Definition is_Boolean (object : Object) : bool :=
  match object with Boolean _ => true | _ => false end.

Definition is_Symbol (object : Object) : bool :=
  match object with Symbol _ => true | _ => false end.

Definition is_Cell (object : Object) : bool :=
  match object with CellPtr _ => true | _ => false end.

(** The loop of the comparisons: each argument is evaluated and must be a
    [Number]; [done] holds the arguments already replaced by their values. *)
Fixpoint eval_numbers (fuel : nat) (Eval : Object -> M Object)
  (done todo : list Object) : M (list Object) :=
  match todo with
  | [] => ret done
  | arg :: rest =>
    value <- Eval arg ;;
    if is_Number value then eval_numbers fuel Eval (done ++ [value])%list rest
    else FailEvaluation fuel (done ++ value :: rest)%list
  end.

Definition eval_number_args (fuel : nat) (Eval : Object -> M Object)
  (args : list Object) : M (list Object) :=
  match args with
  | [] => ret []
  | command :: rest => eval_numbers fuel Eval [command] rest
  end.

(** [for (i = 2; i < n; ++i) if (!cmp(args[i - 1], args[i])) return false;] *)
Fixpoint compare_chain (cmp : Object -> Object -> Outcome bool)
  (previous : Object) (rest : list Object) : Outcome bool :=
  match rest with
  | [] => Ret true
  | arg :: rest' =>
    (b <-- cmp previous arg ;;
     if b then compare_chain cmp arg rest' else Ret false)%outcome
  end.

(** [for (i = 2; i < n; ++i) if (!Equal(args[1], args[i])) return false;] *)
Fixpoint compare_first (cmp : Object -> Object -> Outcome bool)
  (first : Object) (rest : list Object) : Outcome bool :=
  match rest with
  | [] => Ret true
  | arg :: rest' =>
    (b <-- cmp first arg ;;
     if b then compare_first cmp first rest' else Ret false)%outcome
  end.

(** [for (i = ...; i < n; ++i) result = op(result, args[i]);] *)
Fixpoint fold_args (op : Object -> Object -> Outcome Object)
  (result : Object) (rest : list Object) : Outcome Object :=
  match rest with
  | [] => Ret result
  | arg :: rest' =>
    (result' <-- op result arg ;; fold_args op result' rest')%outcome
  end.

Definition cmd_quote : Command := fun fuel Eval scope args =>
  match args with
  | [_; arg] => ret arg
  | _ => FailEvaluation fuel args
  end.

Definition CheckTypeCommand (is_T : Object -> bool) : Command :=
  fun fuel Eval scope args =>
  match args with
  | [command; arg] =>
    value <- Eval scope arg ;;
    ret (GetBooleanConstant (is_T value))
  | _ => FailEvaluation fuel args
  end.

Definition cmd_equal : Command := fun fuel Eval scope args =>
  args <- eval_number_args fuel (Eval scope) args ;;
  match args with
  | _ :: first :: rest =>
    b <- read (fun st => compare_first (Equal fuel st) first rest) ;;
    ret (GetBooleanConstant b)
  | _ => ret (GetBooleanConstant true)
  end.

Definition comparison (cmp : nat -> State -> Object -> Object -> Outcome bool) :
  Command := fun fuel Eval scope args =>
  args <- eval_number_args fuel (Eval scope) args ;;
  match args with
  | _ :: first :: rest =>
    b <- read (fun st => compare_chain (cmp fuel st) first rest) ;;
    ret (GetBooleanConstant b)
  | _ => ret (GetBooleanConstant true)
  end.

Definition cmd_less : Command := comparison Less.
Definition cmd_greater : Command := comparison Greater.
Definition cmd_less_or_equal : Command := comparison LessOrEqual.
Definition cmd_greater_or_equal : Command := comparison GreaterOrEqual.

Definition cmd_add : Command := fun fuel Eval scope args =>
  args <- eval_args (Eval scope) args ;;
  read (fun st => fold_args (Add fuel st) (GetNumberConstant 0) (tail args)).

Definition cmd_subtract : Command := fun fuel Eval scope args =>
  args <- eval_args (Eval scope) args ;;
  match args with
  | _ :: first :: rest =>
    read (fun st => fold_args (Subtract fuel st) first rest)
  | _ => FailEvaluation fuel args
  end.

Definition cmd_multiply : Command := fun fuel Eval scope args =>
  args <- eval_args (Eval scope) args ;;
  read (fun st => fold_args (Multiply fuel st) (GetNumberConstant 1) (tail args)).

Definition cmd_divide : Command := fun fuel Eval scope args =>
  args <- eval_args (Eval scope) args ;;
  match args with
  | _ :: first :: rest =>
    read (fun st => fold_args (Divide fuel st) first rest)
  | _ => FailEvaluation fuel args
  end.

Definition cmd_not : Command := fun fuel Eval scope args =>
  args <- eval_args (Eval scope) args ;;
  match args with
  | [_; arg] => ret (Not arg)
  | _ => FailEvaluation fuel args
  end.

(** [and]: the first value that is false is returned; [last] is the value of
    the argument before, [args.back()] when the loop ends. *)
Fixpoint and_loop (Eval : Object -> M Object) (last : Object)
  (todo : list Object) : M Object :=
  match todo with
  | [] => ret last
  | arg :: rest =>
    value <- Eval arg ;;
    if negb (AsBoolean value) then ret value else and_loop Eval value rest
  end.

Definition cmd_and : Command := fun fuel Eval scope args =>
  and_loop (Eval scope) (GetBooleanConstant true) (tail args).

Fixpoint or_loop (Eval : Object -> M Object) (last : Object)
  (todo : list Object) : M Object :=
  match todo with
  | [] => ret last
  | arg :: rest =>
    value <- Eval arg ;;
    if AsBoolean value then ret value else or_loop Eval value rest
  end.

Definition cmd_or : Command := fun fuel Eval scope args =>
  or_loop (Eval scope) (GetBooleanConstant false) (tail args).

(** [min] and [max]: [better candidate result] replaces the result. *)
Fixpoint select_loop (better : Object -> Object -> Outcome bool)
  (result : Object) (rest : list Object) : Outcome Object :=
  match rest with
  | [] => Ret result
  | arg :: rest' =>
    (b <-- better arg result ;;
     select_loop better (if b then arg else result) rest')%outcome
  end.

Definition selection (better : nat -> State -> Object -> Object -> Outcome bool) :
  Command := fun fuel Eval scope args =>
  args <- eval_args (Eval scope) args ;;
  match args with
  | _ :: first :: rest =>
    if forallb is_Number (first :: rest) then
      read (fun st => select_loop (better fuel st) first rest)
    else FailEvaluation fuel args
  | _ => FailEvaluation fuel args
  end.

Definition cmd_min : Command := selection Less.
Definition cmd_max : Command := selection Greater.

Definition cmd_abs : Command := fun fuel Eval scope args =>
  args <- eval_args (Eval scope) args ;;
  match args with
  | [_; Number value] =>
    if Z.leb 0 value then ret (Number value)
    else ret (GetNumberConstant (int64_wrap (- value)))
  | _ => FailEvaluation fuel args
  end.

Definition cmd_is_null : Command := fun fuel Eval scope args =>
  args <- eval_args (Eval scope) args ;;
  match args with
  | [_; arg] => ret (GetBooleanConstant (bool_decide (arg = nullptr)))
  | _ => FailEvaluation fuel args
  end.

Fixpoint is_list_loop (fuel : nat) (st : State) (object : Object) :
  Outcome bool :=
  match fuel with
  | O => Timeout
  | S f =>
    match object with
    | nullptr => Ret true
    | CellPtr c =>
      match cells st !! c with
      | Some cell => is_list_loop f st (second_ cell)
      | None => Crash
      end
    | _ => Ret false
    end
  end.

Definition cmd_is_list : Command := fun fuel Eval scope args =>
  args <- eval_args (Eval scope) args ;;
  match args with
  | [_; arg] =>
    b <- read (fun st => is_list_loop fuel st arg) ;;
    ret (GetBooleanConstant b)
  | _ => FailEvaluation fuel args
  end.

Definition cmd_cons : Command := fun fuel Eval scope args =>
  args <- eval_args (Eval scope) args ;;
  match args with
  | [_; first; second] => new_Cell first second
  | _ => FailEvaluation fuel args
  end.

Definition cmd_car : Command := fun fuel Eval scope args =>
  args <- eval_args (Eval scope) args ;;
  match args with
  | [_; CellPtr c] => with_cell c (fun cell => ret (first_ cell))
  | _ => FailEvaluation fuel args
  end.

Definition cmd_cdr : Command := fun fuel Eval scope args =>
  args <- eval_args (Eval scope) args ;;
  match args with
  | [_; CellPtr c] => with_cell c (fun cell => ret (second_ cell))
  | _ => FailEvaluation fuel args
  end.

(** [for (i = n - 1; i > 0; --i) result = new Cell(args[i], result);] *)
Fixpoint build_list (reversed : list Object) (result : Object) : M Object :=
  match reversed with
  | [] => ret result
  | arg :: rest =>
    cell <- new_Cell arg result ;;
    build_list rest cell
  end.

Definition cmd_list : Command := fun fuel Eval scope args =>
  args <- eval_args (Eval scope) args ;;
  build_list (rev (tail args)) nullptr.

Definition cmd_list_ref : Command := fun fuel Eval scope args =>
  args <- eval_args (Eval scope) args ;;
  match args with
  | [_; object; position] =>
    list <- catch_all (read (fun st => UnfoldList fuel st object))
              (FailEvaluation fuel args) ;;
    match position with
    | Number value =>
      let index := size_t_wrap value in
      if Z.leb (Z.of_nat (length list)) index then FailEvaluation fuel args
      else
        match list !! Z.to_nat index with
        | Some element => ret element
        | None => crash
        end
    | _ => FailEvaluation fuel args
    end
  | _ => FailEvaluation fuel args
  end.

(** [for (i = 0; i != to_drop; ++i)]: [None] when an object on the way is
    not a cell. *)
Fixpoint list_tail_loop (fuel : nat) (st : State) (to_drop i : Z)
  (object : Object) : Outcome (option Object) :=
  match fuel with
  | O => Timeout
  | S f =>
    if Z.eqb i to_drop then Ret (Some object)
    else
      match object with
      | CellPtr c =>
        match cells st !! c with
        | Some cell => list_tail_loop f st to_drop (i + 1) (second_ cell)
        | None => Crash
        end
      | _ => Ret None
      end
  end.

Definition cmd_list_tail : Command := fun fuel Eval scope args =>
  args <- eval_args (Eval scope) args ;;
  match args with
  | [_; object; Number value] =>
    r <- read (fun st => list_tail_loop fuel st (size_t_wrap value) 0 object) ;;
    match r with
    | Some object' => ret object'
    | None => FailEvaluation fuel args
    end
  | _ => FailEvaluation fuel args
  end.

(** *** The special forms *)

Fixpoint SymbolToName_each (fuel : nat) (st : State) (objects : list Object) :
  Outcome (list string) :=
  match objects with
  | [] => Ret []
  | object :: rest =>
    (name <-- SymbolToName fuel st object ;;
     names <-- SymbolToName_each fuel st rest ;;
     Ret (name :: names))%outcome
  end.

Definition cmd_define : Command := fun fuel Eval scope args =>
  match args with
  | [] | [_] => throw (SyntaxError "Invalid define")
  | _ :: Symbol name :: rest =>
    match rest with
    | [expression] =>
      SetVariable fuel scope name nullptr ;;;
      value <- Eval scope expression ;;
      SetVariable fuel scope name value ;;;
      ret nullptr
    | _ => throw (SyntaxError "Invalid define")
    end
  | _ :: signature :: expressions =>
    match expressions with
    | [] => throw (SyntaxError "Invalid define")
    | _ =>
      names <- catch_all
                 (list <- read (fun st => UnfoldList fuel st signature) ;;
                  match list with
                  | [] => crash
                  | front :: parameters =>
                    func_name <- read (fun st => SymbolToName fuel st front) ;;
                    arg_names <- read (fun st =>
                                   SymbolToName_each fuel st parameters) ;;
                    ret (func_name, arg_names)
                  end)
                 (throw (SyntaxError "Invalid define")) ;;
      let '(func_name, arg_names) := names in
      SetVariable fuel scope func_name nullptr ;;;
      func <- new_Lambda arg_names (Some scope) expressions ;;
      SetVariable fuel scope func_name (LambdaPtr func) ;;;
      ret nullptr
    end
  end.

Definition cmd_set : Command := fun fuel Eval scope args =>
  match args with
  | [_; Symbol name; expression] =>
    value <- Eval scope expression ;;
    ptr <- read (fun st => FindVariable fuel st scope name) ;;
    match ptr with
    | None => throw (NameError ("Variable doesn't yet exist: " ++ name))
    | Some h =>
      slot_assign h name value ;;;
      ret nullptr
    end
  | _ => throw (SyntaxError "Invalid set!")
  end.

(** The cell a slot holds, for [set-car!] and [set-cdr!].  [Cell::SetFirst]
    and [Cell::SetSecond] release the value that was in the field, as
    [slot_assign] does the value of a slot. *)
Definition slot_cell (fuel : nat) (what : string) (scope : nat)
  (name : string) : M nat :=
  ptr <- read (fun st => FindVariable fuel st scope name) ;;
  match ptr with
  | None => throw (NameError ("Variable doesn't yet exist: " ++ name))
  | Some h =>
    fun st =>
      match slot_value st h name with
      | Some (CellPtr c) => (Ret c, st)
      | Some _ => (Throw (RuntimeError what), st)
      | None => (Crash, st)
      end
  end.

Definition cmd_set_car : Command := fun fuel Eval scope args =>
  match args with
  | [_; Symbol name; expression] =>
    value <- Eval scope expression ;;
    c <- slot_cell fuel "Cannot set-car! on a non-pair" scope name ;;
    with_cell c (fun cell =>
      modify (put_cell c (mkCell value (second_ cell)))) ;;;
    ret nullptr
  | _ => throw (SyntaxError "Invalid set-car!")
  end.

Definition cmd_set_cdr : Command := fun fuel Eval scope args =>
  match args with
  | [_; Symbol name; expression] =>
    value <- Eval scope expression ;;
    c <- slot_cell fuel "Cannot set-car! on a non-pair" scope name ;;
    with_cell c (fun cell =>
      modify (put_cell c (mkCell (first_ cell) value))) ;;;
    ret nullptr
  | _ => throw (SyntaxError "Invalid set-cdr!")
  end.

Definition cmd_lambda : Command := fun fuel Eval scope args =>
  match args with
  | _ :: parameters :: expressions =>
    match expressions with
    | [] => throw (SyntaxError "Invalid lambda")
    | _ =>
      arg_names <- catch_all
                     (list <- read (fun st => UnfoldList fuel st parameters) ;;
                      read (fun st => SymbolToName_each fuel st list))
                     (throw (SyntaxError "Invalid lambda")) ;;
      lambda <- new_Lambda arg_names (Some scope) expressions ;;
      ret (LambdaPtr lambda)
    end
  | _ => throw (SyntaxError "Invalid lambda")
  end.

Definition cmd_if : Command := fun fuel Eval scope args =>
  match args with
  | [_; test; consequent] =>
    value <- Eval scope test ;;
    if AsBoolean value then Eval scope consequent else ret nullptr
  | [_; test; consequent; alternative] =>
    value <- Eval scope test ;;
    if AsBoolean value then Eval scope consequent else Eval scope alternative
  | _ => throw (SyntaxError "Invalid if")
  end.

(** The table [commands_], in the order of [InitCommands]. *)
Definition InitCommands : list (string * Command) :=
  [ ("quote", cmd_quote);
    ("number?", CheckTypeCommand is_Number);
    ("boolean?", CheckTypeCommand is_Boolean);
    ("pair?", CheckTypeCommand is_Cell);
    ("symbol?", CheckTypeCommand is_Symbol);
    ("=", cmd_equal);
    ("<", cmd_less);
    (">", cmd_greater);
    ("<=", cmd_less_or_equal);
    (">=", cmd_greater_or_equal);
    ("+", cmd_add);
    ("-", cmd_subtract);
    ("*", cmd_multiply);
    ("/", cmd_divide);
    ("not", cmd_not);
    ("and", cmd_and);
    ("or", cmd_or);
    ("min", cmd_min);
    ("max", cmd_max);
    ("abs", cmd_abs);
    ("null?", cmd_is_null);
    ("list?", cmd_is_list);
    ("cons", cmd_cons);
    ("car", cmd_car);
    ("cdr", cmd_cdr);
    ("list", cmd_list);
    ("list-ref", cmd_list_ref);
    ("list-tail", cmd_list_tail);
    ("define", cmd_define);
    ("set!", cmd_set);
    ("set-car!", cmd_set_car);
    ("set-cdr!", cmd_set_cdr);
    ("lambda", cmd_lambda);
    ("if", cmd_if) ].

(** [commands_.find(name)]. *)
Fixpoint find_command (table : list (string * Command)) (name : string) :
  option Command :=
  match table with
  | [] => None
  | (key, command) :: rest =>
    if String.eqb key name then Some command else find_command rest name
  end.

Definition commands_ (name : string) : option Command :=
  find_command InitCommands name.

(** ** scheme.cpp: Interpreter::Eval *)

Definition cannot_evaluate {A} (fuel : nat) (object : Object) : M A :=
  s <- read (fun st => ToString fuel st object) ;;
  throw (RuntimeError ("Cannot evaluate: " ++ s)).

(** The application of a closure: the head of the form is evaluated, then the
    arguments, then [Lambda::Call], whose result is the result of [Eval].
    When [Eval] returns, its local list of the values is destroyed; the
    state given here is the state at the return of [Lambda::Call]. *)
Definition Eval_apply (fuel : nat) (Eval : nat -> Object -> M Object)
  (scope : nat) (object front : Object) (rest : list Object) : M Object :=
  front' <- Eval scope front ;;
  match front' with
  | LambdaPtr lambda =>
    args <- eval_each (Eval scope) rest ;;
    Lambda_Call fuel Eval lambda args
  | _ => cannot_evaluate fuel object
  end.

Definition Eval_step (fuel : nat) (Eval : nat -> Object -> M Object)
  (scope : nat) (object : Object) : M Object :=
  match object with
  | Number _ => ret object
  | Boolean _ => ret object
  | Symbol name => GetVariable fuel scope name
  | CellPtr _ =>
    list <- read (fun st => UnfoldList fuel st object) ;;
    match list with
    | [] => cannot_evaluate fuel object
    | Symbol command :: rest =>
      match commands_ command with
      | Some cmd => cmd fuel Eval scope list
      | None => Eval_apply fuel Eval scope object (Symbol command) rest
      end
    | front :: rest => Eval_apply fuel Eval scope object front rest
    end
  | _ => cannot_evaluate fuel object
  end.

Fixpoint Eval (fuel : nat) (scope : nat) (object : Object) : M Object :=
  match fuel with
  | O => fun st => (Timeout, st)
  | S f => Eval_step f (Eval f) scope object
  end.

(** ** scheme.cpp: Interpreter *)

(** [Interpreter::Interpreter()]: the root scope, with no parent. *)
Definition Interpreter_new : M nat :=
  scope <- new_Scope None ;;
  AddRef scope ;;;
  ret scope.

Definition empty_State : State := mkState [] [] [].

(** ** tokenizer.h and the reader of parser.cpp

    The reader is given the sequence of tokens the [Tokenizer] delivers; the
    scanning of characters comes after the interpreter. *)

Inductive BracketToken := OPEN | CLOSE.

Inductive Token :=
| ConstantToken (value : Z)
| Bracket (bracket : BracketToken)
| BooleanToken (value : bool)
| SymbolToken (name : string)
| QuoteToken
| DotToken.

Fixpoint Read (fuel : nat) (tokens : list Token) : M (Object * list Token) :=
  match fuel with
  | O => fun st => (Timeout, st)
  | S f =>
    match tokens with
    | [] => throw (SyntaxError "Read: Unexpected end of input")
    | QuoteToken :: tokens' =>
      r <- Read f tokens' ;;
      cell1 <- new_Cell (fst r) nullptr ;;
      cell2 <- new_Cell (Symbol "quote") cell1 ;;
      ret (cell2, snd r)
    | ConstantToken value :: tokens' => ret (GetNumberConstant value, tokens')
    | SymbolToken name :: tokens' => ret (Symbol name, tokens')
    | BooleanToken value :: tokens' => ret (GetBooleanConstant value, tokens')
    | Bracket CLOSE :: _ => throw (SyntaxError "Read: Unexpcted )")
    | Bracket OPEN :: tokens' =>
      r <- ReadList_loop f [] tokens' ;;
      let '(objects, result, rest) := r in
      match rest with
      | Bracket CLOSE :: rest' =>
        object <- build_list (rev objects) result ;;
        ret (object, rest')
      | _ => throw (SyntaxError "Read: expected ) ending list")
      end
    | DotToken :: _ => throw (SyntaxError "Read: Unexpected token")
    end
  end
with ReadList_loop (fuel : nat) (objects : list Object) (tokens : list Token) :
  M (list Object * Object * list Token) :=
  match fuel with
  | O => fun st => (Timeout, st)
  | S f =>
    match tokens with
    | [] => ret (objects, nullptr, tokens)
    | Bracket CLOSE :: _ => ret (objects, nullptr, tokens)
    | DotToken :: tokens' =>
      match objects with
      | [] => throw (SyntaxError "Read: expected expression before .")
      | _ =>
        r <- Read f tokens' ;;
        ret (objects, fst r, snd r)
      end
    | _ =>
      r <- Read f tokens ;;
      ReadList_loop f (objects ++ [fst r])%list (snd r)
    end
  end.

(** [Interpreter::Run], on the tokens of the code. *)
Definition Run (fuel : nat) (scope : nat) (tokens : list Token) : M string :=
  r <- Read fuel tokens ;;
  match snd r with
  | [] =>
    value <- Eval fuel scope (fst r) ;;
    read (fun st => ToString fuel st value)
  | _ => throw (SyntaxError "Unexpected input")
  end.

(** A session: an interpreter is built, then [Run] is called on each code in
    turn; the renderings of the results are collected.  The session stops at
    the first code that does not return. *)
Fixpoint Run_each (fuel : nat) (scope : nat) (codes : list (list Token)) :
  M (list string) :=
  match codes with
  | [] => ret []
  | tokens :: rest =>
    s <- Run fuel scope tokens ;;
    results <- Run_each fuel scope rest ;;
    ret (s :: results)
  end.

Definition session (fuel : nat) (codes : list (list Token)) : M (list string) :=
  scope <- Interpreter_new ;;
  Run_each fuel scope codes.

(** ** tokenizer.cpp

    A [char] is an [ascii]; [char_code] is its value as the [int] of a
    signed [char].  [isspace] and [isdigit] are those of the C locale, and
    false on the characters from 128 on.  An [int] is a [Z]; the result of
    an operation of [int] is reduced by [int_wrap]. *)

Definition int_wrap (z : Z) : Z := (z + 2 ^ 31) mod 2 ^ 32 - 2 ^ 31.

Definition unsigned_code (chr : ascii) : Z := Z.of_nat (nat_of_ascii chr).

Definition char_code (chr : ascii) : Z :=
  if Z.ltb (unsigned_code chr) 128 then unsigned_code chr
  else unsigned_code chr - 256.

Definition in_range (first last chr : ascii) : bool :=
  Z.leb (unsigned_code first) (unsigned_code chr)
  && Z.leb (unsigned_code chr) (unsigned_code last).

Definition one_of (chr : ascii) (s : string) : bool :=
  existsb (Ascii.eqb chr) (list_ascii_of_string s).

Definition isspace (chr : ascii) : bool :=
  in_range "009" "013" chr || Ascii.eqb chr " ".

Definition isdigit (chr : ascii) : bool := in_range "0" "9" chr.

(** [a-zA-Z<=>*#] *)
Definition IsSymbolStart (chr : ascii) : bool :=
  in_range "a" "z" chr || in_range "A" "Z" chr || one_of chr "<=>*#".

(** [a-zA-Z<=>*#0-9?!-] *)
Definition IsSymbol (chr : ascii) : bool :=
  in_range "a" "z" chr || in_range "A" "Z" chr || in_range "0" "9" chr
  || one_of chr "<=>*#?!-".

(** The stream [*in_]: the characters not yet extracted and the flag
    [eofbit], which an extraction at the end of the characters sets.  Once
    the flag is set nothing is extracted. *)
Record istream := mkStream { chars : list ascii; eofbit : bool }.

(** The [char] that the end-of-file value converts to. *)
Definition EOF : ascii := "255"%char.

Definition peek (s : istream) : ascii * istream :=
  if eofbit s then (EOF, s)
  else
    match chars s with
    | [] => (EOF, mkStream [] true)
    | chr :: _ => (chr, s)
    end.

Definition get (s : istream) : ascii * istream :=
  if eofbit s then (EOF, s)
  else
    match chars s with
    | [] => (EOF, mkStream [] true)
    | chr :: rest => (chr, mkStream rest false)
    end.

Record Tokenizer := mkTokenizer { token_ : option Token; in_ : istream }.

Definition IsEof (s : istream) : bool := eofbit s.

(** [while (!IsEof() && isspace(Peek())) Get();] on a stream whose flag is
    not set: the loop runs over the characters. *)
Fixpoint SkipWhitespace_loop (cs : list ascii) : istream :=
  match cs with
  | [] => mkStream [] true
  | chr :: rest =>
    if isspace chr then SkipWhitespace_loop rest else mkStream cs false
  end.

Definition SkipWhitespace (s : istream) : istream :=
  if IsEof s then s else SkipWhitespace_loop (chars s).

(** [IsEof() || !isdigit(Peek())]. *)
Definition sign_alone (s : istream) : bool * istream :=
  if IsEof s then (true, s)
  else let '(chr, s) := peek s in (negb (isdigit chr), s).

(** The loop of the digits, on a stream whose flag is not set. *)
Fixpoint digits_loop (value : Z) (chr : ascii) (cs : list ascii) :
  Z * istream :=
  let value := int_wrap (10 * value + (char_code chr - char_code "0")) in
  match cs with
  | [] => (value, mkStream [] true)
  | next :: rest =>
    if isdigit next then digits_loop value next rest
    else (value, mkStream cs false)
  end.

Definition digits (chr : ascii) (s : istream) : Z * istream :=
  if IsEof s then (int_wrap (10 * 0 + (char_code chr - char_code "0")), s)
  else digits_loop 0 chr (chars s).

Definition is_sign (chr : ascii) : bool :=
  Ascii.eqb chr "+" || Ascii.eqb chr "-".

Definition read_number (chr : ascii) (s : istream) : Token * istream :=
  let is_negative := is_sign chr && Ascii.eqb chr "-" in
  let '(chr, s) := if is_sign chr then get s else (chr, s) in
  let '(value, s) := digits chr s in
  (ConstantToken (if is_negative then int_wrap (- value) else value), s).

(** The loop of the characters of a name, on a stream whose flag is not
    set. *)
Fixpoint symbol_loop (name : string) (cs : list ascii) : string * istream :=
  match cs with
  | [] => (name, mkStream [] true)
  | chr :: rest =>
    if IsSymbol chr then symbol_loop (name ++ String chr "") rest
    else (name, mkStream cs false)
  end.

Definition read_symbol (chr : ascii) (s : istream) : Token * istream :=
  let '(name, s) :=
    if IsEof s then (String chr "", s)
    else symbol_loop (String chr "") (chars s) in
  (if String.eqb name "#f" then BooleanToken false
   else if String.eqb name "#t" then BooleanToken true
   else SymbolToken name, s).

(** [Tokenizer::Next]. *)
Definition Next (t : Tokenizer) : Outcome unit * Tokenizer :=
  let s := SkipWhitespace (in_ t) in
  if IsEof s then (Ret tt, mkTokenizer None s)
  else
    let '(chr, s) := get s in
    let deliver (r : Token * istream) :=
      (Ret tt, mkTokenizer (Some (fst r)) (snd r)) in
    if Ascii.eqb chr "(" then deliver (Bracket OPEN, s)
    else if Ascii.eqb chr ")" then deliver (Bracket CLOSE, s)
    else if Ascii.eqb chr "." then deliver (DotToken, s)
    else if Ascii.eqb chr "'" then deliver (QuoteToken, s)
    else if Ascii.eqb chr "/" then deliver (SymbolToken (String chr ""), s)
    else
      let '(alone, s) := if is_sign chr then sign_alone s else (false, s) in
      if alone then deliver (SymbolToken (String chr ""), s)
      else if isdigit chr || is_sign chr then deliver (read_number chr s)
      else if IsSymbolStart chr then deliver (read_symbol chr s)
      else
        (Throw (SyntaxError ("Tokenizer::Next(): invalid character code: "
                             ++ to_string (char_code chr))),
         mkTokenizer None s).

(** [Tokenizer::Tokenizer]. *)
Definition Tokenizer_new (s : istream) : Outcome unit * Tokenizer :=
  Next (mkTokenizer None s).

Definition IsEnd (t : Tokenizer) : bool :=
  match token_ t with
  | Some _ => false
  | None => true
  end.

(** The tokens that a tokenizer delivers to a reader that asks for them
    all: its token, then those of the calls of [Next], up to the call after
    which [IsEnd] holds. *)
Fixpoint delivered (fuel : nat) (t : Tokenizer) : Outcome (list Token) :=
  match fuel with
  | O => Timeout
  | S f =>
    match token_ t with
    | None => Ret []
    | Some token =>
      match Next t with
      | (Ret _, t') =>
        (tokens <-- delivered f t' ;; Ret (token :: tokens))%outcome
      | (Throw e, _) => Throw e
      | (Crash, _) => Crash
      | (Timeout, _) => Timeout
      end
    end
  end.

(** The tokens of a code: [Interpreter::Run] writes the code to a new stream
    and constructs the tokenizer on it. *)
Definition tokenize (fuel : nat) (code : string) : Outcome (list Token) :=
  match Tokenizer_new (mkStream (list_ascii_of_string code) false) with
  | (Ret _, t) => delivered fuel t
  | (Throw e, _) => Throw e
  | (Crash, _) => Crash
  | (Timeout, _) => Timeout
  end.

(** * Examples and vocabulary of the properties *)

(** ** Programs used as examples *)

(** The tokens of the brackets. *)
Definition LP : Token := Bracket OPEN.

Definition RP : Token := Bracket CLOSE.

(** [(define x (cons 1 2))]. *)
Definition code_define_pair : list Token :=
  [LP; SymbolToken "define"; SymbolToken "x";
   LP; SymbolToken "cons"; ConstantToken 1; ConstantToken 2; RP; RP].

(** [(set-cdr! x x)]. *)
Definition code_set_cdr_self : list Token :=
  [LP; SymbolToken "set-cdr!"; SymbolToken "x"; SymbolToken "x"; RP].

(** [(define p (cons 1 2))], [(set! p (cons 3 4))], [(set-car! p 5)] and
    [(set-cdr! p 6)], then [p]. *)
Definition code_binding_forms : list (list Token) :=
  [ [LP; SymbolToken "define"; SymbolToken "p";
     LP; SymbolToken "cons"; ConstantToken 1; ConstantToken 2; RP; RP];
    [LP; SymbolToken "set!"; SymbolToken "p";
     LP; SymbolToken "cons"; ConstantToken 3; ConstantToken 4; RP; RP];
    [LP; SymbolToken "set-car!"; SymbolToken "p"; ConstantToken 5; RP];
    [LP; SymbolToken "set-cdr!"; SymbolToken "p"; ConstantToken 6; RP];
    [SymbolToken "p"] ].



(** [((lambda (n) (lambda (x) (+ x n))) 5)]: the closure applied is held by
    the form under evaluation only, and is destroyed when [Eval] returns.  The
    frame of its call is scope 1, captured by the closure returned; its
    counter is 1. *)
Definition code_temporary_closure : list (list Token) :=
  [ [LP; LP; SymbolToken "lambda"; LP; SymbolToken "n"; RP;
     LP; SymbolToken "lambda"; LP; SymbolToken "x"; RP;
     LP; SymbolToken "+"; SymbolToken "x"; SymbolToken "n"; RP; RP; RP;
     ConstantToken 5; RP] ].

(** ** States used as examples *)

(** A single scope, without parent, with the given variables. *)
Definition frame_with (variables : gmap string Object) : State :=
  mkState [] [] [Some (mkScope None variables 1 1)].

(** The root scope binds [f]; the scope 1 is a frame whose parent is the root
    scope and binds nothing; the cell 0 is the list [(f)], the second element
    of the form [(define (f) 2)]. *)
Definition state_outer_binding : State :=
  mkState [mkCell (Symbol "f") nullptr] []
    [Some (mkScope None {[ "f" := Number 1 ]} 1 1);
     Some (mkScope (Some 0%nat) ∅ 1 1)].

(** ** Vocabulary of the statements *)

(** The names, each followed by a space. *)
Definition spaced (names : list string) : string :=
  fold_right (fun name rest => name ++ " " ++ rest) "" names.

(** Whether the cells reachable from an object form a tree of height at most
    [n]: the object is reached by no chain of fields from itself. *)
Fixpoint acyclic_within (n : nat) (st : State) (object : Object) : bool :=
  match object with
  | CellPtr c =>
    match n with
    | O => false
    | S m =>
      match cells st !! c with
      | Some cell =>
        acyclic_within m st (first_ cell) && acyclic_within m st (second_ cell)
      | None => false
      end
    end
  | _ => true
  end.

(** The two primitives [-] ([division = false]) and [/] ([division = true]):
    their name and the function they fold. *)
Definition arith_name (division : bool) : string :=
  if division then "/" else "-".

Definition arith_op (division : bool) :
  nat -> State -> Object -> Object -> Outcome Object :=
  if division then Divide else Subtract.

(** One step of the fold on [int64_t]. *)
Definition arith_step (division : bool) (a b : Z) : Z :=
  int64_wrap (if division then Z.quot a b else a - b).

(** The operands a step is defined on: a divisor is not zero, and the least
    [int64_t] is not divided by -1. *)
Definition arith_defined (division : bool) (a b : Z) : bool :=
  if division
  then negb (Z.eqb b 0) && negb (Z.eqb a (- 2 ^ 63) && Z.eqb b (-1))
  else true.

(** Every step of the fold from [a] over [bs] is defined. *)
Fixpoint fold_defined (division : bool) (a : Z) (bs : list Z) : bool :=
  match bs with
  | [] => true
  | b :: bs' =>
    arith_defined division a b
    && fold_defined division (arith_step division a b) bs'
  end.


(** The names of the forms that bind or assign. *)
Definition binding_names : list string :=
  ["define"; "set!"; "set-car!"; "set-cdr!"].

(** Every value the computation returns is [v0]. *)
Definition returns_only (m : M Object) (v0 : Object) : Prop :=
  forall st v st', m st = (Ret v, st') -> v = v0.

(** The scopes of two states have the same parents and bind the same names. *)
Definition same_frames (st st' : State) : Prop :=
  forall h,
    match get_scope st h, get_scope st' h with
    | Some sc, Some sc' =>
      parent_ sc = parent_ sc'
      /\ forall n, variables_ sc !! n = None <-> variables_ sc' !! n = None
    | None, None => True
    | _, _ => False
    end.

(** The frame [SetVariable] writes to: the one [FindVariable] found, the
    scope itself when it found none. *)
Definition written_frame (scope : nat) (target : option nat) : nat :=
  match target with
  | Some h => h
  | None => scope
  end.



(** ** Vocabulary of the further properties *)

(** The scopes of two states have the same parents and agree on whether they
    bind [name]. *)
Definition same_frames_for (name : string) (st st' : State) : Prop :=
  forall h,
    match get_scope st h, get_scope st' h with
    | Some sc, Some sc' =>
      parent_ sc = parent_ sc'
      /\ (variables_ sc !! name = None <-> variables_ sc' !! name = None)
    | None, None => True
    | _, _ => False
    end.

(** The scopes of [state_outer_binding]; the cell 3 is the form
    [(set! g 2)], and no scope binds [g]. *)
Definition state_set_unbound : State :=
  mkState
    [mkCell (Symbol "f") nullptr; mkCell (Number 2) nullptr;
     mkCell (Symbol "g") (CellPtr 1); mkCell (Symbol "set!") (CellPtr 2)]
    [] (scopes state_outer_binding).

(** A closure (0) that owns the frame 1, which binds [n] to 5 and has a
    counter of 1, and a frame 2 whose parent is the frame 1: the state in
    which the closure made by [(lambda (x) (+ x n))] in the call of
    [(lambda (n) ...)] is itself called. *)
Definition state_inner_call : State :=
  mkState []
    [mkLambda ["n"] (Some 0%nat) [] [1%nat];
     mkLambda ["x"] (Some 1%nat) [] [2%nat]]
    [Some (mkScope None ∅ 3 1);
     Some (mkScope (Some 0%nat) {[ "n" := Number 5 ]} 1 1);
     Some (mkScope (Some 1%nat) {[ "x" := Number 3 ]} 1 3)].

(** The sum and the product of integers. *)
Definition sum (ns : list Z) : Z := fold_right Z.add 0 ns.

Definition product (ns : list Z) : Z := fold_right Z.mul 1 ns.

(** Each element is related to the next one. *)
Fixpoint chain (R : Z -> Z -> bool) (n : Z) (ns : list Z) : bool :=
  match ns with
  | [] => true
  | m :: ms => R n m && chain R m ms
  end.

Definition adjacent (R : Z -> Z -> bool) (ns : list Z) : bool :=
  match ns with
  | [] => true
  | n :: ms => chain R n ms
  end.

(** The values of [int64_t]. *)
Definition int64 (z : Z) : Prop := - 2 ^ 63 <= z < 2 ^ 63.

(** The second state has the cells of the first one, then new ones, and the
    same closures and scopes. *)
Definition allocates (st st' : State) (n : nat) : Prop :=
  (exists new, cells st' = (cells st ++ new)%list /\ length new = n)
  /\ lambdas st' = lambdas st
  /\ scopes st' = scopes st.

(** The root scope binds [v] to the cell 0, the list [(7)]. *)
Definition state_list_variable : State :=
  mkState [mkCell (Number 7) nullptr] []
    [Some (mkScope None {[ "v" := CellPtr 0 ]} 1 1)].

(** The variables of a frame once the loop of [Lambda::Call] has bound the
    parameters to the arguments. *)
Fixpoint bound (arg_names : list string) (args : list Object)
  (variables : gmap string Object) : gmap string Object :=
  match arg_names, args with
  | name :: arg_names', arg :: args' =>
    bound arg_names' args' (std_map_insert name arg variables)
  | _, _ => variables
  end.

(** The frame of a call while the expressions of the closure are evaluated:
    the parameters are bound, the interpreter of the call holds the frame and
    has incremented its counter. *)
Definition frame_in_call (sc : Scope) (arg_names : list string)
  (args : list Object) : Scope :=
  mkScope (parent_ sc) (bound arg_names args (variables_ sc))
    (size_t_wrap (refs_ sc + 1)) (S (use_count sc)).

(** The frame once [Lambda::Call] is left: the counter is decremented, [n]
    owners are left. *)
Definition frame_after_call (sc : Scope) (n : nat) : Scope :=
  mkScope (parent_ sc) (variables_ sc) (size_t_wrap (refs_ sc - 1)) n.

(** The computation returned or threw. *)
Definition completes {A} (r : Outcome A) : bool :=
  match r with
  | Ret _ | Throw _ => true
  | Crash | Timeout => false
  end.

(** A closure of one parameter [x] and body [x] that captured the scope 0,
    and the frame 1 of a call of it, registered in [local_scopes_]. *)
Definition state_in_call : State :=
  mkState []
    [mkLambda ["x"] (Some 0%nat) [Symbol "x"] [1%nat]]
    [Some (mkScope None ∅ 2 1);
     Some (mkScope (Some 0%nat) ∅ 0 2)].

(** ** Data

    The trees of pairs over numbers, booleans, symbols and the empty list:
    the values the reader builds. *)

Inductive Datum :=
| DNil
| DNumber (value : Z)
| DBoolean (value : bool)
| DSymbol (name : string)
| DPair (first second : Datum).

Global Instance Datum_eq_dec : EqDecision Datum.
Proof. solve_decision. Defined.

(** The object is, in the heap, the datum. *)
Fixpoint denotes (st : State) (object : Object) (d : Datum) : Prop :=
  match d with
  | DNil => object = nullptr
  | DNumber value => object = Number value
  | DBoolean value => object = Boolean value
  | DSymbol name => object = Symbol name
  | DPair first second =>
    exists c cell,
      object = CellPtr c /\ cells st !! c = Some cell
      /\ denotes st (first_ cell) first /\ denotes st (second_ cell) second
  end.

(** The tokens of a datum: a chain of pairs is written as a list, with a dot
    before its last element when that is not the empty list.  [tail_tokens]
    are the tokens of what follows the first element of a list, up to the
    closing bracket. *)
Fixpoint tokens_of (d : Datum) : list Token :=
  match d with
  | DNil => [LP; RP]
  | DNumber value => [ConstantToken value]
  | DBoolean value => [BooleanToken value]
  | DSymbol name => [SymbolToken name]
  | DPair first second => LP :: tokens_of first ++ tail_tokens second ++ [RP]
  end
with tail_tokens (d : Datum) : list Token :=
  match d with
  | DNil => []
  | DNumber value => [DotToken; ConstantToken value]
  | DBoolean value => [DotToken; BooleanToken value]
  | DSymbol name => [DotToken; SymbolToken name]
  | DPair first second => tokens_of first ++ tail_tokens second
  end.

(** The text of a datum. *)
Fixpoint render (d : Datum) : string :=
  match d with
  | DNil => "()"
  | DNumber value => to_string value
  | DBoolean value => Boolean_ToString value
  | DSymbol name => name
  | DPair first second => "(" ++ render first ++ render_tail second
  end
with render_tail (d : Datum) : string :=
  match d with
  | DNil => ")"
  | DNumber value => " . " ++ to_string value ++ ")"
  | DBoolean value => " . " ++ Boolean_ToString value ++ ")"
  | DSymbol name => " . " ++ name ++ ")"
  | DPair first second => " " ++ render first ++ render_tail second
  end.

(** A bound on the depth of the recursion of the reader, of [ToString] and
    of [Equal] on a datum. *)
Fixpoint weight (d : Datum) : nat :=
  match d with
  | DPair first second => 2 + weight first + weight second
  | _ => 2
  end.

(** The second state has the cells of the first one, then new ones, and the
    same closures and scopes. *)
Definition extends (st st' : State) : Prop := exists n, allocates st st' n.

(** A list of objects and a last object are the elements and the end of a
    chain of pairs. *)
Fixpoint spine (st : State) (elements : list Object) (result : Object)
  (d : Datum) : Prop :=
  match elements with
  | [] => denotes st result d
  | element :: rest =>
    match d with
    | DPair first second =>
      denotes st element first /\ spine st rest result second
    | _ => False
    end
  end.

(** [(quote d)]. *)
Definition quoted (d : Datum) : Datum :=
  DPair (DSymbol "quote") (DPair d DNil).

(** The loop stops at the end of the tokens or at a closing bracket. *)
Definition stops (after : list Token) : Prop :=
  after = [] \/ exists rest, after = RP :: rest.

(** ** The text of tokens *)

(** The characters that can begin a token. *)
Definition starts_token (chr : ascii) : bool :=
  one_of chr "().'/+-" || isdigit chr || IsSymbolStart chr.

Definition token_text (token : Token) : string :=
  match token with
  | ConstantToken value => to_string value
  | Bracket OPEN => "("
  | Bracket CLOSE => ")"
  | BooleanToken value => Boolean_ToString value
  | SymbolToken name => name
  | QuoteToken => "'"
  | DotToken => "."
  end.

(** The names the tokenizer delivers as symbols: a sign or a slash alone, or
    a character of [IsSymbolStart] followed by characters of [IsSymbol],
    the texts of the booleans apart. *)
Definition symbol_name (name : string) : bool :=
  match name with
  | EmptyString => false
  | String chr rest =>
    one_of chr "+-/" && String.eqb rest ""
    || IsSymbolStart chr && forallb IsSymbol (list_ascii_of_string rest)
       && negb (String.eqb name "#f") && negb (String.eqb name "#t")
  end.

(** The tokens the tokenizer can deliver: the constants are those of an
    [int] whose opposite is an [int]. *)
Definition scannable (token : Token) : bool :=
  match token with
  | ConstantToken value => Z.ltb (- 2 ^ 31) value && Z.ltb value (2 ^ 31)
  | SymbolToken name => symbol_name name
  | _ => true
  end.

(** The texts of the tokens, each followed by a space. *)
Fixpoint text (tokens : list Token) : string :=
  match tokens with
  | [] => ""
  | token :: rest => token_text token ++ " " ++ text rest
  end.

(** The number that the digits after [value] make. *)
Fixpoint digits_value (value : Z) (d : Decimal.uint) : Z :=
  match d with
  | Decimal.Nil => value
  | Decimal.D0 l => digits_value (10 * value + 0) l
  | Decimal.D1 l => digits_value (10 * value + 1) l
  | Decimal.D2 l => digits_value (10 * value + 2) l
  | Decimal.D3 l => digits_value (10 * value + 3) l
  | Decimal.D4 l => digits_value (10 * value + 4) l
  | Decimal.D5 l => digits_value (10 * value + 5) l
  | Decimal.D6 l => digits_value (10 * value + 6) l
  | Decimal.D7 l => digits_value (10 * value + 7) l
  | Decimal.D8 l => digits_value (10 * value + 8) l
  | Decimal.D9 l => digits_value (10 * value + 9) l
  end.

(** What the tokenizer tests on a digit. *)
Definition digit_char (chr : ascii) (k : Z) : Prop :=
  isdigit chr = true /\ char_code chr - char_code "0" = k /\ 0 <= k <= 9
  /\ isspace chr = false /\ is_sign chr = false
  /\ Ascii.eqb chr "(" = false /\ Ascii.eqb chr ")" = false
  /\ Ascii.eqb chr "." = false /\ Ascii.eqb chr "'" = false
  /\ Ascii.eqb chr "/" = false.

(** What the tokenizer tests on the first character of a name. *)
Definition name_char (chr : ascii) : Prop :=
  IsSymbolStart chr = true /\ isdigit chr = false
  /\ isspace chr = false /\ is_sign chr = false
  /\ Ascii.eqb chr "(" = false /\ Ascii.eqb chr ")" = false
  /\ Ascii.eqb chr "." = false /\ Ascii.eqb chr "'" = false
  /\ Ascii.eqb chr "/" = false.

(** ** Values that hold no closure *)

(** The object is data: a tree of pairs over numbers, booleans, symbols and
    the empty list.  The release of such a value destroys no closure and no
    scope. *)
Definition is_data (st : State) (object : Object) : Prop :=
  exists d, denotes st object d.

(** The value that an assignment to [name] from [scope] replaces, if there
    is one, is data. *)
Definition replaces_data (fuel : nat) (st : State) (scope : nat)
  (name : string) : Prop :=
  forall h old,
    FindVariable fuel st scope name = Ret (Some h) ->
    slot_value st h name = Some old ->
    is_data st old.



(** The scopes of [state_outer_binding]; the cell 2 is the form
    [(set! f 2)], and the root scope binds [f] to 1. *)
Definition state_set_bound : State :=
  mkState
    [mkCell (Number 2) nullptr; mkCell (Symbol "f") (CellPtr 0);
     mkCell (Symbol "set!") (CellPtr 1)]
    [] (scopes state_outer_binding).

(** The root scope binds [f] to the closure 0, of one parameter [x] and
    body [x]; the cell 1 is the form [(f 5)]. *)
Definition state_apply_closure : State :=
  mkState
    [mkCell (Number 5) nullptr; mkCell (Symbol "f") (CellPtr 0)]
    [mkLambda ["x"] (Some 0%nat) [Symbol "x"] []]
    [Some (mkScope None {[ "f" := LambdaPtr 0 ]} 2 1)].

(** * Properties *)

(** ** The monad *)

Lemma bind_Ret {A B} (m : M A) (k : A -> M B) st a st' :
  m st = (Ret a, st') -> bind m k st = k a st'.
Proof. intros H. unfold bind. now rewrite H. Qed.

Lemma bind_Throw {A B} (m : M A) (k : A -> M B) st e st' :
  m st = (Throw e, st') -> bind m k st = (Throw e, st').
Proof. intros H. unfold bind. now rewrite H. Qed.

Lemma bind_Ret_inv {A B} (m : M A) (k : A -> M B) st b st' :
  bind m k st = (Ret b, st') ->
  exists a st1, m st = (Ret a, st1) /\ k a st1 = (Ret b, st').
Proof.
  unfold bind. destruct (m st) as [[a | e | | ] st1]; intros H; try discriminate.
  exists a, st1. auto.
Qed.

(** ** Strings *)

Lemma append_cons (a : ascii) (s t : string) :
  String a s ++ t = String a (s ++ t).
Proof. reflexivity. Qed.

Lemma append_assoc (s1 s2 s3 : string) : (s1 ++ s2) ++ s3 = s1 ++ s2 ++ s3.
Proof.
  induction s1 as [| a s1 IH]; [reflexivity |].
  rewrite !append_cons. now f_equal.
Qed.

Lemma append_empty_r (s : string) : s ++ "" = s.
Proof.
  induction s as [| a s IH]; [reflexivity |].
  rewrite append_cons. now f_equal.
Qed.

Lemma list_ascii_of_string_app (s1 s2 : string) :
  list_ascii_of_string (s1 ++ s2)
  = (list_ascii_of_string s1 ++ list_ascii_of_string s2)%list.
Proof. induction s1 as [| a s1 IH]; simpl; [reflexivity | now f_equal]. Qed.

Lemma string_of_list_ascii_app (l1 l2 : list ascii) :
  string_of_list_ascii (l1 ++ l2)
  = string_of_list_ascii l1 ++ string_of_list_ascii l2.
Proof.
  induction l1 as [| a l1 IH]; [reflexivity |].
  cbn [app string_of_list_ascii]. rewrite append_cons. now f_equal.
Qed.

Lemma replace_back_space (s : string) (c : ascii) :
  replace_back (s ++ " ") c = s ++ String c "".
Proof.
  unfold replace_back. rewrite list_ascii_of_string_app. cbn [list_ascii_of_string].
  rewrite rev_app_distr. cbn [rev app].
  rewrite rev_involutive, string_of_list_ascii_app.
  now rewrite string_of_list_ascii_of_string.
Qed.



(** ** Rendering of closures *)

Lemma Lambda_header_nil : Lambda_header [] = "(lambda )".
Proof. reflexivity. Qed.

Lemma fold_left_spaced (names : list string) : forall result,
  fold_left (fun result name => result ++ name ++ " ") names result
  = result ++ spaced names.
Proof.
  induction names as [| name names IH]; intros result; cbn [fold_left spaced fold_right].
  - now rewrite append_empty_r.
  - rewrite IH. now rewrite !append_assoc.
Qed.

(** With at least one parameter, the parameter list is rendered between its
    own brackets. *)
Lemma Lambda_header_parameters (names : list string) (last : string) :
  Lambda_header (names ++ [last]) = "(lambda (" ++ spaced names ++ last ++ ")".
Proof.
  unfold Lambda_header. rewrite fold_left_app. cbn [fold_left].
  rewrite fold_left_spaced.
  rewrite <- (append_assoc _ last " "), replace_back_space.
  now rewrite !append_assoc.
Qed.

(** C8.  [Lambda::ToString] on a closure without parameters: the closing
    bracket of the parameter list overwrites its opening bracket, and the
    rendering of [(lambda () 1)] is [(lambda ) 1)], whose brackets do not
    match. *)
Theorem Lambda_ToString_no_parameters :
  fst (session 20
         [[LP; SymbolToken "lambda"; LP; RP; ConstantToken 1; RP]]
         empty_State)
  = Ret ["(lambda ) 1)"]
  /\ forall scope frames cs ls ss,
       ToString 3
         (mkState cs (ls ++ [mkLambda [] scope [Number 1] frames]) ss)
         (LambdaPtr (length ls))
       = Ret "(lambda ) 1)".
Proof.
  split; [vm_compute; reflexivity |].
  intros scope frames cs ls ss.
  cbn [ToString lambdas].
  rewrite lookup_app_r by lia.
  replace (length ls - length ls)%nat with 0%nat by lia.
  reflexivity.
Qed.

(** ** Evaluation of the empty list and of a closure *)

Lemma cannot_evaluate_throws {A} fuel st object s :
  ToString fuel st object = Ret s ->
  @cannot_evaluate A fuel object st
  = (Throw (RuntimeError ("Cannot evaluate: " ++ s)), st).
Proof.
  intros H. unfold cannot_evaluate, bind, read, throw. now rewrite H.
Qed.

Lemma cannot_evaluate_no_value {A} fuel st object (v : A) st' :
  @cannot_evaluate A fuel object st <> (Ret v, st').
Proof.
  unfold cannot_evaluate, bind, read, throw.
  destruct (ToString fuel st object); discriminate.
Qed.

(** C3, counterexample.  [Run] on the code [()]: the reader returns the empty
    list and [Eval] throws; no amount of fuel makes [Eval] return it. *)
Lemma Eval_empty_list_throws :
  fst (session 20 [[LP; RP]] empty_State)
  = Throw (RuntimeError "Cannot evaluate: ()")
  /\ ~ exists fuel st',
         Eval fuel 0 nullptr (snd (Interpreter_new empty_State))
         = (Ret nullptr, st').
Proof.
  split; [vm_compute; reflexivity |].
  intros (fuel & st' & H).
  destruct fuel as [| fuel]; [discriminate |].
  cbn [Eval Eval_step] in H.
  now apply cannot_evaluate_no_value in H.
Qed.

(** C3, as the code has it.  [Eval] of an object that is not a [Number], a
    [Boolean], a [Symbol] or a [Cell] (the empty list, a closure) never
    returns a value, and throws the [RuntimeError] "Cannot evaluate" as soon
    as the fuel suffices to render the object. *)
Theorem Eval_other_objects_throw :
  forall scope st object,
    is_Number object = false -> is_Boolean object = false ->
    is_Symbol object = false -> is_Cell object = false ->
    (forall fuel v st', Eval fuel scope object st <> (Ret v, st')) /\
    (forall fuel s,
        ToString fuel st object = Ret s ->
        Eval (S fuel) scope object st
        = (Throw (RuntimeError ("Cannot evaluate: " ++ s)), st)).
Proof.
  intros scope st object HN HB HS HC. split.
  - intros [| fuel] v st'; [discriminate |].
    destruct object; try discriminate; cbn [Eval Eval_step];
      apply cannot_evaluate_no_value.
  - intros fuel s Hs.
    destruct object; try discriminate; cbn [Eval Eval_step];
      now apply cannot_evaluate_throws.
Qed.

Lemma Eval_other_objects_throw_witness :
  Eval 2 0 nullptr empty_State
  = (Throw (RuntimeError "Cannot evaluate: ()"), empty_State).
Proof.
  apply (proj2 (Eval_other_objects_throw 0%nat empty_State nullptr
                  eq_refl eq_refl eq_refl eq_refl) 1%nat "()").
  reflexivity.
Defined.

(** ** Equality *)

Lemma Equal_atom fuel st object :
  is_Cell object = false -> Equal (S fuel) st object object = Ret true.
Proof.
  destruct object; cbn; intros H; try discriminate; f_equal.
  - apply Z.eqb_refl.
  - now destruct value_.
  - apply String.eqb_refl.
  - apply Nat.eqb_refl.
Qed.

(** A cell whose second field is the cell itself, as [set-cdr!] builds it. *)
Lemma Equal_self_cdr st c value :
  cells st !! c = Some (mkCell (Number value) (CellPtr c)) ->
  forall fuel, Equal fuel st (CellPtr c) (CellPtr c) = Timeout.
Proof.
  intros Hc fuel. induction fuel as [| fuel IH]; [reflexivity |].
  cbn [Equal]. rewrite Hc. cbn [first_ second_].
  destruct fuel as [| fuel]; [reflexivity |].
  rewrite Equal_atom by reflexivity. cbn [obind]. exact IH.
Qed.

(** C5, counterexample.  After [(define x (cons 1 2))] and [(set-cdr! x x)]
    the variable [x] holds a pair that is its own second field, and
    [Equal(x, x)] returns for no amount of fuel: there is no check of
    identity before the recursion on the fields. *)
Lemma Equal_cyclic_pair_no_result :
  let st := snd (session 20 [code_define_pair; code_set_cdr_self] empty_State)
  in
  fst (session 20 [code_define_pair; code_set_cdr_self] empty_State)
  = Ret ["()"; "()"]
  /\ slot_value st 0 "x" = Some (CellPtr 6)
  /\ ~ exists fuel b, Equal fuel st (CellPtr 6) (CellPtr 6) = Ret b.
Proof.
  cbv zeta. split; [vm_compute; reflexivity |].
  split; [vm_compute; reflexivity |].
  intros (fuel & b & H).
  rewrite (Equal_self_cdr _ 6%nat 1) in H; [discriminate |].
  vm_compute. reflexivity.
Qed.

(** C5, as the code has it.  On an object from which no pair is reached again
    through its own fields, [Equal(x, x)] returns true with any fuel above
    the height of the object. *)
Theorem Equal_reflexive_acyclic :
  forall n st x fuel,
    acyclic_within n st x = true ->
    (n < fuel)%nat ->
    Equal fuel st x x = Ret true.
Proof.
  induction n as [| n IH]; intros st x fuel Hx Hfuel.
  - destruct fuel as [| fuel]; [lia |].
    destruct x; try discriminate; now apply Equal_atom.
  - destruct fuel as [| fuel]; [lia |].
    destruct x; try (now apply Equal_atom).
    cbn [acyclic_within] in Hx. cbn [Equal].
    destruct (cells st !! addr) as [cell |] eqn:Hc; [| discriminate].
    apply andb_prop in Hx as [H1 H2].
    rewrite (IH st (first_ cell) fuel H1) by lia. cbn [obind].
    apply IH; [exact H2 | lia].
Qed.

Lemma Equal_reflexive_acyclic_witness :
  let st := snd (session 20 [code_define_pair] empty_State) in
  Equal 2 st (CellPtr 6) (CellPtr 6) = Ret true.
Proof.
  cbv zeta.
  apply (Equal_reflexive_acyclic 1
           (snd (session 20 [code_define_pair] empty_State)) (CellPtr 6) 2).
  - vm_compute. reflexivity.
  - lia.
Defined.

(** ** Local definition *)

Lemma SetLocalVariable_present st h sc name old value :
  get_scope st h = Some sc ->
  variables_ sc !! name = Some old ->
  exists st', SetLocalVariable h name value st = (Ret tt, st')
              /\ slot_value st' h name = Some old.
Proof.
  intros Hsc Hold. unfold SetLocalVariable, with_scope, modify.
  rewrite Hsc. eexists. split; [reflexivity |].
  unfold slot_value, get_scope, put_scope. cbn [scopes].
  unfold get_scope in Hsc.
  destruct (scopes st !! h) as [[sc' |] |] eqn:Hh; try discriminate.
  rewrite list_lookup_insert_eq by (eapply lookup_lt_Some; eauto).
  cbn. unfold std_map_insert. now rewrite Hold.
Qed.

Lemma SetLocalVariable_absent st h sc name value :
  get_scope st h = Some sc ->
  variables_ sc !! name = None ->
  exists st', SetLocalVariable h name value st = (Ret tt, st')
              /\ slot_value st' h name = Some value.
Proof.
  intros Hsc Hnone. unfold SetLocalVariable, with_scope, modify.
  rewrite Hsc. eexists. split; [reflexivity |].
  unfold slot_value, get_scope, put_scope. cbn [scopes].
  unfold get_scope in Hsc.
  destruct (scopes st !! h) as [[sc' |] |] eqn:Hh; try discriminate.
  rewrite list_lookup_insert_eq by (eapply lookup_lt_Some; eauto).
  cbn. unfold std_map_insert. rewrite Hnone. apply lookup_insert_eq.
Qed.

(** C4.  [SetLocalVariable] on a name the frame already binds: the frame
    binds [x] to 1, [SetLocalVariable("x", 2)] returns, and [x] is still 1.
    The parameters of a closure are bound by [SetLocalVariable]: in
    [((lambda (x x) x) 1 2)] the first argument stays. *)
Theorem SetLocalVariable_keeps_old_value :
  (exists st',
      SetLocalVariable 0 "x" (Number 2) (frame_with {[ "x" := Number 1 ]})
      = (Ret tt, st')
      /\ slot_value st' 0 "x" = Some (Number 1))
  /\ fst (session 20
            [[LP; LP; SymbolToken "lambda";
              LP; SymbolToken "x"; SymbolToken "x"; RP; SymbolToken "x"; RP;
              ConstantToken 1; ConstantToken 2; RP]]
            empty_State)
     = Ret ["1"].
Proof.
  split.
  - eapply SetLocalVariable_present; [reflexivity |].
    cbn. apply lookup_singleton_eq.
  - vm_compute. reflexivity.
Qed.

(** ** Dispatch of a form to its command *)

Lemma UnfoldList_loop_atom fuel st result object l :
  is_Cell object = false -> object <> nullptr ->
  UnfoldList_loop fuel st result object <> Ret l.
Proof.
  intros HC HN H. destruct fuel as [| fuel]; [discriminate |].
  destruct object; try discriminate; try congruence; cbn [UnfoldList_loop] in H;
    destruct (ToString fuel st _); discriminate.
Qed.

Lemma UnfoldList_cons_cell fuel st object x l :
  UnfoldList fuel st object = Ret (x :: l) -> exists c, object = CellPtr c.
Proof.
  intros H. destruct object as [| | | | c |]; eauto; exfalso.
  - destruct fuel; discriminate.
  - now apply UnfoldList_loop_atom in H.
  - now apply UnfoldList_loop_atom in H.
  - now apply UnfoldList_loop_atom in H.
  - now apply UnfoldList_loop_atom in H.
Qed.

(** [Ev] stands for the recursive calls of [Interpreter::Eval]: with
    [Ev := Eval fuel] the left-hand side is [Eval (S fuel) scope object st]. *)
Lemma Eval_step_command fuel Ev scope st object name es cmd :
  UnfoldList fuel st object = Ret (Symbol name :: es) ->
  commands_ name = Some cmd ->
  Eval_step fuel Ev scope object st = cmd fuel Ev scope (Symbol name :: es) st.
Proof.
  intros HU Hcmd.
  destruct (UnfoldList_cons_cell _ _ _ _ _ HU) as [c ->].
  unfold Eval_step, bind, read. rewrite HU, Hcmd. reflexivity.
Qed.


Lemma eval_args_cons Ev command es st vs st' :
  eval_each Ev es st = (Ret vs, st') ->
  eval_args Ev (command :: es) st = (Ret (command :: vs), st').
Proof. intros H. unfold eval_args. now rewrite (bind_Ret _ _ _ _ _ H). Qed.

(** ** Division by zero *)

(** C9.  The form [(/ n 0)], for any number [n]: with any fuel from 6 on,
    [Eval] throws the [RuntimeError] of [Divide] and leaves the state as it
    is; no value is returned. *)
Theorem Eval_divide_by_zero :
  forall fuel scope st c c1 c2 n,
    cells st !! c = Some (mkCell (Symbol "/") (CellPtr c1)) ->
    cells st !! c1 = Some (mkCell (Number n) (CellPtr c2)) ->
    cells st !! c2 = Some (mkCell (Number 0) nullptr) ->
    (6 <= fuel)%nat ->
    Eval fuel scope (CellPtr c) st
    = (Throw (RuntimeError ("Cannot divide: " ++ to_string n ++ " and 0")), st).
Proof.
  intros fuel scope st c c1 c2 n Hc Hc1 Hc2 Hfuel.
  do 6 (destruct fuel as [| fuel]; [lia |]).
  assert (HU : UnfoldList (S (S (S (S (S fuel))))) st (CellPtr c)
               = Ret [Symbol "/"; Number n; Number 0]).
  { unfold UnfoldList. cbn [UnfoldList_loop].
    rewrite Hc. cbn [first_ second_]. rewrite Hc1. cbn [first_ second_].
    rewrite Hc2. reflexivity. }
  cbn [Eval].
  rewrite (Eval_step_command _ _ _ _ _ _ _ cmd_divide HU) by reflexivity.
  unfold cmd_divide.
  erewrite bind_Ret; [| apply eval_args_cons; reflexivity].
  reflexivity.
Qed.

Lemma Eval_divide_by_zero_witness :
  let st := snd (Read 20 [LP; SymbolToken "/"; ConstantToken 7;
                          ConstantToken 0; RP]
                   (snd (Interpreter_new empty_State))) in
  Eval 6 0 (CellPtr 2) st
  = (Throw (RuntimeError "Cannot divide: 7 and 0"), st).
Proof.
  cbv zeta.
  apply (Eval_divide_by_zero 6 0%nat
           (snd (Read 20 [LP; SymbolToken "/"; ConstantToken 7;
                          ConstantToken 0; RP]
                   (snd (Interpreter_new empty_State))))
           2%nat 1%nat 0%nat 7).
  - vm_compute. reflexivity.
  - vm_compute. reflexivity.
  - vm_compute. reflexivity.
  - lia.
Defined.

(** ** Subtraction and division *)

Lemma fold_args_numbers division fuel st n ns :
  fold_defined division n ns = true ->
  fold_args (arith_op division fuel st) (Number n) (map Number ns)
  = Ret (Number (fold_left (arith_step division) ns n)).
Proof.
  revert n. induction ns as [| d ns IH]; intros n H; [reflexivity |].
  cbn [fold_defined] in H. apply andb_prop in H as [Hd Hns].
  cbn [map fold_args fold_left].
  destruct division; cbn [arith_defined arith_op] in Hd |- *.
  - apply andb_prop in Hd as [Hzero Htrap].
    apply negb_true_iff in Hzero, Htrap.
    cbn [Divide]. rewrite Hzero, Htrap. cbn [obind]. now apply (IH _ Hns).
  - now apply (IH _ Hns).
Qed.

Lemma commands_arith division :
  commands_ (arith_name division)
  = Some (if division then cmd_divide else cmd_subtract).
Proof. now destruct division. Qed.

Lemma cmd_arith_unfold (division : bool) fuel Ev scope args st :
  (if division then cmd_divide else cmd_subtract) fuel Ev scope args st
  = @bind (list Object) Object (eval_args (Ev scope) args)
      (fun args' =>
         match args' with
         | _ :: first :: rest =>
           read (fun st => fold_args (arith_op division fuel st) first rest)
         | _ => FailEvaluation fuel args'
         end) st.
Proof. now destruct division. Qed.

(** C7, counterexample.  [(- 5)] and [(/ 5)] return their argument. *)
Lemma subtract_one_argument_returns :
  fst (session 20 [[LP; SymbolToken "-"; ConstantToken 5; RP]] empty_State)
  = Ret ["5"]
  /\ fst (session 20 [[LP; SymbolToken "/"; ConstantToken 5; RP]] empty_State)
     = Ret ["5"].
Proof. split; vm_compute; reflexivity. Qed.

(** C7, as the code has it.  For [-] ([division = false]) and [/]
    ([division = true]): the form without argument throws the [RuntimeError]
    of [FailEvaluation]; with one argument the value of the argument is
    returned as it is; with arguments whose values are numbers, the first is
    the accumulator and the others are folded into it from left to right
    (for [/], when no divisor is zero and no step divides the least
    [int64_t] by -1); the division of the least [int64_t] by -1 has no
    result.  [Ev] stands for the recursive calls of [Eval]. *)
Theorem subtract_divide_arguments :
  forall division fuel Ev scope st object es,
    UnfoldList (S fuel) st object = Ret (Symbol (arith_name division) :: es) ->
    (es = [] ->
     Eval_step (S fuel) Ev scope object st
     = (Throw (RuntimeError
                 ("Failed to evaluate: ( " ++ arith_name division ++ ")")),
        st))
    /\ (forall e v st',
           es = [e] -> Ev scope e st = (Ret v, st') ->
           Eval_step (S fuel) Ev scope object st = (Ret v, st'))
    /\ (forall n ns st',
           eval_each (Ev scope) es st = (Ret (map Number (n :: ns)), st') ->
           fold_defined division n ns = true ->
           Eval_step (S fuel) Ev scope object st
           = (Ret (Number (fold_left (arith_step division) ns n)), st'))
    /\ (forall st',
           division = true ->
           eval_each (Ev scope) es st
           = (Ret [Number (- 2 ^ 63); Number (-1)], st') ->
           Eval_step (S fuel) Ev scope object st = (Crash, st')).
Proof.
  intros division fuel Ev scope st object es HU.
  rewrite (Eval_step_command _ _ _ _ _ _ _ _ HU (commands_arith division)).
  rewrite cmd_arith_unfold.
  split; [| split; [| split]].
  4:{ intros st' -> Hes.
      erewrite bind_Ret by (apply eval_args_cons; exact Hes).
      reflexivity. }
  - intros ->. now destruct division.
  - intros e v st' -> He.
    erewrite bind_Ret.
    2:{ apply eval_args_cons. cbn [eval_each].
        erewrite bind_Ret by exact He. reflexivity. }
    reflexivity.
  - intros n ns st' Hes Hns.
    erewrite bind_Ret by (apply eval_args_cons; exact Hes).
    cbn [map]. unfold read. now rewrite fold_args_numbers.
Qed.

Lemma subtract_divide_arguments_witness :
  (let st := snd (Read 20 [LP; SymbolToken "-"; ConstantToken 5; RP]
                   (snd (Interpreter_new empty_State))) in
   Eval 6 0 (CellPtr 1) st = (Ret (Number 5), st))
  /\ (let st := snd (Read 20 [LP; SymbolToken "/"; ConstantToken (-7);
                              ConstantToken 2; RP]
                       (snd (Interpreter_new empty_State))) in
      Eval 6 0 (CellPtr 2) st = (Ret (Number (-3)), st)).
Proof.
  cbv zeta. split.
  - refine (proj1 (proj2
              (subtract_divide_arguments false 4 (Eval 5) 0%nat
                 (snd (Read 20 [LP; SymbolToken "-"; ConstantToken 5; RP]
                         (snd (Interpreter_new empty_State))))
                 (CellPtr 1) [Number 5] _))
              (Number 5) (Number 5) _ eq_refl eq_refl).
    vm_compute. reflexivity.
  - refine (proj1 (proj2 (proj2
              (subtract_divide_arguments true 4 (Eval 5) 0%nat
                 (snd (Read 20 [LP; SymbolToken "/"; ConstantToken (-7);
                                ConstantToken 2; RP]
                         (snd (Interpreter_new empty_State))))
                 (CellPtr 2) [Number (-7); Number 2] _)))
              (-7) [2] _ _ _).
    + vm_compute. reflexivity.
    + vm_compute. reflexivity.
    + vm_compute. reflexivity.
Defined.

(** ** Ordering comparisons *)

Lemma eval_each_cons_inv Ev e es st vs st' :
  eval_each Ev (e :: es) st = (Ret vs, st') ->
  exists v vs' st1,
    Ev e st = (Ret v, st1) /\ eval_each Ev es st1 = (Ret vs', st')
    /\ vs = v :: vs'.
Proof.
  cbn [eval_each]. intros H.
  apply bind_Ret_inv in H as (v & st1 & Hv & H).
  apply bind_Ret_inv in H as (vs' & st2 & Hvs & H).
  unfold ret in H. injection H as <- <-. eauto 6.
Qed.






(** ** The result of the forms that bind and assign *)

Lemma returns_only_ret v0 : returns_only (ret v0) v0.
Proof. intros st v st' H. unfold ret in H. congruence. Qed.

Lemma returns_only_throw e v0 : returns_only (throw e) v0.
Proof. intros st v st' H. discriminate. Qed.

Lemma returns_only_crash v0 : returns_only crash v0.
Proof. intros st v st' H. discriminate. Qed.

Lemma returns_only_bind {A} (m : M A) (k : A -> M Object) v0 :
  (forall a, returns_only (k a) v0) -> returns_only (bind m k) v0.
Proof.
  intros Hk st v st' H.
  apply bind_Ret_inv in H as (a & st1 & _ & H). eapply Hk, H.
Qed.

Create HintDb returns discriminated.

#[local] Hint Resolve returns_only_ret returns_only_throw returns_only_crash :
  returns.

Ltac returns_only_step :=
  first
    [ solve [auto with returns]
    | apply returns_only_bind; intros
    | match goal with
      | |- returns_only (match ?x with _ => _ end) _ => destruct x
      end ].

Lemma cmd_define_returns_nullptr fuel Ev scope args :
  returns_only (cmd_define fuel Ev scope args) nullptr.
Proof. unfold cmd_define. repeat returns_only_step. Qed.

Lemma cmd_set_returns_nullptr fuel Ev scope args :
  returns_only (cmd_set fuel Ev scope args) nullptr.
Proof. unfold cmd_set. repeat returns_only_step. Qed.

Lemma cmd_set_car_returns_nullptr fuel Ev scope args :
  returns_only (cmd_set_car fuel Ev scope args) nullptr.
Proof. unfold cmd_set_car. repeat returns_only_step. Qed.

Lemma cmd_set_cdr_returns_nullptr fuel Ev scope args :
  returns_only (cmd_set_cdr fuel Ev scope args) nullptr.
Proof. unfold cmd_set_cdr. repeat returns_only_step. Qed.

Example binding_forms_return :
  fst (session 20 code_binding_forms empty_State)
  = Ret ["()"; "()"; "()"; "()"; "(5 . 6)"].
Proof. vm_compute. reflexivity. Qed.

(** C10.  A form [define], [set!], [set-car!] or [set-cdr!] whose evaluation
    returns, returns the empty list, rendered [()], whatever value was bound
    or stored.  [Ev] stands for the recursive calls of [Eval]. *)
Theorem binding_forms_return_empty_list :
  forall fuel Ev scope st object name es v st',
    In name binding_names ->
    UnfoldList fuel st object = Ret (Symbol name :: es) ->
    Eval_step fuel Ev scope object st = (Ret v, st') ->
    v = nullptr /\ forall f, ToString (S f) st' v = Ret "()".
Proof.
  intros fuel Ev scope st object name es v st' Hname HU HE.
  assert (Hv : v = nullptr).
  { destruct Hname as [<- | [<- | [<- | [<- | []]]]].
    - rewrite (Eval_step_command _ _ _ _ _ _ _ cmd_define HU eq_refl) in HE.
      eapply cmd_define_returns_nullptr, HE.
    - rewrite (Eval_step_command _ _ _ _ _ _ _ cmd_set HU eq_refl) in HE.
      eapply cmd_set_returns_nullptr, HE.
    - rewrite (Eval_step_command _ _ _ _ _ _ _ cmd_set_car HU eq_refl) in HE.
      eapply cmd_set_car_returns_nullptr, HE.
    - rewrite (Eval_step_command _ _ _ _ _ _ _ cmd_set_cdr HU eq_refl) in HE.
      eapply cmd_set_cdr_returns_nullptr, HE. }
  subst v. split; reflexivity.
Qed.

Lemma binding_forms_return_empty_list_witness :
  let st := snd (Read 20 [LP; SymbolToken "define"; SymbolToken "p";
                          ConstantToken 1; RP]
                   (snd (Interpreter_new empty_State))) in
  nullptr = nullptr
  /\ forall f, ToString (S f) (snd (Eval 8 0 (CellPtr 2) st)) nullptr
               = Ret "()".
Proof.
  cbv zeta.
  apply (binding_forms_return_empty_list 7 (Eval 7) 0%nat
           (snd (Read 20 [LP; SymbolToken "define"; SymbolToken "p";
                          ConstantToken 1; RP]
                   (snd (Interpreter_new empty_State))))
           (CellPtr 2) "define" [Symbol "p"; Number 1]).
  - cbn. auto.
  - vm_compute. reflexivity.
  - vm_compute. reflexivity.
Defined.

(** ** Definitions and the chain of scopes *)

Lemma get_scope_lt st h sc : get_scope st h = Some sc -> (h < length (scopes st))%nat.
Proof.
  unfold get_scope. destruct (scopes st !! h) eqn:E; [| discriminate].
  intros _. eapply lookup_lt_Some; eauto.
Qed.

Lemma get_scope_put_eq st h x :
  (h < length (scopes st))%nat ->
  get_scope (put_scope h x st) h = x.
Proof.
  intros H. unfold get_scope, put_scope. cbn [scopes].
  rewrite list_lookup_insert_eq by exact H. now destruct x.
Qed.

Lemma get_scope_put_ne st h h' x :
  h <> h' -> get_scope (put_scope h x st) h' = get_scope st h'.
Proof.
  intros H. unfold get_scope, put_scope. cbn [scopes].
  now rewrite list_lookup_insert_ne by exact H.
Qed.

Lemma same_frames_expired st st' w :
  same_frames st st' -> expired st w = expired st' w.
Proof.
  intros H. destruct w as [h |]; [| reflexivity]. cbn.
  specialize (H h).
  destruct (get_scope st h), (get_scope st' h); tauto.
Qed.

Lemma FindVariable_same_frames st st' :
  same_frames st st' ->
  forall fuel h name,
    FindVariable fuel st h name = FindVariable fuel st' h name.
Proof.
  intros H fuel. induction fuel as [| fuel IH]; intros h name; [reflexivity |].
  cbn [FindVariable]. pose proof (H h) as Hh.
  destruct (get_scope st h) as [sc |], (get_scope st' h) as [sc' |];
    try tauto.
  destruct Hh as [Hp Hn]. specialize (Hn name).
  destruct (variables_ sc !! name) eqn:E1, (variables_ sc' !! name) eqn:E2;
    try reflexivity.
  - destruct Hn as [_ Hn]. specialize (Hn eq_refl). discriminate.
  - destruct Hn as [Hn _]. specialize (Hn eq_refl). discriminate.
  - rewrite <- Hp. destruct (parent_ sc) as [p |]; [| reflexivity].
    rewrite (same_frames_expired st st' (Some p) H). now rewrite IH.
Qed.

Lemma slot_value_put st h sc p vars' r u h2 n :
  get_scope st h = Some sc ->
  slot_value (put_scope h (Some (mkScope p vars' r u)) st) h2 n
  = if decide (h2 = h) then vars' !! n else slot_value st h2 n.
Proof.
  intros Hsc. unfold slot_value. destruct (decide (h2 = h)) as [-> | Hne].
  - rewrite get_scope_put_eq by (eapply get_scope_lt; eauto). reflexivity.
  - rewrite get_scope_put_ne by congruence. reflexivity.
Qed.

Lemma same_frames_put st h sc vars' r u :
  get_scope st h = Some sc ->
  (forall n, variables_ sc !! n = None <-> vars' !! n = None) ->
  same_frames st (put_scope h (Some (mkScope (parent_ sc) vars' r u)) st).
Proof.
  intros Hsc Hv h2. destruct (decide (h2 = h)) as [-> | Hne].
  - rewrite get_scope_put_eq by (eapply get_scope_lt; eauto).
    rewrite Hsc. cbn. auto.
  - rewrite get_scope_put_ne by congruence.
    destruct (get_scope st h2); [split; [reflexivity | tauto] | exact I].
Qed.

Lemma FindVariable_Some fuel st :
  forall h name h',
    FindVariable fuel st h name = Ret (Some h') ->
    exists sc value, get_scope st h' = Some sc /\ variables_ sc !! name = Some value.
Proof.
  induction fuel as [| fuel IH]; intros h name h' H; [discriminate |].
  cbn [FindVariable] in H.
  destruct (get_scope st h) as [sc |] eqn:Hsc; [| discriminate].
  destruct (variables_ sc !! name) as [value |] eqn:Hv.
  - injection H as <-. eauto.
  - destruct (parent_ sc) as [p |]; [| discriminate].
    destruct (expired st (Some p)); [discriminate |]. eapply IH, H.
Qed.

Lemma FindVariable_None fuel st h name :
  FindVariable fuel st h name = Ret None ->
  exists sc, get_scope st h = Some sc /\ variables_ sc !! name = None.
Proof.
  destruct fuel as [| fuel]; [discriminate |]. cbn [FindVariable].
  destruct (get_scope st h) as [sc |] eqn:Hsc; [| discriminate].
  destruct (variables_ sc !! name) eqn:Hv; [discriminate |]. eauto.
Qed.

Lemma SetVariable_spec fuel st scope name value target :
  FindVariable fuel st scope name = Ret target ->
  exists st',
    SetVariable fuel scope name value st = (Ret tt, st')
    /\ slot_value st' (written_frame scope target) name = Some value
    /\ (forall h n, (h, n) <> (written_frame scope target, name) ->
                    slot_value st' h n = slot_value st h n)
    /\ FindVariable fuel st' scope name
       = Ret (Some (written_frame scope target))
    /\ cells st' = cells st /\ lambdas st' = lambdas st.
Proof.
  intros HF. unfold SetVariable, bind, read. rewrite HF.
  destruct target as [h' |]; cbn [written_frame].
  - destruct (FindVariable_Some _ _ _ _ _ HF) as (sc & old & Hsc & Hold).
    unfold slot_assign, with_scope, modify. rewrite Hsc.
    eexists. split; [reflexivity |].
    split; [| split; [| split; [| split; reflexivity]]].
    + rewrite (slot_value_put _ _ _ _ _ _ _ _ _ Hsc).
      rewrite decide_True by reflexivity. apply lookup_insert_eq.
    + intros h n Hne. rewrite (slot_value_put _ _ _ _ _ _ _ _ _ Hsc).
      destruct (decide (h = h')) as [-> | Hh]; [| reflexivity].
      unfold slot_value. rewrite Hsc. cbn.
      apply lookup_insert_ne. congruence.
    + rewrite <- HF. symmetry. apply FindVariable_same_frames.
      apply same_frames_put; [exact Hsc |].
      intros n. destruct (decide (name = n)) as [<- | Hn].
      * rewrite lookup_insert_eq, Hold. split; discriminate.
      * now rewrite lookup_insert_ne.
  - destruct (FindVariable_None _ _ _ _ HF) as (sc & Hsc & Hnone).
    unfold SetLocalVariable, with_scope, modify. rewrite Hsc.
    unfold std_map_insert. rewrite Hnone.
    eexists. split; [reflexivity |].
    split; [| split; [| split; [| split; reflexivity]]].
    + rewrite (slot_value_put _ _ _ _ _ _ _ _ _ Hsc).
      rewrite decide_True by reflexivity. apply lookup_insert_eq.
    + intros h n Hne. rewrite (slot_value_put _ _ _ _ _ _ _ _ _ Hsc).
      destruct (decide (h = scope)) as [-> | Hh]; [| reflexivity].
      unfold slot_value. rewrite Hsc. cbn.
      apply lookup_insert_ne. congruence.
    + destruct fuel as [| fuel]; [discriminate |]. cbn [FindVariable].
      rewrite get_scope_put_eq by (eapply get_scope_lt; eauto).
      cbn [variables_]. now rewrite lookup_insert_eq.
Qed.






(** ** The frames of the calls of a closure *)

Lemma get_scope_release_ne st h h' :
  h <> h' -> get_scope (release_scope h st) h' = get_scope st h'.
Proof.
  intros Hne. unfold release_scope.
  destruct (get_scope st h) as [sc |]; [| reflexivity].
  destruct (use_count sc) as [| [| n]]; now apply get_scope_put_ne.
Qed.

Lemma get_scope_release_last st h sc :
  get_scope st h = Some sc -> use_count sc = 1%nat ->
  get_scope (release_scope h st) h = None.
Proof.
  intros Hsc Hu. unfold release_scope. rewrite Hsc, Hu.
  apply get_scope_put_eq. eapply get_scope_lt; eauto.
Qed.

Lemma get_scope_release_None st h h' :
  get_scope st h' = None -> get_scope (release_scope h st) h' = None.
Proof.
  intros Hnone. destruct (decide (h = h')) as [-> | Hne].
  - unfold release_scope. now rewrite Hnone.
  - now rewrite get_scope_release_ne.
Qed.

Lemma release_all_None frames : forall st h,
  get_scope st h = None -> get_scope (release_all frames st) h = None.
Proof.
  induction frames as [| f frames IH]; intros st h H; [exact H |].
  cbn. apply IH. now apply get_scope_release_None.
Qed.

Lemma release_all_not_in frames : forall st h,
  ~ In h frames -> get_scope (release_all frames st) h = get_scope st h.
Proof.
  induction frames as [| f frames IH]; intros st h H; [reflexivity |].
  cbn. rewrite IH by (intros ?; apply H; now right).
  apply get_scope_release_ne. intros ->. apply H. now left.
Qed.

(** A frame of the list with one owner is destroyed. *)
Lemma release_all_destroys frames : forall st h sc,
  In h frames -> get_scope st h = Some sc -> use_count sc = 1%nat ->
  get_scope (release_all frames st) h = None.
Proof.
  induction frames as [| f frames IH]; intros st h sc Hin Hsc Hu; [easy |].
  cbn. destruct (decide (f = h)) as [-> | Hne].
  - apply release_all_None. eapply get_scope_release_last; eauto.
  - destruct Hin as [-> | Hin]; [congruence |].
    eapply IH; eauto. now rewrite get_scope_release_ne.
Qed.



Lemma set_local_scopes_scopes st l frames :
  scopes (set_local_scopes l frames st) = scopes st.
Proof. unfold set_local_scopes. now destruct (lambdas st !! l). Qed.

Lemma get_scope_set_local_scopes st l frames h :
  get_scope (set_local_scopes l frames st) h = get_scope st h.
Proof. unfold get_scope. now rewrite set_local_scopes_scopes. Qed.




(** * Further properties *)

(** ** Equality is symmetric *)

(** X1.  [Equal(lhs, rhs)] and [Equal(rhs, lhs)] are the same computation:
    the same result, or no result for the same fuel. *)
Theorem Equal_symmetric :
  forall fuel st lhs rhs, Equal fuel st lhs rhs = Equal fuel st rhs lhs.
Proof.
  induction fuel as [| fuel IH]; intros st lhs rhs; [reflexivity |].
  destruct lhs, rhs; cbn [Equal]; try reflexivity.
  - now rewrite Z.eqb_sym.
  - f_equal. now destruct value_, value_0.
  - now rewrite String.eqb_sym.
  - destruct (cells st !! addr) as [this |], (cells st !! addr0) as [cell |];
      try reflexivity.
    rewrite (IH st (first_ this) (first_ cell)).
    rewrite (IH st (second_ this) (second_ cell)). reflexivity.
  - now rewrite Nat.eqb_sym.
Qed.

(** ** Lookup after assignment *)

Lemma FindVariable_same_frames_for name st st' :
  same_frames_for name st st' ->
  forall fuel h, FindVariable fuel st h name = FindVariable fuel st' h name.
Proof.
  intros H fuel. induction fuel as [| fuel IH]; intros h; [reflexivity |].
  cbn [FindVariable]. pose proof (H h) as Hh.
  destruct (get_scope st h) as [sc |], (get_scope st' h) as [sc' |];
    try tauto.
  destruct Hh as [Hp Hn].
  destruct (variables_ sc !! name) eqn:E1, (variables_ sc' !! name) eqn:E2;
    try reflexivity.
  - destruct Hn as [_ Hn]. specialize (Hn eq_refl). discriminate.
  - destruct Hn as [Hn _]. specialize (Hn eq_refl). discriminate.
  - rewrite <- Hp. destruct (parent_ sc) as [p |]; [| reflexivity].
    replace (expired st' (Some p)) with (expired st (Some p)).
    + now rewrite IH.
    + cbn. specialize (H p).
      destruct (get_scope st p), (get_scope st' p); tauto.
Qed.

(** The state [SetVariable] leaves: the variables of the frame written get
    the value for the name. *)
Lemma SetVariable_shape fuel st scope name value target :
  FindVariable fuel st scope name = Ret target ->
  exists sc,
    get_scope st (written_frame scope target) = Some sc
    /\ SetVariable fuel scope name value st
       = (Ret tt,
          put_scope (written_frame scope target)
            (Some (mkScope (parent_ sc) (<[name := value]> (variables_ sc))
                     (refs_ sc) (use_count sc))) st).
Proof.
  intros HF. unfold SetVariable, bind, read. rewrite HF.
  destruct target as [h' |]; cbn [written_frame].
  - destruct (FindVariable_Some _ _ _ _ _ HF) as (sc & old & Hsc & Hold).
    exists sc. split; [exact Hsc |].
    unfold slot_assign, with_scope, modify. now rewrite Hsc.
  - destruct (FindVariable_None _ _ _ _ HF) as (sc & Hsc & Hnone).
    exists sc. split; [exact Hsc |].
    unfold SetLocalVariable, with_scope, modify. rewrite Hsc.
    unfold std_map_insert. now rewrite Hnone.
Qed.

Lemma GetVariable_found fuel st scope name h value :
  FindVariable fuel st scope name = Ret (Some h) ->
  slot_value st h name = Some value ->
  GetVariable fuel scope name st = (Ret value, st).
Proof. intros HF Hv. unfold GetVariable. now rewrite HF, Hv. Qed.

Lemma replaces_data_value fuel st scope name h old d :
  FindVariable fuel st scope name = Ret (Some h) ->
  slot_value st h name = Some old ->
  denotes st old d ->
  replaces_data fuel st scope name.
Proof.
  intros HF Hold Hd h' old' HF' Hold'.
  rewrite HF in HF'. injection HF' as <-.
  rewrite Hold in Hold'. injection Hold' as <-.
  now exists d.
Qed.

Lemma replaces_data_unbound fuel st scope name :
  FindVariable fuel st scope name = Ret None ->
  replaces_data fuel st scope name.
Proof. intros HF h old HF'. rewrite HF in HF'. discriminate. Qed.

(** X2.  [SetVariable(name, value)] releases the value that the nearest
    binding of the name held, if there is one.  When that value is data,
    whose release destroys nothing else: after [SetVariable(name, value)],
    [GetVariable(name)] from the same scope returns the value, and
    [GetVariable] of any other name, from any scope, returns what it
    returned before. *)
Theorem SetVariable_then_GetVariable :
  forall fuel st scope name value target,
    FindVariable fuel st scope name = Ret target ->
    replaces_data fuel st scope name ->
    exists st',
      SetVariable fuel scope name value st = (Ret tt, st')
      /\ GetVariable fuel scope name st' = (Ret value, st')
      /\ (forall other h,
             other <> name ->
             fst (GetVariable fuel h other st')
             = fst (GetVariable fuel h other st)).
Proof.
  intros fuel st scope name value target HF _.
  destruct (SetVariable_shape fuel st scope name value target HF)
    as (sc & Hsc & HS).
  destruct (SetVariable_spec fuel st scope name value target HF)
    as (st' & HS' & Hnew & _ & HF' & _).
  rewrite HS in HS'. injection HS' as <-.
  eexists. split; [exact HS |]. split.
  - eapply GetVariable_found; eauto.
  - intros other h Hne.
    assert (Hsame : same_frames_for other st
                      (put_scope (written_frame scope target)
                         (Some (mkScope (parent_ sc)
                                  (<[name := value]> (variables_ sc))
                                  (refs_ sc) (use_count sc))) st)).
    { intros h2. destruct (decide (h2 = written_frame scope target))
        as [-> | Hh].
      - rewrite get_scope_put_eq by (eapply get_scope_lt; eauto).
        rewrite Hsc. cbn. split; [reflexivity |].
        now rewrite lookup_insert_ne.
      - rewrite get_scope_put_ne by congruence.
        destruct (get_scope st h2); [split; [reflexivity | tauto] | exact I]. }
    unfold GetVariable.
    rewrite <- (FindVariable_same_frames_for other _ _ Hsame).
    destruct (FindVariable fuel st h other) as [[h3 |] | | |]; try reflexivity.
    rewrite (slot_value_put _ _ _ _ _ _ _ _ _ Hsc).
    destruct (decide (h3 = written_frame scope target)) as [-> | Hh].
    + unfold slot_value. rewrite Hsc. cbn.
      rewrite lookup_insert_ne by congruence.
      now destruct (variables_ sc !! other).
    + now destruct (slot_value st h3 other).
Qed.

Lemma SetVariable_then_GetVariable_witness :
  exists st',
    SetVariable 3 1 "f" (Number 7) state_outer_binding = (Ret tt, st')
    /\ GetVariable 3 1 "f" st' = (Ret (Number 7), st').
Proof.
  destruct (SetVariable_then_GetVariable 3 state_outer_binding 1 "f"
              (Number 7) (Some 0%nat) eq_refl) as (st' & HS & HG & _).
  - now apply (replaces_data_value 3 state_outer_binding 1 "f" 0 (Number 1)
                 (DNumber 1)).
  - exists st'. split; [exact HS | exact HG].
Defined.

(** ** Assignment *)

Lemma read_Ret {A} (f : State -> Outcome A) st a :
  f st = Ret a -> read f st = (Ret a, st).
Proof. intros H. unfold read. now rewrite H. Qed.

(** X3.  [(set! name expression)]: the expression is evaluated first.  When
    no scope of the chain binds the name, the [NameError] is thrown; the
    value of the expression is released then, and when it is data nothing
    else changes: nothing is bound.  Otherwise the value is assigned to the
    nearest binding, and the value that the binding held is released: when
    that one is data, no other binding changes and no scope gets a new
    name. *)
Theorem set_assigns_nearest_or_fails :
  forall fuel Ev scope st object name expression value st1 target,
    UnfoldList fuel st object
    = Ret [Symbol "set!"; Symbol name; expression] ->
    Ev scope expression st = (Ret value, st1) ->
    FindVariable fuel st1 scope name = Ret target ->
    match target with
    | None =>
      fst (Eval_step fuel Ev scope object st)
      = Throw (NameError ("Variable doesn't yet exist: " ++ name))
      /\ (is_data st1 value ->
          Eval_step fuel Ev scope object st
          = (Throw (NameError ("Variable doesn't yet exist: " ++ name)),
             st1))
    | Some h =>
      replaces_data fuel st1 scope name ->
      exists st2,
        Eval_step fuel Ev scope object st = (Ret nullptr, st2)
        /\ slot_value st2 h name = Some value
        /\ (forall h' n, (h', n) <> (h, name) ->
                         slot_value st2 h' n = slot_value st1 h' n)
        /\ same_frames st1 st2
    end.
Proof.
  intros fuel Ev scope st object name expression value st1 target HU He HF.
  rewrite (Eval_step_command _ _ _ _ _ _ _ cmd_set HU eq_refl).
  cbn [cmd_set]. rewrite (bind_Ret _ _ _ _ _ He).
  rewrite (bind_Ret _ _ _ _ _ (read_Ret _ _ _ HF)).
  destruct target as [h |]; [| split; [reflexivity | intros _; reflexivity]].
  intros _.
  destruct (FindVariable_Some _ _ _ _ _ HF) as (sc & old & Hsc & Hold).
  unfold bind, slot_assign, with_scope, modify, ret. rewrite Hsc.
  eexists. split; [reflexivity |]. split; [| split].
  - rewrite (slot_value_put _ _ _ _ _ _ _ _ _ Hsc).
    rewrite decide_True by reflexivity. apply lookup_insert_eq.
  - intros h' n Hne. rewrite (slot_value_put _ _ _ _ _ _ _ _ _ Hsc).
    destruct (decide (h' = h)) as [-> | Hh]; [| reflexivity].
    unfold slot_value. rewrite Hsc. cbn. apply lookup_insert_ne. congruence.
  - apply same_frames_put; [exact Hsc |].
    intros n. destruct (decide (name = n)) as [<- | Hn].
    + rewrite lookup_insert_eq, Hold. split; discriminate.
    + now rewrite lookup_insert_ne.
Qed.

Lemma set_assigns_nearest_or_fails_witness :
  Eval_step 5 (Eval 5) 1 (CellPtr 3) state_set_unbound
  = (Throw (NameError "Variable doesn't yet exist: g"), state_set_unbound)
  /\ exists st2,
       Eval_step 5 (Eval 5) 1 (CellPtr 2) state_set_bound = (Ret nullptr, st2)
       /\ slot_value st2 0 "f" = Some (Number 2)
       /\ same_frames state_set_bound st2.
Proof.
  split.
  - apply (set_assigns_nearest_or_fails 5 (Eval 5) 1%nat state_set_unbound
             (CellPtr 3) "g" (Number 2) (Number 2) state_set_unbound None);
      [reflexivity | reflexivity | reflexivity |].
    now exists (DNumber 2).
  - destruct (set_assigns_nearest_or_fails 5 (Eval 5) 1%nat state_set_bound
                (CellPtr 2) "f" (Number 2) (Number 2) state_set_bound
                (Some 0%nat) eq_refl eq_refl eq_refl)
      as (st2 & HE & Hnew & _ & Hsame).
    + now apply (replaces_data_value 5 state_set_bound 1 "f" 0 (Number 1)
                   (DNumber 1)).
    + exists st2. split; [exact HE |]. split; [exact Hnew | exact Hsame].
Defined.

(** ** The placeholder of a definition *)

(** X4.  [(define name expression)] first binds the name to the empty list,
    which releases the value that the nearest binding of the name held.
    When that value is data: the expression is evaluated in a state where
    [GetVariable(name)] returns the empty list, every other binding being as
    before; when the evaluation of the expression throws, the definition
    throws the same exception and assigns nothing more, so that the name
    keeps the empty list unless the evaluation assigned it; and when it
    returns a value, and what the name is bound to by then is data, the
    definition returns the empty list and [GetVariable(name)] returns the
    value. *)
Theorem define_binds_placeholder_first :
  forall fuel scope st name target,
    FindVariable fuel st scope name = Ret target ->
    replaces_data fuel st scope name ->
    exists st0,
      GetVariable fuel scope name st0 = (Ret nullptr, st0)
      /\ (forall h n, (h, n) <> (written_frame scope target, name) ->
                      slot_value st0 h n = slot_value st h n)
      /\ (forall Ev expression e st1,
             Ev scope expression st0 = (Throw e, st1) ->
             cmd_define fuel Ev scope
               [Symbol "define"; Symbol name; expression] st
             = (Throw e, st1))
      /\ (forall Ev expression value st1 target1,
             Ev scope expression st0 = (Ret value, st1) ->
             FindVariable fuel st1 scope name = Ret target1 ->
             replaces_data fuel st1 scope name ->
             exists st2,
               cmd_define fuel Ev scope
                 [Symbol "define"; Symbol name; expression] st
               = (Ret nullptr, st2)
               /\ GetVariable fuel scope name st2 = (Ret value, st2)).
Proof.
  intros fuel scope st name target HF _.
  destruct (SetVariable_spec fuel st scope name nullptr target HF)
    as (st0 & HS & Hnew & Hother & HF0 & _).
  exists st0. split; [| split; [exact Hother | split]].
  - eapply GetVariable_found; eauto.
  - intros Ev expression e st1 He. cbn [cmd_define].
    rewrite (bind_Ret _ _ _ _ _ HS). now apply bind_Throw.
  - intros Ev expression value st1 target1 He HF1 _.
    destruct (SetVariable_spec fuel st1 scope name value target1 HF1)
      as (st2 & HS2 & Hnew2 & _ & HF2 & _).
    exists st2. split.
    + cbn [cmd_define].
      rewrite (bind_Ret _ _ _ _ _ HS), (bind_Ret _ _ _ _ _ He),
        (bind_Ret _ _ _ _ _ HS2).
      reflexivity.
    + eapply GetVariable_found; eauto.
Qed.

Lemma define_binds_placeholder_first_witness :
  (exists st0,
      GetVariable 3 1 "g" st0 = (Ret nullptr, st0)
      /\ slot_value st0 0 "f" = slot_value state_outer_binding 0 "f")
  /\ (exists st0,
         GetVariable 3 1 "f" st0 = (Ret nullptr, st0)
         /\ slot_value st0 1 "f" = slot_value state_outer_binding 1 "f").
Proof.
  split.
  - destruct (define_binds_placeholder_first 3 1 state_outer_binding "g" None
                eq_refl) as (st0 & HG & Hother & _).
    + now apply replaces_data_unbound.
    + exists st0. split; [exact HG |]. apply Hother. discriminate.
  - destruct (define_binds_placeholder_first 3 1 state_outer_binding "f"
                (Some 0%nat) eq_refl) as (st0 & HG & Hother & _).
    + now apply (replaces_data_value 3 state_outer_binding 1 "f" 0 (Number 1)
                   (DNumber 1)).
    + exists st0. split; [exact HG |]. apply Hother. discriminate.
Defined.

(** ** A closure whose defining frame is destroyed *)

Lemma GetVariable_parent fuel st h sc p name :
  get_scope st h = Some sc ->
  variables_ sc !! name = None ->
  parent_ sc = Some p ->
  GetVariable (S fuel) h name st
  = if expired st (Some p)
    then (Throw (NameError ("No such variable: " ++ name)), st)
    else GetVariable fuel p name st.
Proof.
  intros Hsc Hnone Hp. unfold GetVariable. cbn [FindVariable].
  rewrite Hsc, Hnone, Hp. now destruct (expired st (Some p)).
Qed.

(** X5.  A frame [inner] whose parent is a frame [outer] owned by a closure
    only: [GetVariable] finds from [inner] the names [outer] binds; once the
    closure is destroyed, [outer] is destroyed with it and the same lookup
    throws the [NameError]: the expired parent is not followed. *)
Theorem lookup_through_destroyed_frame :
  forall fuel st l lam outer inner sc_outer sc_inner name value,
    lambdas st !! l = Some lam ->
    In outer (local_scopes_ lam) ->
    ~ In inner (local_scopes_ lam) ->
    get_scope st outer = Some sc_outer ->
    use_count sc_outer = 1%nat ->
    variables_ sc_outer !! name = Some value ->
    get_scope st inner = Some sc_inner ->
    parent_ sc_inner = Some outer ->
    variables_ sc_inner !! name = None ->
    GetVariable (S (S fuel)) inner name st = (Ret value, st)
    /\ exists st',
         Lambda_dtor l st = (Ret tt, st')
         /\ GetVariable (S (S fuel)) inner name st'
            = (Throw (NameError ("No such variable: " ++ name)), st').
Proof.
  intros fuel st l lam outer inner sc_outer sc_inner name value
    Hlam Hin Hnotin Hout Hu Hvalue Hinn Hparent Hnone.
  assert (Hne : outer <> inner) by (intros ->; congruence).
  split.
  - rewrite (GetVariable_parent _ _ _ _ _ _ Hinn Hnone Hparent).
    unfold expired. rewrite Hout.
    unfold GetVariable. cbn [FindVariable]. rewrite Hout, Hvalue.
    unfold slot_value. rewrite Hout. cbn. now rewrite Hvalue.
  - unfold Lambda_dtor, with_lambda. rewrite Hlam.
    assert (Hdel : exists stD,
               (match scope_ lam with
                | Some h0 =>
                  fun st => if expired st (scope_ lam) then (Ret tt, st)
                            else DelRef h0 st
                | None => ret tt
                end) st = (Ret tt, stD)
               /\ (exists sc', get_scope stD outer = Some sc'
                               /\ use_count sc' = 1%nat)
               /\ (exists sc', get_scope stD inner = Some sc'
                               /\ parent_ sc' = Some outer
                               /\ variables_ sc' !! name = None)).
    { destruct (scope_ lam) as [h0 |] eqn:Hs0.
      - destruct (expired st (Some h0)) eqn:Hexp; [eauto 10 |].
        unfold expired in Hexp.
        destruct (get_scope st h0) as [sc0 |] eqn:Hsc0; [| discriminate].
        unfold DelRef, with_scope, modify. rewrite Hsc0.
        eexists. split; [reflexivity |]. split.
        + destruct (decide (h0 = outer)) as [-> | Hh].
          * rewrite get_scope_put_eq by (eapply get_scope_lt; eauto).
            eexists. split; [reflexivity |]. cbn. congruence.
          * rewrite get_scope_put_ne by exact Hh. eauto.
        + destruct (decide (h0 = inner)) as [-> | Hh].
          * rewrite get_scope_put_eq by (eapply get_scope_lt; eauto).
            eexists. split; [reflexivity |]. cbn.
            split; congruence.
          * rewrite get_scope_put_ne by exact Hh. eauto.
      - unfold ret. eauto 10. }
    destruct Hdel as (stD & HD & (scO & HscO & HuO) & (scI & HscI & HpI & HnI)).
    rewrite (bind_Ret _ _ _ _ _ HD). unfold modify.
    eexists. split; [reflexivity |].
    erewrite GetVariable_parent; [| | exact HnI | exact HpI].
    2:{ rewrite get_scope_set_local_scopes, release_all_not_in by exact Hnotin.
        exact HscI. }
    unfold expired.
    rewrite get_scope_set_local_scopes.
    now rewrite (release_all_destroys _ _ _ _ Hin HscO HuO).
Qed.

Lemma lookup_through_destroyed_frame_witness :
  GetVariable 3 2 "n" state_inner_call = (Ret (Number 5), state_inner_call)
  /\ exists st',
       Lambda_dtor 0 state_inner_call = (Ret tt, st')
       /\ GetVariable 3 2 "n" st'
          = (Throw (NameError "No such variable: n"), st').
Proof.
  apply (lookup_through_destroyed_frame 1 state_inner_call 0%nat
           (mkLambda ["n"] (Some 0%nat) [] [1%nat]) 1%nat 2%nat
           (mkScope (Some 0%nat) {[ "n" := Number 5 ]} 1 1)
           (mkScope (Some 1%nat) {[ "x" := Number 3 ]} 1 3)
           "n" (Number 5)).
  - reflexivity.
  - now left.
  - intros [H | []]. discriminate.
  - reflexivity.
  - reflexivity.
  - reflexivity.
  - reflexivity.
  - reflexivity.
  - reflexivity.
Defined.

(** ** Sums and products *)

Lemma int64_wrap_add_l a b : int64_wrap (int64_wrap a + b) = int64_wrap (a + b).
Proof.
  unfold int64_wrap. f_equal.
  replace ((a + 2 ^ 63) mod 2 ^ 64 - 2 ^ 63 + b + 2 ^ 63)
    with ((a + 2 ^ 63) mod 2 ^ 64 + b) by ring.
  rewrite Zplus_mod_idemp_l. f_equal. ring.
Qed.

Lemma int64_wrap_mul_l a b : int64_wrap (int64_wrap a * b) = int64_wrap (a * b).
Proof.
  unfold int64_wrap. f_equal.
  replace (((a + 2 ^ 63) mod 2 ^ 64 - 2 ^ 63) * b + 2 ^ 63)
    with ((a + 2 ^ 63) mod 2 ^ 64 * b + (2 ^ 63 - 2 ^ 63 * b)) by ring.
  rewrite Zplus_mod, Zmult_mod_idemp_l, <- Zplus_mod. f_equal. ring.
Qed.

Lemma int64_wrap_int64 z : int64 z -> int64_wrap z = z.
Proof.
  unfold int64, int64_wrap. intros H.
  rewrite Z.mod_small; lia.
Qed.

Lemma fold_args_Add fuel st ns : forall a n,
  fold_args (Add fuel st) (Number a) (map Number (n :: ns))
  = Ret (Number (int64_wrap (a + sum (n :: ns)))).
Proof.
  induction ns as [| m ns IH]; intros a n.
  - cbn. now rewrite Z.add_0_r.
  - change (fold_args (Add fuel st) (Number a) (map Number (n :: m :: ns)))
      with (fold_args (Add fuel st) (Number (int64_wrap (a + n)))
              (map Number (m :: ns))).
    rewrite IH, int64_wrap_add_l. do 3 f_equal.
    unfold sum. cbn [fold_right]. ring.
Qed.

Lemma fold_args_Multiply fuel st ns : forall a n,
  fold_args (Multiply fuel st) (Number a) (map Number (n :: ns))
  = Ret (Number (int64_wrap (a * product (n :: ns)))).
Proof.
  induction ns as [| m ns IH]; intros a n.
  - cbn. now rewrite Z.mul_1_r.
  - change (fold_args (Multiply fuel st) (Number a) (map Number (n :: m :: ns)))
      with (fold_args (Multiply fuel st) (Number (int64_wrap (a * n)))
              (map Number (m :: ns))).
    rewrite IH, int64_wrap_mul_l. do 3 f_equal.
    unfold product. cbn [fold_right]. ring.
Qed.

(** X6.  [+] and [*] on arguments whose values are numbers: the result is
    the sum, or the product, of the values reduced to [int64_t], whatever the
    intermediate results were; with no argument it is 0, or 1.  The state is
    the one the evaluation of the arguments leaves. *)
Theorem add_multiply_of_numbers :
  forall fuel Ev scope command es st ns st1,
    eval_each (Ev scope) es st = (Ret (map Number ns), st1) ->
    cmd_add fuel Ev scope (command :: es) st
    = (Ret (Number (int64_wrap (sum ns))), st1)
    /\ cmd_multiply fuel Ev scope (command :: es) st
       = (Ret (Number (int64_wrap (product ns))), st1).
Proof.
  intros fuel Ev scope command es st ns st1 Hes.
  unfold cmd_add, cmd_multiply.
  rewrite !(bind_Ret _ _ _ _ _ (eval_args_cons _ command _ _ _ _ Hes)).
  unfold read. cbn [tail]. unfold GetNumberConstant.
  destruct ns as [| n ns]; [split; reflexivity |].
  rewrite fold_args_Add, fold_args_Multiply.
  rewrite Z.add_0_l, Z.mul_1_l. split; reflexivity.
Qed.

Lemma add_multiply_of_numbers_witness :
  cmd_add 1%nat (Eval 1) 0%nat [Symbol "+"; Number 2; Number 3; Number 4] empty_State
  = (Ret (Number 9), empty_State)
  /\ cmd_multiply 1%nat (Eval 1) 0%nat [Symbol "+"; Number 2; Number 3; Number 4]
       empty_State
     = (Ret (Number 24), empty_State).
Proof.
  exact (add_multiply_of_numbers 1%nat (Eval 1) 0%nat (Symbol "+")
           [Number 2; Number 3; Number 4] empty_State [2; 3; 4] empty_State
           eq_refl).
Defined.




(** ** Comparisons, [min], [max] and [abs] on numbers *)

Lemma forallb_is_Number ns : forallb is_Number (map Number ns) = true.
Proof. induction ns; [reflexivity | assumption]. Qed.

Lemma eval_numbers_all fuel Ev es : forall done st vs st1,
  eval_each Ev es st = (Ret vs, st1) ->
  forallb is_Number vs = true ->
  eval_numbers fuel Ev done es st = (Ret (done ++ vs)%list, st1).
Proof.
  induction es as [| e es IH]; intros done st vs st1 Hes Hvs.
  - cbn in Hes. unfold ret in Hes. injection Hes as <- <-.
    cbn. unfold ret. now rewrite app_nil_r.
  - apply eval_each_cons_inv in Hes as (v & vs' & sta & Hv & Hvs' & ->).
    cbn [forallb] in Hvs. apply andb_prop in Hvs as [Hn Hvs].
    cbn [eval_numbers]. rewrite (bind_Ret _ _ _ _ _ Hv), Hn.
    rewrite (IH _ _ _ _ Hvs' Hvs). now rewrite <- app_assoc.
Qed.

Lemma compare_chain_numbers cmp (R : Z -> Z -> bool) :
  (forall a b, cmp (Number a) (Number b) = Ret (R a b)) ->
  forall ns n,
    compare_chain cmp (Number n) (map Number ns) = Ret (chain R n ns).
Proof.
  intros Hcmp ns. induction ns as [| m ns IH]; intros n; [reflexivity |].
  cbn [map compare_chain chain]. rewrite Hcmp. cbn [obind].
  destruct (R n m); [apply IH | reflexivity].
Qed.

Lemma compare_first_numbers fuel st ns : forall n,
  compare_first (Equal (S fuel) st) (Number n) (map Number ns)
  = Ret (chain Z.eqb n ns).
Proof.
  induction ns as [| m ns IH]; intros n; [reflexivity |].
  cbn [map compare_first chain Equal obind].
  destruct (Z.eqb_spec n m) as [-> | Hne]; [apply IH | reflexivity].
Qed.

Lemma LessOrEqual_numbers fuel st a b :
  LessOrEqual (S fuel) st (Number a) (Number b) = Ret (Z.leb a b).
Proof.
  unfold LessOrEqual. cbn.
  destruct (Z.ltb_spec a b), (Z.eqb_spec a b), (Z.leb_spec a b);
    try reflexivity; lia.
Qed.

Lemma comparison_numbers cmp (R : Z -> Z -> bool) fuel Ev scope command es st ns
  st1 :
  (forall st a b, cmp fuel st (Number a) (Number b) = Ret (R a b)) ->
  eval_each (Ev scope) es st = (Ret (map Number ns), st1) ->
  comparison cmp fuel Ev scope (command :: es) st
  = (Ret (Boolean (adjacent R ns)), st1).
Proof.
  intros Hcmp Hes. unfold comparison, eval_number_args.
  rewrite (bind_Ret _ _ _ _ _
             (eval_numbers_all fuel _ _ [command] _ _ _ Hes
                (forallb_is_Number ns))).
  destruct ns as [| n ns]; [reflexivity |].
  cbn [app map]. unfold bind, read, ret.
  rewrite (compare_chain_numbers _ R (Hcmp st1)). reflexivity.
Qed.

(** X8.  [=], [<], [>], [<=] and [>=] on arguments whose values are numbers:
    the result is whether each value is so related to the next one ([=]
    compares each value with the first one, which is the same on numbers);
    with no argument or one the result is true. *)
Theorem comparisons_of_numbers :
  forall fuel Ev scope command es st ns st1,
    eval_each (Ev scope) es st = (Ret (map Number ns), st1) ->
    cmd_equal (S fuel) Ev scope (command :: es) st
    = (Ret (Boolean (adjacent Z.eqb ns)), st1)
    /\ cmd_less (S fuel) Ev scope (command :: es) st
       = (Ret (Boolean (adjacent Z.ltb ns)), st1)
    /\ cmd_greater (S fuel) Ev scope (command :: es) st
       = (Ret (Boolean (adjacent Z.gtb ns)), st1)
    /\ cmd_less_or_equal (S fuel) Ev scope (command :: es) st
       = (Ret (Boolean (adjacent Z.leb ns)), st1)
    /\ cmd_greater_or_equal (S fuel) Ev scope (command :: es) st
       = (Ret (Boolean (adjacent Z.geb ns)), st1).
Proof.
  intros fuel Ev scope command es st ns st1 Hes.
  split; [| repeat split].
  - unfold cmd_equal, eval_number_args.
    rewrite (bind_Ret _ _ _ _ _
               (eval_numbers_all (S fuel) _ _ [command] _ _ _ Hes
                  (forallb_is_Number ns))).
    destruct ns as [| n ns]; [reflexivity |].
    cbn [app map]. unfold bind, read, ret.
    now rewrite compare_first_numbers.
  - apply comparison_numbers; [reflexivity | exact Hes].
  - apply comparison_numbers; [| exact Hes].
    intros st0 a b. unfold Greater. cbn. now rewrite Z.gtb_ltb.
  - apply comparison_numbers; [| exact Hes].
    intros st0 a b. apply LessOrEqual_numbers.
  - apply comparison_numbers; [| exact Hes].
    intros st0 a b. unfold GreaterOrEqual.
    rewrite LessOrEqual_numbers. now rewrite Z.geb_leb.
Qed.

Lemma comparisons_of_numbers_witness :
  cmd_equal 1%nat (Eval 1) 0%nat
      [Symbol "<"; Number 1; Number 2; Number 2] empty_State
  = (Ret (Boolean false), empty_State)
  /\ cmd_less 1%nat (Eval 1) 0%nat
      [Symbol "<"; Number 1; Number 2; Number 2] empty_State
     = (Ret (Boolean false), empty_State)
  /\ cmd_greater 1%nat (Eval 1) 0%nat
      [Symbol "<"; Number 1; Number 2; Number 2] empty_State
     = (Ret (Boolean false), empty_State)
  /\ cmd_less_or_equal 1%nat (Eval 1) 0%nat
      [Symbol "<"; Number 1; Number 2; Number 2] empty_State
     = (Ret (Boolean true), empty_State)
  /\ cmd_greater_or_equal 1%nat (Eval 1) 0%nat
      [Symbol "<"; Number 1; Number 2; Number 2] empty_State
     = (Ret (Boolean false), empty_State).
Proof.
  exact (comparisons_of_numbers 0%nat (Eval 1) 0%nat (Symbol "<")
           [Number 1; Number 2; Number 2] empty_State [1; 2; 2] empty_State
           eq_refl).
Defined.

Lemma select_loop_Less fuel st ns : forall n,
  select_loop (Less fuel st) (Number n) (map Number ns)
  = Ret (Number (fold_left Z.min ns n)).
Proof.
  induction ns as [| m ns IH]; intros n; [reflexivity |].
  cbn [map select_loop fold_left Less obind].
  destruct (Z.ltb_spec m n).
  - rewrite Z.min_r by lia. apply IH.
  - rewrite Z.min_l by lia. apply IH.
Qed.

Lemma select_loop_Greater fuel st ns : forall n,
  select_loop (Greater fuel st) (Number n) (map Number ns)
  = Ret (Number (fold_left Z.max ns n)).
Proof.
  induction ns as [| m ns IH]; intros n; [reflexivity |].
  cbn [map select_loop fold_left Greater Less obind].
  destruct (Z.ltb_spec n m).
  - rewrite Z.max_r by lia. apply IH.
  - rewrite Z.max_l by lia. apply IH.
Qed.

(** X9.  [min] and [max] on one argument or more whose values are numbers
    return the least and the greatest of the values; [abs] returns the
    absolute value of a number that is not the least [int64_t]. *)
Theorem min_max_abs_of_numbers :
  forall fuel Ev scope command es st n ns st1,
    eval_each (Ev scope) es st = (Ret (map Number (n :: ns)), st1) ->
    cmd_min fuel Ev scope (command :: es) st
    = (Ret (Number (fold_left Z.min ns n)), st1)
    /\ cmd_max fuel Ev scope (command :: es) st
       = (Ret (Number (fold_left Z.max ns n)), st1)
    /\ (ns = [] -> - 2 ^ 63 < n < 2 ^ 63 ->
        cmd_abs fuel Ev scope (command :: es) st
        = (Ret (Number (Z.abs n)), st1)).
Proof.
  intros fuel Ev scope command es st n ns st1 Hes.
  pose proof (eval_args_cons _ command _ _ _ _ Hes) as Hargs.
  change (map Number (n :: ns)) with (Number n :: map Number ns) in Hargs.
  unfold cmd_min, cmd_max, selection, cmd_abs.
  rewrite !(bind_Ret _ _ _ _ _ Hargs).
  cbn [forallb is_Number andb].
  rewrite forallb_is_Number. unfold read.
  rewrite select_loop_Less, select_loop_Greater.
  split; [reflexivity |]. split; [reflexivity |].
  intros -> Hn. cbn [map]. unfold GetNumberConstant, ret.
  destruct (Z.leb_spec 0 n).
  - now rewrite Z.abs_eq.
  - rewrite Z.abs_neq by lia. rewrite int64_wrap_int64; [reflexivity |].
    unfold int64. lia.
Qed.

Lemma min_max_abs_of_numbers_witness :
  (cmd_min 1%nat (Eval 1) 0%nat [Symbol "min"; Number (-7)] empty_State
   = (Ret (Number (-7)), empty_State)
   /\ cmd_max 1%nat (Eval 1) 0%nat [Symbol "min"; Number (-7)] empty_State
      = (Ret (Number (-7)), empty_State)
   /\ cmd_abs 1%nat (Eval 1) 0%nat [Symbol "min"; Number (-7)] empty_State
      = (Ret (Number 7), empty_State)).
Proof.
  destruct (min_max_abs_of_numbers 1%nat (Eval 1) 0%nat (Symbol "min")
              [Number (-7)] empty_State (-7) [] empty_State eq_refl)
    as (Hmin & Hmax & Habs).
  split; [exact Hmin |]. split; [exact Hmax |].
  apply Habs; [reflexivity | lia].
Defined.

(** ** Truth values: [and], [or], [if] and [not] *)








(** ** Lists *)

Lemma UnfoldList_loop_acc fuel st : forall object acc,
  UnfoldList_loop fuel st acc object
  = obind (UnfoldList_loop fuel st [] object) (fun l => Ret (acc ++ l)%list).
Proof.
  induction fuel as [| fuel IH]; intros object acc; [reflexivity |].
  destruct object as [| n | b | s | c | l]; cbn [UnfoldList_loop].
  - cbn. now rewrite app_nil_r.
  - destruct (ToString fuel st _); reflexivity.
  - destruct (ToString fuel st _); reflexivity.
  - destruct (ToString fuel st _); reflexivity.
  - destruct (cells st !! c) as [cell |]; [| reflexivity].
    rewrite (IH _ (acc ++ [first_ cell])%list), (IH _ ([] ++ [first_ cell])%list).
    destruct (UnfoldList_loop fuel st [] (second_ cell)); cbn; try reflexivity.
    now rewrite <- app_assoc.
  - destruct (ToString fuel st _); reflexivity.
Qed.

Lemma UnfoldList_nullptr_inv fuel st vs :
  UnfoldList fuel st nullptr = Ret vs -> vs = [].
Proof. destruct fuel; cbn; congruence. Qed.

Lemma UnfoldList_cell fuel st c cell :
  cells st !! c = Some cell ->
  UnfoldList (S fuel) st (CellPtr c)
  = obind (UnfoldList fuel st (second_ cell))
      (fun l => Ret (first_ cell :: l)).
Proof.
  intros Hc. unfold UnfoldList. cbn [UnfoldList_loop]. rewrite Hc.
  now rewrite UnfoldList_loop_acc.
Qed.

Lemma UnfoldList_cell_inv fuel st c vs :
  UnfoldList fuel st (CellPtr c) = Ret vs ->
  exists fuel' cell vs',
    fuel = S fuel' /\ cells st !! c = Some cell
    /\ UnfoldList fuel' st (second_ cell) = Ret vs'
    /\ vs = first_ cell :: vs'.
Proof.
  destruct fuel as [| fuel]; [discriminate |].
  unfold UnfoldList at 1. cbn [UnfoldList_loop].
  destruct (cells st !! c) as [cell |] eqn:Hc; [| discriminate].
  rewrite UnfoldList_loop_acc.
  destruct (UnfoldList_loop fuel st [] (second_ cell)) as [vs' | | |] eqn:Hvs;
    cbn; intros H; try discriminate.
  injection H as <-. exists fuel, cell, vs'. auto.
Qed.

Lemma UnfoldList_inv fuel st object vs :
  UnfoldList fuel st object = Ret vs ->
  (object = nullptr /\ vs = [])
  \/ exists c, object = CellPtr c.
Proof.
  intros H. destruct object as [| n | b | s | c | l]; eauto.
  - left. split; [reflexivity |]. now apply UnfoldList_nullptr_inv in H.
  - now apply UnfoldList_loop_atom in H.
  - now apply UnfoldList_loop_atom in H.
  - now apply UnfoldList_loop_atom in H.
  - now apply UnfoldList_loop_atom in H.
Qed.

Lemma UnfoldList_length fuel st : forall object vs,
  UnfoldList fuel st object = Ret vs -> (length vs < fuel)%nat.
Proof.
  induction fuel as [| fuel IH]; intros object vs H; [discriminate |].
  destruct (UnfoldList_inv _ _ _ _ H) as [[-> ->] | [c ->]]; [cbn; lia |].
  apply UnfoldList_cell_inv in H as (f' & cell & vs' & Hf & Hc & Hvs & ->).
  injection Hf as <-. apply IH in Hvs. cbn. lia.
Qed.

Lemma UnfoldList_allocates fuel st st' n : forall object vs,
  allocates st st' n ->
  UnfoldList fuel st object = Ret vs ->
  UnfoldList fuel st' object = Ret vs.
Proof.
  intros object vs [[new [Hcells _]] _]. revert object vs.
  induction fuel as [| fuel IH]; intros object vs H; [discriminate |].
  destruct (UnfoldList_inv _ _ _ _ H) as [[-> ->] | [c ->]]; [reflexivity |].
  apply UnfoldList_cell_inv in H as (f' & cell & vs' & Hf & Hc & Hvs & ->).
  injection Hf as <-.
  assert (Hc' : cells st' !! c = Some cell).
  { rewrite Hcells. now apply lookup_app_l_Some. }
  rewrite (UnfoldList_cell _ _ _ _ Hc'), (IH _ _ Hvs). reflexivity.
Qed.


Lemma allocates_refl st : allocates st st 0.
Proof.
  split; [| split; reflexivity].
  exists []. now rewrite app_nil_r.
Qed.

Lemma allocates_trans st1 st2 st3 n m :
  allocates st1 st2 n -> allocates st2 st3 m -> allocates st1 st3 (n + m).
Proof.
  intros [[new1 [H1 L1]] [Hl1 Hs1]] [[new2 [H2 L2]] [Hl2 Hs2]].
  split; [| split; congruence].
  exists (new1 ++ new2)%list. split.
  - now rewrite H2, H1, app_assoc.
  - rewrite length_app. lia.
Qed.

Lemma new_Cell_allocates first second st :
  new_Cell first second st
  = (Ret (CellPtr (length (cells st))),
     mkState (cells st ++ [mkCell first second]) (lambdas st) (scopes st))
  /\ allocates st
       (mkState (cells st ++ [mkCell first second]) (lambdas st) (scopes st)) 1.
Proof.
  split; [reflexivity |].
  split; [| split; reflexivity]. now exists [mkCell first second].
Qed.

Lemma build_list_spec reversed : forall result st fuel l,
  UnfoldList fuel st result = Ret l ->
  exists object st',
    build_list reversed result st = (Ret object, st')
    /\ UnfoldList (length reversed + fuel) st' object
       = Ret (rev reversed ++ l)%list
    /\ allocates st st' (length reversed).
Proof.
  induction reversed as [| a rest IH]; intros result st fuel l Hl.
  - exists result, st. cbn. split; [reflexivity |]. split; [exact Hl |].
    apply allocates_refl.
  - destruct (new_Cell_allocates a result st) as [Hnew Halloc].
    set (st1 := mkState (cells st ++ [mkCell a result]) (lambdas st) (scopes st))
      in *.
    assert (Hc : cells st1 !! length (cells st) = Some (mkCell a result)).
    { cbn [cells st1]. rewrite lookup_app_r by lia.
      now rewrite Nat.sub_diag. }
    assert (Hl1 : UnfoldList (S fuel) st1 (CellPtr (length (cells st)))
                  = Ret (a :: l)).
    { rewrite (UnfoldList_cell _ _ _ _ Hc). cbn [second_ first_].
      now rewrite (UnfoldList_allocates _ _ _ _ _ _ Halloc Hl). }
    destruct (IH _ _ _ _ Hl1) as (object & st' & Hb & Hu & Ha).
    exists object, st'. split; [| split].
    + cbn [build_list]. now rewrite (bind_Ret _ _ _ _ _ Hnew).
    + cbn [length rev]. rewrite <- app_assoc. cbn [app].
      now rewrite Nat.add_succ_r in Hu.
    + apply (allocates_trans _ _ _ _ _ Halloc Ha).
Qed.

(** X12.  [list] returns a chain of new cells that [UnfoldList] unfolds to
    the values of the arguments, in their order; the cells there were are
    left as they are, and so are the closures and the scopes. *)
Theorem list_builds_the_values :
  forall fuel Ev scope command es st vs st1,
    eval_each (Ev scope) es st = (Ret vs, st1) ->
    exists object st2,
      cmd_list fuel Ev scope (command :: es) st = (Ret object, st2)
      /\ UnfoldList (S (length vs)) st2 object = Ret vs
      /\ allocates st1 st2 (length vs).
Proof.
  intros fuel Ev scope command es st vs st1 Hes.
  destruct (build_list_spec (rev vs) nullptr st1 1 [] eq_refl)
    as (object & st2 & Hb & Hu & Ha).
  exists object, st2. split; [| split].
  - unfold cmd_list.
    rewrite (bind_Ret _ _ _ _ _ (eval_args_cons _ command _ _ _ _ Hes)).
    exact Hb.
  - rewrite length_rev, rev_involutive, app_nil_r, Nat.add_1_r in Hu.
    exact Hu.
  - now rewrite length_rev in Ha.
Qed.

Lemma list_builds_the_values_witness :
  exists object st2,
    cmd_list 1%nat (Eval 1) 0%nat [Symbol "list"; Number 1; Boolean true]
      empty_State
    = (Ret object, st2)
    /\ UnfoldList 3 st2 object = Ret [Number 1; Boolean true]
    /\ allocates empty_State st2 2.
Proof.
  exact (list_builds_the_values 1%nat (Eval 1) 0%nat (Symbol "list")
           [Number 1; Boolean true] empty_State [Number 1; Boolean true]
           empty_State eq_refl).
Defined.

Lemma is_list_loop_UnfoldList st : forall fuel object,
  is_list_loop fuel st object = Ret true
  <-> exists vs, UnfoldList fuel st object = Ret vs.
Proof.
  induction fuel as [| fuel IH]; intros object.
  - split; [discriminate | intros [vs H]; discriminate].
  - split.
    + destruct object as [| n | b | s | c | l]; cbn [is_list_loop];
        try discriminate.
      * intros _. now exists [].
      * destruct (cells st !! c) as [cell |] eqn:Hc; [| discriminate].
        intros H. apply IH in H as [vs Hvs].
        exists (first_ cell :: vs).
        now rewrite (UnfoldList_cell _ _ _ _ Hc), Hvs.
    + intros [vs H].
      destruct (UnfoldList_inv _ _ _ _ H) as [[-> ->] | [c ->]]; [reflexivity |].
      apply UnfoldList_cell_inv in H as (f' & cell & vs' & Hf & Hc & Hvs & ->).
      injection Hf as <-. cbn [is_list_loop]. rewrite Hc.
      apply IH. now exists vs'.
Qed.

Lemma eval_each_one Ev e st v st1 :
  Ev e st = (Ret v, st1) -> eval_each Ev [e] st = (Ret [v], st1).
Proof. intros H. cbn [eval_each]. now rewrite (bind_Ret _ _ _ _ _ H). Qed.

Lemma is_list_loop_UnfoldList_throws st : forall fuel object e,
  UnfoldList fuel st object = Throw e ->
  is_list_loop fuel st object = Ret false.
Proof.
  induction fuel as [| fuel IH]; intros object e H; [discriminate |].
  destruct object as [| n | b | s | c | l]; cbn [is_list_loop];
    try reflexivity.
  - discriminate.
  - destruct (cells st !! c) as [cell |] eqn:Hc.
    + rewrite (UnfoldList_cell _ _ _ _ Hc) in H.
      destruct (UnfoldList fuel st (second_ cell)) as [vs | e' | |] eqn:HU;
        try discriminate.
      now apply (IH _ e').
    + unfold UnfoldList in H. cbn [UnfoldList_loop] in H.
      rewrite Hc in H. discriminate.
Qed.

(** X13.  [list?] returns [#t] exactly when [UnfoldList] unfolds the value
    of its argument, a chain of cells that ends in the empty list, and
    returns [#f] when [UnfoldList] throws on it: the chain ends in an object
    that is neither a cell nor the empty list.  The value is released when
    [list?] returns; when it is data, nothing else changes. *)
Theorem is_list_when_UnfoldList_returns :
  forall fuel Ev scope command e st v st1,
    Ev scope e st = (Ret v, st1) ->
    (fst (cmd_is_list fuel Ev scope [command; e] st) = Ret (Boolean true)
     <-> exists vs, UnfoldList fuel st1 v = Ret vs)
    /\ (forall err,
           UnfoldList fuel st1 v = Throw err ->
           fst (cmd_is_list fuel Ev scope [command; e] st)
           = Ret (Boolean false))
    /\ (is_data st1 v ->
        snd (cmd_is_list fuel Ev scope [command; e] st) = st1).
Proof.
  intros fuel Ev scope command e st v st1 Hv.
  unfold cmd_is_list.
  rewrite (bind_Ret _ _ _ _ _
             (eval_args_cons _ command _ _ _ _ (eval_each_one _ _ _ _ _ Hv))).
  unfold bind, read, ret, GetBooleanConstant.
  split; [| split].
  - rewrite <- is_list_loop_UnfoldList.
    destruct (is_list_loop fuel st1 v) as [[] | | |]; cbn [fst];
      split; congruence.
  - intros err Herr.
    now rewrite (is_list_loop_UnfoldList_throws _ _ _ _ Herr).
  - intros _. now destruct (is_list_loop fuel st1 v).
Qed.

Lemma is_list_when_UnfoldList_returns_witness :
  fst (cmd_is_list 3%nat (Eval 2) 0%nat [Symbol "list?"; Symbol "v"]
         state_list_variable)
  = Ret (Boolean true)
  /\ fst (cmd_is_list 3%nat (Eval 2) 0%nat [Symbol "list?"; Number 1]
            state_list_variable)
     = Ret (Boolean false).
Proof.
  split.
  - apply (proj1 (is_list_when_UnfoldList_returns 3%nat (Eval 2) 0%nat
                    (Symbol "list?") (Symbol "v") state_list_variable
                    (CellPtr 0) state_list_variable eq_refl)).
    now exists [Number 7].
  - apply (proj1 (proj2 (is_list_when_UnfoldList_returns 3%nat (Eval 2) 0%nat
                           (Symbol "list?") (Number 1) state_list_variable
                           (Number 1) state_list_variable eq_refl))
             (RuntimeError "Expected list, but got: 1")).
    reflexivity.
Defined.








(** ** Pairs *)

Lemma eval_each_two Ev e1 e2 st a b st1 :
  eval_each Ev [e1; e2] st = (Ret [a; b], st1) ->
  exists sta, Ev e1 st = (Ret a, sta) /\ Ev e2 sta = (Ret b, st1).
Proof.
  intros H.
  apply eval_each_cons_inv in H as (v & vs & sta & Hv & H & Heq).
  apply eval_each_cons_inv in H as (w & ws & stb & Hw & H & ->).
  cbn in H. unfold ret in H. injection H as <- <-.
  injection Heq as <- <-. eauto.
Qed.





(** X18.  [set-car!] and [set-cdr!] on a name whose nearest binding holds a
    pair replace one field of that very cell, so that the change shows
    through every reference to the cell, and release the value that the
    field held: when that one is data, nothing else changes, and every scope
    is as it was.  When the binding holds another value, both throw the same
    [RuntimeError], whose message names [set-car!], after the expression was
    evaluated; its value is released then, and when it is data nothing else
    changes. *)
Theorem set_car_set_cdr_in_place :
  forall fuel Ev scope command name expression st value st1 h target,
    Ev scope expression st = (Ret value, st1) ->
    FindVariable fuel st1 scope name = Ret (Some h) ->
    slot_value st1 h name = Some target ->
    match target with
    | CellPtr c =>
      forall cell,
        cells st1 !! c = Some cell ->
        (is_data st1 (first_ cell) ->
         cmd_set_car fuel Ev scope [command; Symbol name; expression] st
         = (Ret nullptr, put_cell c (mkCell value (second_ cell)) st1))
        /\ (is_data st1 (second_ cell) ->
            cmd_set_cdr fuel Ev scope [command; Symbol name; expression] st
            = (Ret nullptr, put_cell c (mkCell (first_ cell) value) st1))
    | _ =>
      fst (cmd_set_car fuel Ev scope [command; Symbol name; expression] st)
      = Throw (RuntimeError "Cannot set-car! on a non-pair")
      /\ fst (cmd_set_cdr fuel Ev scope [command; Symbol name; expression] st)
         = Throw (RuntimeError "Cannot set-car! on a non-pair")
      /\ (is_data st1 value ->
          snd (cmd_set_car fuel Ev scope [command; Symbol name; expression]
                 st) = st1
          /\ snd (cmd_set_cdr fuel Ev scope
                    [command; Symbol name; expression] st) = st1)
    end.
Proof.
  intros fuel Ev scope command name expression st value st1 h target
    Hv HF Hslot.
  assert (Hcell : forall what,
             slot_cell fuel what scope name st1
             = match target with
               | CellPtr c => (Ret c, st1)
               | _ => (Throw (RuntimeError what), st1)
               end).
  { intros what. unfold slot_cell.
    rewrite (bind_Ret _ _ _ _ _ (read_Ret _ _ _ HF)), Hslot.
    now destruct target. }
  unfold cmd_set_car, cmd_set_cdr.
  rewrite !(bind_Ret _ _ _ _ _ Hv).
  destruct target as [| n | b | s | c | l];
    try (unfold bind; rewrite !Hcell;
         split; [reflexivity | split; [reflexivity |]];
         intros _; split; reflexivity).
  intros cell Hc.
  rewrite !(bind_Ret _ _ _ _ _ (Hcell _)).
  unfold with_cell, bind, modify, ret. rewrite Hc.
  split; intros _; reflexivity.
Qed.

Lemma set_car_set_cdr_in_place_witness :
  (cmd_set_car 2%nat (Eval 1) 0%nat [Symbol "set-car!"; Symbol "v"; Number 1]
     state_list_variable
   = (Ret nullptr, put_cell 0 (mkCell (Number 1) nullptr) state_list_variable)
   /\ cmd_set_cdr 2%nat (Eval 1) 0%nat
        [Symbol "set-cdr!"; Symbol "v"; Number 1] state_list_variable
      = (Ret nullptr,
         put_cell 0 (mkCell (Number 7) (Number 1)) state_list_variable))
  /\ fst (cmd_set_cdr 2%nat (Eval 1) 1%nat
            [Symbol "set-cdr!"; Symbol "f"; Number 1] state_outer_binding)
     = Throw (RuntimeError "Cannot set-car! on a non-pair").
Proof.
  split; [split |].
  - apply (set_car_set_cdr_in_place 2%nat (Eval 1) 0%nat (Symbol "set-car!")
             "v" (Number 1) state_list_variable (Number 1)
             state_list_variable 0%nat (CellPtr 0) eq_refl eq_refl eq_refl
             (mkCell (Number 7) nullptr) eq_refl).
    now exists (DNumber 7).
  - apply (set_car_set_cdr_in_place 2%nat (Eval 1) 0%nat (Symbol "set-cdr!")
             "v" (Number 1) state_list_variable (Number 1)
             state_list_variable 0%nat (CellPtr 0) eq_refl eq_refl eq_refl
             (mkCell (Number 7) nullptr) eq_refl).
    now exists DNil.
  - apply (set_car_set_cdr_in_place 2%nat (Eval 1) 1%nat (Symbol "set-cdr!")
             "f" (Number 1) state_outer_binding (Number 1)
             state_outer_binding 0%nat (Number 1) eq_refl eq_refl eq_refl).
Defined.

(** ** Closures and calls *)

Lemma put_scope_put_scope h x y st :
  put_scope h x (put_scope h y st) = put_scope h x st.
Proof.
  unfold put_scope. cbn [cells lambdas scopes].
  now rewrite list_insert_insert_eq.
Qed.

Lemma put_scope_id st h sc :
  get_scope st h = Some sc -> put_scope h (Some sc) st = st.
Proof.
  unfold get_scope, put_scope. intros H. destruct st as [cs ls ss].
  cbn [cells lambdas scopes] in *. f_equal.
  apply list_insert_id.
  destruct (ss !! h) as [[sc' |] |]; congruence.
Qed.

Lemma release_scope_put st h sc0 p v r n :
  get_scope st h = Some sc0 ->
  release_scope h (put_scope h (Some (mkScope p v r (S (S n)))) st)
  = put_scope h (Some (mkScope p v r (S n))) st.
Proof.
  intros H. unfold release_scope.
  rewrite get_scope_put_eq by (eapply get_scope_lt; eauto).
  cbn [use_count parent_ variables_ refs_]. apply put_scope_put_scope.
Qed.

Lemma bind_arguments_spec ls arg_names : forall args st sc,
  get_scope st ls = Some sc ->
  bind_arguments ls arg_names args st
  = (Ret tt,
     put_scope ls (Some (mkScope (parent_ sc)
                           (bound arg_names args (variables_ sc))
                           (refs_ sc) (use_count sc))) st).
Proof.
  induction arg_names as [| name arg_names IH]; intros args st sc Hsc.
  - cbn. unfold ret. f_equal. symmetry.
    destruct sc. now apply put_scope_id.
  - destruct args as [| arg args].
    + cbn. unfold ret. f_equal. symmetry.
      destruct sc. now apply put_scope_id.
    + cbn [bind_arguments bound].
      assert (HS : SetLocalVariable ls name arg st
                   = (Ret tt,
                      put_scope ls
                        (Some (mkScope (parent_ sc)
                                 (std_map_insert name arg (variables_ sc))
                                 (refs_ sc) (use_count sc))) st)).
      { unfold SetLocalVariable, with_scope, modify. now rewrite Hsc. }
      rewrite (bind_Ret _ _ _ _ _ HS).
      erewrite IH
        by (apply get_scope_put_eq; eapply get_scope_lt; eauto).
      cbn [parent_ variables_ refs_ use_count].
      now rewrite put_scope_put_scope.
Qed.

Lemma finally_completes {A} (m : M A) cleanup st r st' st'' :
  m st = (r, st') ->
  completes r = true ->
  cleanup st' = (Ret tt, st'') ->
  finally m cleanup st = (r, st'').
Proof.
  intros Hm Hr Hc. unfold finally. rewrite Hm.
  destruct r; try discriminate; now rewrite Hc.
Qed.

(** X19.  [Lambda::Call] once the frame is registered.  With as many
    arguments as parameters, the parameters are bound in the frame, the
    counter of the frame is incremented while the expressions are evaluated,
    and decremented when they have returned or thrown; the result is theirs.
    With another number of arguments the [RuntimeError] is thrown: nothing is
    bound and no expression is evaluated.  In both cases the frame stays,
    owned by [local_scopes_]. *)
Theorem Lambda_Call_body_protocol :
  forall fuel Ev l lam args ls st1 sc1,
    get_scope st1 ls = Some sc1 ->
    (length args = length (arg_names_ lam) ->
     forall r st3 sc3 n,
       eval_body (Ev ls) nullptr (expressions_ lam)
         (put_scope ls (Some (frame_in_call sc1 (arg_names_ lam) args)) st1)
       = (r, st3) ->
       completes r = true ->
       get_scope st3 ls = Some sc3 ->
       use_count sc3 = S (S (S n)) ->
       Lambda_Call_body fuel Ev l lam args ls st1
       = (r, put_scope ls (Some (frame_after_call sc3 (S n))) st3))
    /\ (length args <> length (arg_names_ lam) ->
        forall s n,
          Lambda_ToString fuel st1 l = Ret s ->
          use_count sc1 = S (S n) ->
          Lambda_Call_body fuel Ev l lam args ls st1
          = (Throw (RuntimeError
                      ("Invalid number of arguments in for lambda: " ++ s)),
             put_scope ls
               (Some (mkScope (parent_ sc1) (variables_ sc1) (refs_ sc1) (S n)))
               st1)).
Proof.
  intros fuel Ev l lam args ls st1 sc1 Hsc1.
  pose proof (get_scope_lt _ _ _ Hsc1) as Hlt.
  split.
  - intros Hlen r st3 sc3 n Hbody Hr Hsc3 Hu.
    unfold Lambda_Call_body. rewrite Hlen, Nat.eqb_refl. cbn [negb].
    assert (HA : forall p v rf u,
               acquire ls (put_scope ls (Some (mkScope p v rf u)) st1)
               = (Ret tt,
                  put_scope ls (Some (mkScope p v rf (S u))) st1)).
    { intros p v rf u. unfold acquire, with_scope, modify.
      rewrite get_scope_put_eq by exact Hlt.
      cbn [parent_ variables_ refs_ use_count].
      now rewrite put_scope_put_scope. }
    assert (HR : forall p v rf u,
               AddRef ls (put_scope ls (Some (mkScope p v rf u)) st1)
               = (Ret tt,
                  put_scope ls
                    (Some (mkScope p v (size_t_wrap (rf + 1)) u)) st1)).
    { intros p v rf u. unfold AddRef, with_scope, modify.
      rewrite get_scope_put_eq by exact Hlt.
      cbn [parent_ variables_ refs_ use_count].
      now rewrite put_scope_put_scope. }
    assert (HC : (DelRef ls ;;; release ls) st3
                 = (Ret tt,
                    put_scope ls (Some (frame_after_call sc3 (S (S n)))) st3)).
    { assert (HD : DelRef ls st3
                   = (Ret tt,
                      put_scope ls
                        (Some (frame_after_call sc3 (S (S (S n))))) st3)).
      { unfold DelRef, with_scope, modify. rewrite Hsc3, Hu. reflexivity. }
      rewrite (bind_Ret _ _ _ _ _ HD). unfold release, modify.
      unfold frame_after_call.
      now rewrite (release_scope_put _ _ _ _ _ _ _ Hsc3). }
    eapply finally_completes; [| exact Hr |].
    + rewrite (bind_Ret _ _ _ _ _ (bind_arguments_spec _ _ _ _ _ Hsc1)).
      rewrite (bind_Ret _ _ _ _ _ (HA _ _ _ _)).
      rewrite (bind_Ret _ _ _ _ _ (HR _ _ _ _)).
      fold (frame_in_call sc1 (arg_names_ lam) args).
      eapply finally_completes; [exact Hbody | exact Hr | exact HC].
    + unfold release, modify, frame_after_call.
      now rewrite (release_scope_put _ _ _ _ _ _ _ Hsc3).
  - intros Hlen s n Hs Hu.
    unfold Lambda_Call_body.
    apply Nat.eqb_neq in Hlen. rewrite Hlen. cbn [negb].
    eapply finally_completes.
    + rewrite (bind_Ret _ _ _ _ _ (read_Ret _ _ _ Hs)). reflexivity.
    + reflexivity.
    + unfold release, modify. f_equal.
      unfold release_scope. rewrite Hsc1, Hu. reflexivity.
Qed.

Lemma Lambda_Call_body_protocol_witness :
  Lambda_Call_body 3 (Eval 3) 0 (mkLambda ["x"] (Some 0%nat) [Symbol "x"] [1%nat])
    [Number 5] 1 state_in_call
  = (Ret (Number 5),
     put_scope 1
       (Some (frame_after_call
                (frame_in_call (mkScope (Some 0%nat) ∅ 0 2) ["x"] [Number 5])
                1))
       (put_scope 1
          (Some (frame_in_call (mkScope (Some 0%nat) ∅ 0 2) ["x"] [Number 5]))
          state_in_call)).
Proof.
  refine (proj1 (Lambda_Call_body_protocol 3 (Eval 3) 0
                   (mkLambda ["x"] (Some 0%nat) [Symbol "x"] [1%nat])
                   [Number 5] 1 state_in_call (mkScope (Some 0%nat) ∅ 0 2)
                   eq_refl) eq_refl (Ret (Number 5)) _ _ 0%nat _ eq_refl _ _).
  - vm_compute. reflexivity.
  - vm_compute. reflexivity.
  - reflexivity.
Defined.

Lemma std_map_insert_lookup name arg variables other :
  std_map_insert name arg variables !! other
  = match variables !! other with
    | Some value => Some value
    | None => if decide (other = name) then Some arg else None
    end.
Proof.
  unfold std_map_insert.
  destruct (variables !! name) as [old |] eqn:Hn.
  - destruct (variables !! other) eqn:Ho; [reflexivity |].
    destruct (decide (other = name)) as [-> | _]; congruence.
  - destruct (decide (other = name)) as [-> | Hne].
    + rewrite lookup_insert_eq. now rewrite Hn.
    + rewrite lookup_insert_ne by congruence.
      now destruct (variables !! other).
Qed.

Lemma bound_keeps arg_names : forall args variables name value,
  variables !! name = Some value ->
  bound arg_names args variables !! name = Some value.
Proof.
  induction arg_names as [| n arg_names IH]; intros args variables name value H;
    [exact H |].
  destruct args as [| a args]; [exact H |].
  cbn [bound]. apply IH. rewrite std_map_insert_lookup. now rewrite H.
Qed.

Lemma bound_first arg_names : forall args variables i name arg,
  arg_names !! i = Some name ->
  args !! i = Some arg ->
  (forall j, (j < i)%nat -> arg_names !! j <> Some name) ->
  variables !! name = None ->
  bound arg_names args variables !! name = Some arg.
Proof.
  induction arg_names as [| n arg_names IH];
    intros args variables i name arg Hn Ha Hfirst Hnone; [discriminate |].
  destruct args as [| a args]; [discriminate |].
  cbn [bound]. destruct i as [| i].
  - cbn in Hn, Ha. injection Hn as ->. injection Ha as ->.
    apply bound_keeps. rewrite std_map_insert_lookup, Hnone.
    now rewrite decide_True.
  - cbn in Hn, Ha. apply (IH _ _ i); try assumption.
    + intros j Hj. apply (Hfirst (S j)). lia.
    + rewrite std_map_insert_lookup, Hnone.
      rewrite decide_False; [reflexivity |].
      intros ->. now apply (Hfirst 0%nat ltac:(lia)).
Qed.

(** X20.  The loop of [Lambda::Call] that binds the parameters: a name is
    bound to the argument at its first position among the parameters; the
    arguments at its later positions are dropped. *)
Theorem parameter_bound_at_first_position :
  forall ls arg_names args st sc i name arg,
    get_scope st ls = Some sc ->
    variables_ sc !! name = None ->
    arg_names !! i = Some name ->
    args !! i = Some arg ->
    (forall j, (j < i)%nat -> arg_names !! j <> Some name) ->
    exists st',
      bind_arguments ls arg_names args st = (Ret tt, st')
      /\ slot_value st' ls name = Some arg.
Proof.
  intros ls arg_names args st sc i name arg Hsc Hnone Hn Ha Hfirst.
  eexists. split; [apply (bind_arguments_spec _ _ _ _ _ Hsc) |].
  rewrite (slot_value_put _ _ _ _ _ _ _ _ _ Hsc), decide_True by reflexivity.
  now apply (bound_first _ _ _ i).
Qed.

Lemma parameter_bound_at_first_position_witness :
  exists st',
    bind_arguments 1 ["x"; "y"; "x"] [Number 1; Number 2; Number 3]
      state_in_call
    = (Ret tt, st')
    /\ slot_value st' 1 "x" = Some (Number 1).
Proof.
  apply (parameter_bound_at_first_position 1 ["x"; "y"; "x"]
           [Number 1; Number 2; Number 3] state_in_call
           (mkScope (Some 0%nat) ∅ 0 2) 0 "x" (Number 1)).
  - reflexivity.
  - reflexivity.
  - reflexivity.
  - reflexivity.
  - intros j Hj. lia.
Defined.

Lemma SymbolToName_each_symbols fuel st names :
  SymbolToName_each fuel st (map Symbol names) = Ret names.
Proof.
  induction names as [| name names IH]; [reflexivity |].
  cbn [map SymbolToName_each SymbolToName obind]. now rewrite IH.
Qed.

(** X21.  [lambda] with a list of symbols for parameters and one expression
    or more returns a new closure that holds the names, the expressions as
    they are and the scope of the interpreter, whose counter it increments;
    no expression is evaluated.  With parameters of which one is not a
    symbol it throws the [SyntaxError] and leaves the state as it is. *)
Theorem lambda_captures_scope :
  forall fuel Ev scope command parameters expression expressions st ps sc,
    UnfoldList fuel st parameters = Ret ps ->
    get_scope st scope = Some sc ->
    (forall names,
        ps = map Symbol names ->
        cmd_lambda fuel Ev scope
          (command :: parameters :: expression :: expressions) st
        = (Ret (LambdaPtr (length (lambdas st))),
           put_scope scope
             (Some (mkScope (parent_ sc) (variables_ sc)
                      (size_t_wrap (refs_ sc + 1)) (use_count sc)))
             (mkState (cells st)
                (lambdas st
                 ++ [mkLambda names (Some scope) (expression :: expressions)
                       []])
                (scopes st))))
    /\ (forall e,
           SymbolToName_each fuel st ps = Throw e ->
           cmd_lambda fuel Ev scope
             (command :: parameters :: expression :: expressions) st
           = (Throw (SyntaxError "Invalid lambda"), st)).
Proof.
  intros fuel Ev scope command parameters expression expressions st ps sc
    Hps Hsc.
  unfold cmd_lambda. split.
  - intros names ->.
    assert (Hnames : catch_all
                       (list <- read (fun st => UnfoldList fuel st parameters) ;;
                        read (fun st => SymbolToName_each fuel st list))
                       (throw (SyntaxError "Invalid lambda")) st
                     = (Ret names, st)).
    { unfold catch_all.
      rewrite (bind_Ret _ _ _ _ _ (read_Ret _ _ _ Hps)).
      unfold read. now rewrite SymbolToName_each_symbols. }
    rewrite (bind_Ret _ _ _ _ _ Hnames).
    unfold bind at 1, new_Lambda. cbv zeta.
    set (st' := mkState (cells st) _ (scopes st)).
    assert (Hg : get_scope st' scope = Some sc) by exact Hsc.
    unfold expired. rewrite Hg.
    unfold bind, AddRef, with_scope, modify, ret. rewrite Hg. reflexivity.
  - intros e He. unfold bind at 1, catch_all.
    rewrite (bind_Ret _ _ _ _ _ (read_Ret _ _ _ Hps)).
    unfold read. rewrite He. reflexivity.
Qed.

Lemma lambda_captures_scope_witness :
  cmd_lambda 3%nat (Eval 3) 0%nat [Symbol "lambda"; CellPtr 0; Symbol "f"]
    state_outer_binding
  = (Ret (LambdaPtr 0),
     put_scope 0 (Some (mkScope None {[ "f" := Number 1 ]} 2 1))
       (mkState (cells state_outer_binding)
          [mkLambda ["f"] (Some 0%nat) [Symbol "f"] []]
          (scopes state_outer_binding))).
Proof.
  exact (proj1 (lambda_captures_scope 3%nat (Eval 3) 0%nat (Symbol "lambda")
                  (CellPtr 0) (Symbol "f") [] state_outer_binding
                  [Symbol "f"] (mkScope None {[ "f" := Number 1 ]} 1 1)
                  eq_refl eq_refl) ["f"] eq_refl).
Defined.

(** X22.  A form whose first element is not the name of a command: the
    first element is evaluated first; when its value is a closure the other
    elements are evaluated in their order, [Lambda::Call] is given their
    values, and what it returns or throws is what [Eval] returns or throws;
    when it is not, [Eval] throws the [RuntimeError] that shows the form,
    and the other elements are not evaluated.  [Eval] releases the values
    when it ends: the statement is about its result, and about the state
    when the value released is data. *)
Theorem Eval_applies_closures_only :
  forall fuel Ev scope object front rest st v st1,
    UnfoldList fuel st object = Ret (front :: rest) ->
    (forall name, front = Symbol name -> commands_ name = None) ->
    Ev scope front st = (Ret v, st1) ->
    match v with
    | LambdaPtr lambda =>
      forall args st2,
        eval_each (Ev scope) rest st1 = (Ret args, st2) ->
        fst (Eval_step fuel Ev scope object st)
        = fst (Lambda_Call fuel Ev lambda args st2)
    | _ =>
      forall s,
        ToString fuel st1 object = Ret s ->
        fst (Eval_step fuel Ev scope object st)
        = Throw (RuntimeError ("Cannot evaluate: " ++ s))
        /\ (is_data st1 v -> snd (Eval_step fuel Ev scope object st) = st1)
    end.
Proof.
  intros fuel Ev scope object front rest st v st1 HU Hfront Hv.
  destruct (UnfoldList_cons_cell _ _ _ _ _ HU) as [c ->].
  assert (Hstep : Eval_step fuel Ev scope (CellPtr c) st
                  = Eval_apply fuel Ev scope (CellPtr c) front rest st).
  { unfold Eval_step. rewrite (bind_Ret _ _ _ _ _ (read_Ret _ _ _ HU)).
    destruct front as [| n | b | name | c' | l]; try reflexivity.
    now rewrite (Hfront name eq_refl). }
  rewrite Hstep. unfold Eval_apply. rewrite (bind_Ret _ _ _ _ _ Hv).
  destruct v as [| n | b | name | c' | l];
    try (intros s Hs; rewrite (cannot_evaluate_throws _ _ _ _ Hs);
         split; [reflexivity | intros _; reflexivity]).
  intros args st2 Hargs. now rewrite (bind_Ret _ _ _ _ _ Hargs).
Qed.

Lemma Eval_applies_closures_only_witness :
  fst (Eval_step 3%nat (Eval 3) 0%nat (CellPtr 0) state_list_variable)
  = Throw (RuntimeError "Cannot evaluate: (7)")
  /\ fst (Eval_step 4%nat (Eval 4) 0%nat (CellPtr 1) state_apply_closure)
     = Ret (Number 5).
Proof.
  split.
  - apply (Eval_applies_closures_only 3%nat (Eval 3) 0%nat (CellPtr 0)
             (Number 7) [] state_list_variable (Number 7)
             state_list_variable).
    + reflexivity.
    + discriminate.
    + reflexivity.
    + reflexivity.
  - etransitivity.
    + apply (Eval_applies_closures_only 4%nat (Eval 4) 0%nat (CellPtr 1)
               (Symbol "f") [Number 5] state_apply_closure (LambdaPtr 0)
               state_apply_closure).
      * reflexivity.
      * intros name [= <-]. reflexivity.
      * reflexivity.
      * reflexivity.
    + vm_compute. reflexivity.
Defined.

(** ** The reader and the printer on data *)

Lemma extends_refl st : extends st st.
Proof. exists 0%nat. apply allocates_refl. Qed.

Lemma extends_trans st1 st2 st3 :
  extends st1 st2 -> extends st2 st3 -> extends st1 st3.
Proof.
  intros [n H1] [m H2]. exists (n + m)%nat.
  now apply (allocates_trans _ st2).
Qed.

Lemma extends_lookup st st' c cell :
  extends st st' -> cells st !! c = Some cell -> cells st' !! c = Some cell.
Proof.
  intros [n [[new [Hc _]] _]] H. rewrite Hc. now apply lookup_app_l_Some.
Qed.

Lemma denotes_extends st st' d : forall object,
  extends st st' -> denotes st object d -> denotes st' object d.
Proof.
  induction d as [| | | | a IHa b IHb]; intros object He H; try exact H.
  destruct H as (c & cell & -> & Hc & Ha & Hb).
  exists c, cell. repeat split; auto.
  now apply (extends_lookup st).
Qed.

Lemma spine_extends st st' elements : forall result d,
  extends st st' -> spine st elements result d -> spine st' elements result d.
Proof.
  induction elements as [| element rest IH]; intros result d He H.
  - now apply (denotes_extends st).
  - destruct d; try contradiction. destruct H as [H1 H2].
    split; [now apply (denotes_extends st) | now apply IH].
Qed.

Lemma build_list_app l1 : forall l2 result st,
  build_list (l1 ++ l2)%list result st
  = (object <- build_list l1 result ;; build_list l2 object) st.
Proof.
  induction l1 as [| a l1 IH]; intros l2 result st; [reflexivity |].
  cbn [app build_list].
  rewrite (bind_Ret _ _ _ _ _ (proj1 (new_Cell_allocates a result st))).
  rewrite IH. reflexivity.
Qed.

Lemma build_list_spine elements : forall result d st,
  spine st elements result d ->
  exists object st',
    build_list (rev elements) result st = (Ret object, st')
    /\ denotes st' object d
    /\ extends st st'.
Proof.
  induction elements as [| element rest IH]; intros result d st H.
  - exists result, st. split; [reflexivity |]. split; [exact H |].
    apply extends_refl.
  - destruct d as [| | | | a b]; try contradiction. destruct H as [Ha Hb].
    destruct (IH _ _ _ Hb) as (tail & st1 & Hbuild & Htail & Hext).
    destruct (new_Cell_allocates element tail st1) as [Hnew Halloc].
    set (st2 := mkState (cells st1 ++ [mkCell element tail]) (lambdas st1)
                  (scopes st1)) in *.
    assert (Hext2 : extends st1 st2) by (now exists 1%nat).
    exists (CellPtr (length (cells st1))), st2. split; [| split].
    + cbn [rev]. rewrite build_list_app, (bind_Ret _ _ _ _ _ Hbuild).
      cbn [build_list]. now rewrite (bind_Ret _ _ _ _ _ Hnew).
    + exists (length (cells st1)), (mkCell element tail).
      split; [reflexivity |]. split.
      * cbn [cells st2]. rewrite lookup_app_r by lia.
        now rewrite Nat.sub_diag.
      * cbn [first_ second_]. split.
        -- apply (denotes_extends st); [| exact Ha].
           now apply (extends_trans _ st1).
        -- now apply (denotes_extends st1).
    + now apply (extends_trans _ st1).
Qed.

Lemma ReadList_loop_element fuel objects a more st :
  ReadList_loop (S fuel) objects (tokens_of a ++ more)%list st
  = (r <- Read fuel (tokens_of a ++ more)%list ;;
     ReadList_loop fuel (objects ++ [fst r])%list (snd r)) st.
Proof. destruct a; reflexivity. Qed.

Lemma Read_tokens_of d :
  (forall fuel after st,
      (weight d < fuel)%nat ->
      exists object st',
        Read fuel (tokens_of d ++ after)%list st = (Ret (object, after), st')
        /\ denotes st' object d
        /\ extends st st')
  /\ (forall fuel objects after st,
         (weight d <= fuel)%nat ->
         objects <> [] \/ d = DNil \/ (exists a b, d = DPair a b) ->
         stops after ->
         exists elements result st',
           ReadList_loop fuel objects (tail_tokens d ++ after)%list st
           = (Ret ((objects ++ elements)%list, result, after), st')
           /\ spine st' elements result d
           /\ extends st st').
Proof.
  induction d as [| n | b | s | a [IHa _] b [_ IHb]].
  - split.
    + intros fuel after st Hf.
      destruct fuel as [| [| fuel]]; cbn in Hf; try lia.
      exists nullptr, st. split; [reflexivity |]. split; [reflexivity |].
      apply extends_refl.
    + intros fuel objects after st Hf _ Hstop.
      destruct fuel as [| fuel]; cbn in Hf; try lia.
      exists [], nullptr, st. rewrite app_nil_r.
      split; [| split; [reflexivity | apply extends_refl]].
      destruct Hstop as [-> | [rest ->]]; reflexivity.
  - split.
    + intros fuel after st Hf. destruct fuel as [| fuel]; cbn in Hf; try lia.
      exists (Number n), st. split; [reflexivity |]. split; [reflexivity |].
      apply extends_refl.
    + intros fuel objects after st Hf Hobj _.
      destruct fuel as [| [| fuel]]; cbn in Hf; try lia.
      exists [], (Number n), st. rewrite app_nil_r.
      split; [| split; [reflexivity | apply extends_refl]].
      destruct objects as [| o objects]; [| reflexivity].
      destruct Hobj as [H | [H | (? & ? & H)]]; congruence.
  - split.
    + intros fuel after st Hf. destruct fuel as [| fuel]; cbn in Hf; try lia.
      exists (Boolean b), st. split; [reflexivity |]. split; [reflexivity |].
      apply extends_refl.
    + intros fuel objects after st Hf Hobj _.
      destruct fuel as [| [| fuel]]; cbn in Hf; try lia.
      exists [], (Boolean b), st. rewrite app_nil_r.
      split; [| split; [reflexivity | apply extends_refl]].
      destruct objects as [| o objects]; [| reflexivity].
      destruct Hobj as [H | [H | (? & ? & H)]]; congruence.
  - split.
    + intros fuel after st Hf. destruct fuel as [| fuel]; cbn in Hf; try lia.
      exists (Symbol s), st. split; [reflexivity |]. split; [reflexivity |].
      apply extends_refl.
    + intros fuel objects after st Hf Hobj _.
      destruct fuel as [| [| fuel]]; cbn in Hf; try lia.
      exists [], (Symbol s), st. rewrite app_nil_r.
      split; [| split; [reflexivity | apply extends_refl]].
      destruct objects as [| o objects]; [| reflexivity].
      destruct Hobj as [H | [H | (? & ? & H)]]; congruence.
  - assert (HQ : forall fuel objects after st,
               (weight (DPair a b) <= fuel)%nat ->
               stops after ->
               exists elements result st',
                 ReadList_loop fuel objects
                   (tail_tokens (DPair a b) ++ after)%list st
                 = (Ret ((objects ++ elements)%list, result, after), st')
                 /\ spine st' elements result (DPair a b)
                 /\ extends st st').
    { intros fuel objects after st Hf Hstop.
      destruct fuel as [| fuel]; cbn [weight] in Hf; try lia.
      cbn [tail_tokens]. rewrite <- app_assoc, ReadList_loop_element.
      destruct (IHa fuel (tail_tokens b ++ after)%list st ltac:(lia))
        as (oa & st1 & HRa & Hda & He1).
      rewrite (bind_Ret _ _ _ _ _ HRa). cbn [fst snd].
      destruct (IHb fuel (objects ++ [oa])%list after st1 ltac:(lia))
        as (elements & result & st2 & HRb & Hsp & He2); [| exact Hstop |].
      { left. now destruct objects. }
      exists (oa :: elements), result, st2. split; [| split].
      - rewrite HRb. now rewrite <- app_assoc.
      - split; [now apply (denotes_extends st1) | exact Hsp].
      - now apply (extends_trans _ st1). }
    split.
    + intros fuel after st Hf. destruct fuel as [| fuel]; [lia |].
      cbn [tokens_of app]. unfold LP at 1. cbn [Read].
      rewrite <- !app_assoc. cbn [app].
      destruct (HQ fuel [] (RP :: after) st ltac:(lia))
        as (elements & result & st1 & HR & Hsp & He1);
        [right; now exists after |].
      cbn [tail_tokens] in HR. rewrite <- app_assoc in HR.
      rewrite (bind_Ret _ _ _ _ _ HR). unfold RP. cbn [app].
      destruct (build_list_spine _ _ _ _ Hsp) as (object & st2 & HB & Hd & He2).
      exists object, st2. split; [| split].
      * now rewrite (bind_Ret _ _ _ _ _ HB).
      * exact Hd.
      * now apply (extends_trans _ st1).
    + intros fuel objects after st Hf _ Hstop. now apply HQ.
Qed.

Lemma denotes_quoted st object d c1 c2 :
  cells st !! c2 = Some (mkCell (Symbol "quote") (CellPtr c1)) ->
  cells st !! c1 = Some (mkCell object nullptr) ->
  denotes st object d ->
  denotes st (CellPtr c2) (quoted d).
Proof.
  intros H2 H1 Hd.
  exists c2, (mkCell (Symbol "quote") (CellPtr c1)).
  repeat split; try assumption.
  exists c1, (mkCell object nullptr). repeat split; assumption.
Qed.

Lemma Read_quote d fuel after st :
  (weight d < fuel)%nat ->
  exists object c1 c2 st',
    Read (S fuel) (QuoteToken :: tokens_of d ++ after)%list st
    = (Ret (CellPtr c2, after), st')
    /\ cells st' !! c2 = Some (mkCell (Symbol "quote") (CellPtr c1))
    /\ cells st' !! c1 = Some (mkCell object nullptr)
    /\ denotes st' object d
    /\ extends st st'.
Proof.
  intros Hf.
  destruct (proj1 (Read_tokens_of d) fuel after st Hf)
    as (object & st1 & HR & Hd & He).
  destruct (new_Cell_allocates object nullptr st1) as [Hn1 Ha1].
  set (st2 := mkState (cells st1 ++ [mkCell object nullptr]) (lambdas st1)
                (scopes st1)) in *.
  destruct (new_Cell_allocates (Symbol "quote") (CellPtr (length (cells st1)))
              st2) as [Hn2 Ha2].
  set (st3 := mkState (cells st2 ++ _) (lambdas st2) (scopes st2)) in *.
  assert (He2 : extends st1 st2) by (now exists 1%nat).
  assert (He3 : extends st2 st3) by (now exists 1%nat).
  assert (Hc1 : cells st2 !! length (cells st1) = Some (mkCell object nullptr)).
  { cbn [cells st2]. rewrite lookup_app_r by lia. now rewrite Nat.sub_diag. }
  exists object, (length (cells st1)), (length (cells st2)), st3.
  split; [| split; [| split; [| split]]].
  - cbn [Read]. rewrite (bind_Ret _ _ _ _ _ HR). cbn [fst snd].
    rewrite (bind_Ret _ _ _ _ _ Hn1), (bind_Ret _ _ _ _ _ Hn2). reflexivity.
  - cbn [cells st3]. rewrite lookup_app_r by lia. now rewrite Nat.sub_diag.
  - now apply (extends_lookup st2).
  - apply (denotes_extends st1); [| exact Hd]. now apply (extends_trans _ st2).
  - apply (extends_trans _ st1); [exact He |]. now apply (extends_trans _ st2).
Qed.

(** X23.  [Read] on the tokens of a datum, followed by any tokens: with
    fuel above the weight of the datum it returns an object that is the
    datum, built of new cells, and the tokens that follow; on the same
    tokens after a quote token it returns the list of the symbol [quote] and
    the datum. *)
Theorem Read_builds_the_datum :
  forall d fuel rest st,
    (weight d < fuel)%nat ->
    (exists object st',
        Read fuel (tokens_of d ++ rest)%list st = (Ret (object, rest), st')
        /\ denotes st' object d
        /\ extends st st')
    /\ (exists object st',
           Read (S fuel) (QuoteToken :: tokens_of d ++ rest)%list st
           = (Ret (object, rest), st')
           /\ denotes st' object (quoted d)
           /\ extends st st').
Proof.
  intros d fuel rest st Hf. split.
  - now apply (proj1 (Read_tokens_of d)).
  - destruct (Read_quote d fuel rest st Hf)
      as (object & c1 & c2 & st' & HR & H2 & H1 & Hd & He).
    exists (CellPtr c2), st'. split; [exact HR |]. split; [| exact He].
    now apply (denotes_quoted _ object _ c1).
Qed.

Lemma Read_builds_the_datum_witness :
  (exists object st',
      Read 7 (tokens_of (DPair (DNumber 1) (DSymbol "x")) ++ [RP])%list
        empty_State
      = (Ret (object, [RP]), st')
      /\ denotes st' object (DPair (DNumber 1) (DSymbol "x"))
      /\ extends empty_State st')
  /\ (exists object st',
         Read 8
           (QuoteToken :: tokens_of (DPair (DNumber 1) (DSymbol "x")) ++ [RP])%list
           empty_State
         = (Ret (object, [RP]), st')
         /\ denotes st' object (quoted (DPair (DNumber 1) (DSymbol "x")))
         /\ extends empty_State st').
Proof.
  apply (Read_builds_the_datum (DPair (DNumber 1) (DSymbol "x")) 7 [RP]
           empty_State).
  cbn. lia.
Defined.

Lemma ToString_render d :
  (forall fuel st object,
      denotes st object d -> (weight d < fuel)%nat ->
      ToString fuel st object = Ret (render d))
  /\ (forall fuel st object result,
         denotes st object d -> (weight d <= fuel)%nat ->
         ListToString_loop fuel st result false object
         = Ret (result ++ render_tail d)).
Proof.
  induction d as [| n | b | s | a [IHa _] b [_ IHb]].
  - split.
    + intros fuel st object -> Hf. destruct fuel; [cbn in Hf; lia |].
      reflexivity.
    + intros fuel st object result -> Hf. destruct fuel; [cbn in Hf; lia |].
      reflexivity.
  - split.
    + intros fuel st object -> Hf. destruct fuel; [cbn in Hf; lia |].
      reflexivity.
    + intros fuel st object result -> Hf.
      destruct fuel as [| [| fuel]]; cbn in Hf; try lia. reflexivity.
  - split.
    + intros fuel st object -> Hf. destruct fuel; [cbn in Hf; lia |].
      reflexivity.
    + intros fuel st object result -> Hf.
      destruct fuel as [| [| fuel]]; cbn in Hf; try lia. reflexivity.
  - split.
    + intros fuel st object -> Hf. destruct fuel; [cbn in Hf; lia |].
      reflexivity.
    + intros fuel st object result -> Hf.
      destruct fuel as [| [| fuel]]; cbn in Hf; try lia. reflexivity.
  - split.
    + intros fuel st object (c & cell & -> & Hc & Ha & Hb) Hf.
      destruct fuel as [| [| fuel]]; cbn [weight] in Hf; try lia.
      cbn [ToString ListToString_loop]. rewrite Hc.
      rewrite (IHa fuel st _ Ha) by lia. cbn [obind].
      rewrite (IHb fuel st _ _ Hb) by lia.
      cbn [render]. now rewrite append_assoc.
    + intros fuel st object result (c & cell & -> & Hc & Ha & Hb) Hf.
      destruct fuel as [| fuel]; cbn [weight] in Hf; try lia.
      cbn [ListToString_loop]. rewrite Hc.
      rewrite (IHa fuel st _ Ha) by lia. cbn [obind].
      rewrite (IHb fuel st _ _ Hb) by lia.
      cbn [render_tail]. now rewrite !append_assoc.
Qed.

(** X24.  [ToString] of an object that is a datum, with fuel above the
    weight of the datum, returns the text of the datum: a chain of pairs is
    written as a list, with a dot before its end when that is not the empty
    list. *)
Theorem ToString_renders_the_datum :
  forall d fuel st object,
    denotes st object d ->
    (weight d < fuel)%nat ->
    ToString fuel st object = Ret (render d).
Proof. intros d. exact (proj1 (ToString_render d)). Qed.

Lemma ToString_renders_the_datum_witness :
  ToString 7 (mkState [mkCell (Number 1) (Symbol "x")] [] []) (CellPtr 0)
  = Ret "(1 . x)".
Proof.
  apply (ToString_renders_the_datum (DPair (DNumber 1) (DSymbol "x")) 7
           (mkState [mkCell (Number 1) (Symbol "x")] [] []) (CellPtr 0)).
  - exists 0%nat, (mkCell (Number 1) (Symbol "x")). repeat split.
  - cbn. lia.
Defined.

(** X25.  [Run] on a quote token and the tokens of a datum returns the
    text of the datum: the reader, the evaluation of [quote] and the printer
    compose to the identity.  No scope is read or written. *)
Theorem Run_quote_round_trip :
  forall d fuel scope st,
    (S (weight d) < fuel)%nat ->
    exists st',
      Run fuel scope (QuoteToken :: tokens_of d) st = (Ret (render d), st')
      /\ extends st st'.
Proof.
  intros d fuel scope st Hf.
  destruct fuel as [| fuel]; [lia |].
  destruct (Read_quote d fuel [] st ltac:(lia))
    as (object & c1 & c2 & st' & HR & H2 & H1 & Hd & He).
  rewrite app_nil_r in HR.
  exists st'. split; [| exact He].
  unfold Run. rewrite (bind_Ret _ _ _ _ _ HR). cbn [fst snd].
  assert (Hfuel : exists f, fuel = S (S (S f))).
  { pose proof (weight d) as w. destruct d; cbn [weight] in Hf;
      destruct fuel as [| [| [| f]]]; try lia; eauto. }
  destruct Hfuel as [f ->].
  assert (HU : UnfoldList (S (S (S f))) st' (CellPtr c2)
               = Ret [Symbol "quote"; object]).
  { rewrite (UnfoldList_cell _ _ _ _ H2). cbn [first_ second_].
    rewrite (UnfoldList_cell _ _ _ _ H1). reflexivity. }
  assert (HE : Eval (S (S (S (S f)))) scope (CellPtr c2) st'
               = (Ret object, st')).
  { cbn [Eval].
    rewrite (Eval_step_command _ _ _ _ _ _ _ _ HU eq_refl). reflexivity. }
  rewrite (bind_Ret _ _ _ _ _ HE). unfold read.
  now rewrite (proj1 (ToString_render d) _ _ _ Hd) by lia.
Qed.

Lemma Run_quote_round_trip_witness :
  exists st',
    Run 12 0 (QuoteToken :: tokens_of (DPair (DSymbol "a") (DPair (DNumber 2) DNil)))
      empty_State
    = (Ret "(a 2)", st')
    /\ extends empty_State st'.
Proof.
  apply (Run_quote_round_trip (DPair (DSymbol "a") (DPair (DNumber 2) DNil)) 12
           0 empty_State).
  cbn. lia.
Defined.

(** X26.  [Equal] on two objects that are data, with fuel from the weight
    of the first datum on, returns whether the two data are the same. *)
Theorem Equal_decides_data :
  forall d1 fuel st object1 object2 d2,
    denotes st object1 d1 ->
    denotes st object2 d2 ->
    (weight d1 <= fuel)%nat ->
    Equal fuel st object1 object2 = Ret (bool_decide (d1 = d2)).
Proof.
  induction d1 as [| n | b | s | a1 IHa b1 IHb];
    intros fuel st object1 object2 d2 H1 H2 Hf.
  - cbn in H1. subst object1. destruct fuel; [cbn in Hf; lia |].
    destruct d2; cbn in H2; try (destruct H2 as (c & cell & -> & _));
      subst; reflexivity.
  - cbn in H1. subst object1. destruct fuel; [cbn in Hf; lia |].
    destruct d2 as [| n' | | |]; cbn in H2;
      try (destruct H2 as (c & cell & -> & _)); subst; try reflexivity.
    cbn [Equal]. f_equal. destruct (Z.eqb_spec n n') as [-> | Hne].
    + now rewrite bool_decide_eq_true_2.
    + rewrite bool_decide_eq_false_2; congruence.
  - cbn in H1. subst object1. destruct fuel; [cbn in Hf; lia |].
    destruct d2 as [| | b' | |]; cbn in H2;
      try (destruct H2 as (c & cell & -> & _)); subst; try reflexivity.
    cbn [Equal]. f_equal. now destruct b, b'.
  - cbn in H1. subst object1. destruct fuel; [cbn in Hf; lia |].
    destruct d2 as [| | | s' |]; cbn in H2;
      try (destruct H2 as (c & cell & -> & _)); subst; try reflexivity.
    cbn [Equal]. f_equal. destruct (String.eqb_spec s' s) as [-> | Hne].
    + now rewrite bool_decide_eq_true_2.
    + rewrite bool_decide_eq_false_2; congruence.
  - destruct H1 as (c1 & cell1 & -> & Hc1 & Ha1 & Hb1).
    destruct fuel; [cbn in Hf; lia |]. cbn [weight] in Hf.
    destruct d2 as [| | | | a2 b2]; cbn [denotes] in H2;
      try (subst object2; reflexivity).
    destruct H2 as (c2 & cell2 & -> & Hc2 & Ha2 & Hb2).
    cbn [Equal]. rewrite Hc1, Hc2.
    rewrite (IHa fuel st _ _ a2 Ha1 Ha2) by lia. cbn [obind].
    destruct (decide (a1 = a2)) as [-> | Hne].
    + rewrite bool_decide_eq_true_2 by reflexivity.
      rewrite (IHb fuel st _ _ b2 Hb1 Hb2) by lia. f_equal.
      destruct (decide (b1 = b2)) as [-> | Hne].
      * now rewrite !bool_decide_eq_true_2.
      * rewrite !bool_decide_eq_false_2; congruence.
    + rewrite !bool_decide_eq_false_2; congruence.
Qed.

Lemma Equal_decides_data_witness :
  Equal 6 (mkState [mkCell (Number 1) nullptr; mkCell (Number 1) nullptr] [] [])
    (CellPtr 0) (CellPtr 1)
  = Ret true.
Proof.
  apply (Equal_decides_data (DPair (DNumber 1) DNil) 6
           (mkState [mkCell (Number 1) nullptr; mkCell (Number 1) nullptr] [] [])
           (CellPtr 0) (CellPtr 1) (DPair (DNumber 1) DNil)).
  - exists 0%nat, (mkCell (Number 1) nullptr). repeat split.
  - exists 1%nat, (mkCell (Number 1) nullptr). repeat split.
  - cbn. lia.
Defined.

(** X27.  The two checks of the syntax of a code by [Run].  On the tokens
    of a list without its closing bracket [Run] throws the [SyntaxError] of
    the reader; on the tokens of a datum followed by one token or more it
    throws the [SyntaxError] of unexpected input.  In both cases nothing is
    evaluated: the closures and the scopes are left as they are. *)
Theorem Run_rejects_open_list_and_trailing_input :
  forall d fuel scope st,
    (weight d < fuel)%nat ->
    (d = DNil \/ (exists a b, d = DPair a b) ->
     exists st',
       Run fuel scope (LP :: tail_tokens d) st
       = (Throw (SyntaxError "Read: expected ) ending list"), st')
       /\ extends st st')
    /\ (forall token rest,
           exists st',
             Run fuel scope (tokens_of d ++ token :: rest)%list st
             = (Throw (SyntaxError "Unexpected input"), st')
             /\ extends st st').
Proof.
  intros d fuel scope st Hf. split.
  - intros Hd. destruct fuel as [| fuel]; [lia |].
    destruct (proj2 (Read_tokens_of d) fuel [] [] st ltac:(lia))
      as (elements & result & st' & HR & _ & He);
      [right; exact Hd | now left |].
    rewrite app_nil_r in HR.
    exists st'. split; [| exact He].
    unfold Run, LP. cbn [Read].
    unfold bind at 1. unfold bind at 1. rewrite HR. reflexivity.
  - intros token rest.
    destruct (proj1 (Read_tokens_of d) fuel (token :: rest) st Hf)
      as (object & st' & HR & _ & He).
    exists st'. split; [| exact He].
    unfold Run. rewrite (bind_Ret _ _ _ _ _ HR). reflexivity.
Qed.

Lemma Run_rejects_open_list_and_trailing_input_witness :
  (exists st',
      Run 7 0 (LP :: tail_tokens (DPair (DNumber 1) DNil)) empty_State
      = (Throw (SyntaxError "Read: expected ) ending list"), st')
      /\ extends empty_State st')
  /\ (exists st',
         Run 7 0 (tokens_of (DPair (DNumber 1) DNil) ++ [RP])%list empty_State
         = (Throw (SyntaxError "Unexpected input"), st')
         /\ extends empty_State st').
Proof.
  destruct (Run_rejects_open_list_and_trailing_input
              (DPair (DNumber 1) DNil) 7 0 empty_State ltac:(cbn; lia))
    as [Hopen Htrail].
  split.
  - apply Hopen. right. now exists (DNumber 1), DNil.
  - apply Htrail.
Defined.

(** ** The tokenizer *)

Lemma SkipWhitespace_loop_spaces spaces : forall chr rest,
  forallb isspace spaces = true ->
  isspace chr = false ->
  SkipWhitespace_loop (spaces ++ chr :: rest) = mkStream (chr :: rest) false.
Proof.
  induction spaces as [| c spaces IH]; intros chr rest Hs Hc.
  - cbn. now rewrite Hc.
  - cbn [forallb] in Hs. apply andb_prop in Hs as [Hc0 Hs].
    cbn [app SkipWhitespace_loop]. rewrite Hc0. now apply IH.
Qed.

Lemma SkipWhitespace_loop_length cs :
  (length (chars (SkipWhitespace_loop cs)) <= length cs)%nat.
Proof.
  induction cs as [| c cs IH]; [cbn; lia |].
  cbn [SkipWhitespace_loop]. destruct (isspace c); cbn [length chars] in *; lia.
Qed.

Lemma SkipWhitespace_loop_not_eof cs :
  eofbit (SkipWhitespace_loop cs) = false ->
  exists chr rest, chars (SkipWhitespace_loop cs) = chr :: rest.
Proof.
  induction cs as [| c cs IH]; [discriminate |].
  cbn [SkipWhitespace_loop]. destruct (isspace c); [exact IH |].
  intros _. cbn. eauto.
Qed.

Lemma digits_loop_length cs : forall value chr,
  (length (chars (snd (digits_loop value chr cs))) <= length cs)%nat.
Proof.
  induction cs as [| c cs IH]; intros value chr; [cbn; lia |].
  cbn [digits_loop]. destruct (isdigit c).
  - specialize (IH (int_wrap (10 * value + (char_code chr - char_code "0"))) c).
    cbn [length]. lia.
  - cbn. lia.
Qed.

Lemma symbol_loop_length cs : forall name,
  (length (chars (snd (symbol_loop name cs))) <= length cs)%nat.
Proof.
  induction cs as [| c cs IH]; intros name; [cbn; lia |].
  cbn [symbol_loop]. destruct (IsSymbol c).
  - specialize (IH (name ++ String c "")). cbn [length]. lia.
  - cbn. lia.
Qed.

Lemma Next_outcome t :
  (exists t', Next t = (Ret tt, t'))
  \/ (exists what t', Next t = (Throw (SyntaxError what), t') /\ token_ t' = None).
Proof.
  unfold Next.
  destruct (IsEof (SkipWhitespace (in_ t))); [eauto |].
  destruct (get (SkipWhitespace (in_ t))) as [chr s].
  repeat match goal with
         | |- context [if ?b then _ else _] => destruct b; eauto
         | |- context [let '(_, _) := ?p in _] => destruct p; eauto
         end.
Qed.

Lemma Next_shrinks t r t' :
  Next t = (r, t') ->
  (length (chars (in_ t')) <= length (chars (in_ t)))%nat
  /\ (token_ t' <> None ->
      (length (chars (in_ t')) < length (chars (in_ t)))%nat).
Proof.
  unfold Next, SkipWhitespace, IsEof.
  destruct (eofbit (in_ t)) eqn:He.
  - rewrite He. intros H. injection H as <- <-. cbn. split; [lia | congruence].
  - pose proof (SkipWhitespace_loop_length (chars (in_ t))) as Hlen.
    destruct (eofbit (SkipWhitespace_loop (chars (in_ t)))) eqn:He'.
    + intros H. injection H as <- <-. cbn [in_ token_].
      split; [exact Hlen | congruence].
    + destruct (SkipWhitespace_loop_not_eof _ He') as (chr & rest & Hc).
      unfold get. rewrite He', Hc. rewrite Hc in Hlen. cbn [length] in Hlen.
      assert (Hsign : forall b s,
                 sign_alone (mkStream rest false) = (b, s) ->
                 (length (chars s) <= length rest)%nat).
      { intros b s. unfold sign_alone, IsEof, peek. cbn [eofbit chars].
        destruct rest; intros H; injection H as <- <-; cbn; lia. }
      assert (Hnum : forall c s,
                 (length (chars s) <= length rest)%nat ->
                 (length (chars (snd (read_number c s))) <= length rest)%nat).
      { intros c s Hs. unfold read_number, digits, get, IsEof.
        destruct (is_sign c).
        - destruct (eofbit s) eqn:Hes.
          + rewrite Hes. cbn. exact Hs.
          + destruct (chars s) as [| c1 cs1] eqn:Hcs.
            * cbn. lia.
            * cbn [eofbit chars]. cbn [length] in Hs.
              pose proof (digits_loop_length cs1 0 c1) as Hd.
              destruct (digits_loop 0 c1 cs1) as [v s1]. cbn in *. lia.
        - destruct (eofbit s) eqn:Hes.
          + cbn. exact Hs.
          + pose proof (digits_loop_length (chars s) 0 c) as Hd.
            destruct (digits_loop 0 c (chars s)) as [v s1]. cbn in *. lia. }
      assert (Hsym : forall c s,
                 (length (chars s) <= length rest)%nat ->
                 (length (chars (snd (read_symbol c s))) <= length rest)%nat).
      { intros c s Hs. unfold read_symbol, IsEof.
        destruct (eofbit s).
        - cbn. exact Hs.
        - pose proof (symbol_loop_length (chars s) (String c "")) as Hd.
          destruct (symbol_loop (String c "") (chars s)) as [n s1].
          cbn in *. lia. }
      destruct (Ascii.eqb chr "(");
        [intros H; injection H as <- <-; cbn; split; [lia | intros _; lia] |].
      destruct (Ascii.eqb chr ")");
        [intros H; injection H as <- <-; cbn; split; [lia | intros _; lia] |].
      destruct (Ascii.eqb chr ".");
        [intros H; injection H as <- <-; cbn; split; [lia | intros _; lia] |].
      destruct (Ascii.eqb chr "'");
        [intros H; injection H as <- <-; cbn; split; [lia | intros _; lia] |].
      destruct (Ascii.eqb chr "/");
        [intros H; injection H as <- <-; cbn; split; [lia | intros _; lia] |].
      assert (Hs0 : forall b s,
                 (if is_sign chr then sign_alone (mkStream rest false)
                  else (false, mkStream rest false)) = (b, s) ->
                 (length (chars s) <= length rest)%nat).
      { intros b s. destruct (is_sign chr); [apply Hsign |].
        intros H. injection H as <- <-. cbn. lia. }
      destruct (if is_sign chr then sign_alone (mkStream rest false)
                else (false, mkStream rest false)) as [alone s] eqn:Ha.
      specialize (Hs0 _ _ eq_refl).
      destruct alone;
        [intros H; injection H as <- <-; cbn; split; [lia | intros _; lia] |].
      destruct (isdigit chr || is_sign chr).
      { intros H. injection H as <- <-. cbn [in_ token_].
        specialize (Hnum chr s Hs0). split; [lia | intros _; lia]. }
      destruct (IsSymbolStart chr).
      { intros H. injection H as <- <-. cbn [in_ token_].
        specialize (Hsym chr s Hs0). split; [lia | intros _; lia]. }
      intros H. injection H as <- <-. cbn [in_ token_]. split; [lia | congruence].
Qed.

Lemma delivered_returns_or_throws fuel : forall t,
  (S (length (chars (in_ t))) < fuel)%nat ->
  (exists tokens, delivered fuel t = Ret tokens)
  \/ (exists what, delivered fuel t = Throw (SyntaxError what)).
Proof.
  induction fuel as [| fuel IH]; intros t Hf; [lia |].
  cbn [delivered]. destruct (token_ t) as [token |]; [| eauto].
  destruct (Next_outcome t) as [[t' HN] | (what & t' & HN & _)].
  - rewrite HN. destruct (Next_shrinks _ _ _ HN) as [Hle Hlt].
    destruct (token_ t') as [token' |] eqn:Ht'.
    + destruct (IH t') as [[tokens Hd] | [what Hd]].
      { specialize (Hlt ltac:(congruence)). lia. }
      * rewrite Hd. eauto.
      * rewrite Hd. eauto.
    + destruct fuel as [| fuel]; [lia |].
      cbn [delivered]. rewrite Ht'. eauto.
  - rewrite HN. eauto.
Qed.

Lemma length_list_ascii_of_string s :
  length (list_ascii_of_string s) = String.length s.
Proof. induction s as [| c s IH]; [reflexivity |]. cbn. now rewrite IH. Qed.

(** X28.  The tokens of a code: with fuel above the length of the code plus
    one, the constructor of the tokenizer and the calls of [Next] deliver
    every token up to the end of the code, or one of them throws a
    [SyntaxError]: the scanning of a code always ends. *)
Theorem tokenize_returns_or_throws :
  forall fuel code,
    (S (String.length code) < fuel)%nat ->
    (exists tokens, tokenize fuel code = Ret tokens)
    \/ (exists what, tokenize fuel code = Throw (SyntaxError what)).
Proof.
  intros fuel code Hf. unfold tokenize, Tokenizer_new.
  destruct (Next_outcome (mkTokenizer None
                            (mkStream (list_ascii_of_string code) false)))
    as [[t' HN] | (what & t' & HN & _)].
  - rewrite HN. apply delivered_returns_or_throws.
    destruct (Next_shrinks _ _ _ HN) as [Hle _]. cbn [in_ chars] in Hle.
    rewrite length_list_ascii_of_string in Hle. lia.
  - rewrite HN. eauto.
Qed.

Lemma tokenize_returns_or_throws_witness :
  (exists tokens, tokenize 9 "(+ 1 x)" = Ret tokens)
  \/ (exists what, tokenize 9 "(+ 1 x)" = Throw (SyntaxError what)).
Proof.
  apply (tokenize_returns_or_throws 9 "(+ 1 x)"). cbn. lia.
Defined.

Lemma Next_at chr rest old spaces :
  forallb isspace spaces = true ->
  isspace chr = false ->
  SkipWhitespace (mkStream (spaces ++ chr :: rest) false)
  = mkStream (chr :: rest) false
  /\ in_ (mkTokenizer old (mkStream (spaces ++ chr :: rest) false))
     = mkStream (spaces ++ chr :: rest) false.
Proof.
  intros Hs Hc. split; [| reflexivity].
  unfold SkipWhitespace, IsEof. cbn [eofbit chars].
  now apply SkipWhitespace_loop_spaces.
Qed.

(** X29.  [Next] on a stream whose first character after the white space
    is [chr]: when [chr] is a bracket, a dot, a quote, a slash, a sign, a
    digit or a character of [IsSymbolStart], a token is delivered; when it
    is any other character, the [SyntaxError] is thrown, whose message
    gives the code of [chr] as a signed [char], and the character is
    extracted. *)
Theorem Next_throws_outside_the_alphabet :
  forall old spaces chr rest,
    forallb isspace spaces = true ->
    isspace chr = false ->
    if starts_token chr
    then exists token s,
        Next (mkTokenizer old (mkStream (spaces ++ chr :: rest) false))
        = (Ret tt, mkTokenizer (Some token) s)
    else Next (mkTokenizer old (mkStream (spaces ++ chr :: rest) false))
         = (Throw (SyntaxError ("Tokenizer::Next(): invalid character code: "
                                ++ to_string (char_code chr))),
            mkTokenizer None (mkStream rest false)).
Proof.
  intros old spaces chr rest Hs Hc.
  destruct (Next_at chr rest old spaces Hs Hc) as [Hskip _].
  unfold Next. cbn [in_]. rewrite Hskip.
  unfold IsEof, get. cbn [eofbit chars].
  unfold starts_token, one_of, is_sign.
  cbn [list_ascii_of_string existsb].
  destruct (Ascii.eqb chr "("); [cbn; eauto |].
  destruct (Ascii.eqb chr ")"); [cbn; eauto |].
  destruct (Ascii.eqb chr "."); [cbn; eauto |].
  destruct (Ascii.eqb chr "'"); [cbn; eauto |].
  destruct (Ascii.eqb chr "/"); [cbn; eauto |].
  cbn [orb].
  destruct (Ascii.eqb chr "+") eqn:Eplus.
  { cbn [orb]. unfold sign_alone, IsEof, peek. cbn [eofbit chars].
    destruct rest as [| c rest]; [cbn; eauto |].
    destruct (isdigit c); cbn [negb]; [| cbn; eauto].
    rewrite orb_true_r. cbn. eauto. }
  destruct (Ascii.eqb chr "-") eqn:Eminus.
  { cbn [orb]. unfold sign_alone, IsEof, peek. cbn [eofbit chars].
    destruct rest as [| c rest]; [cbn; eauto |].
    destruct (isdigit c); cbn [negb]; [| cbn; eauto].
    rewrite orb_true_r. cbn. eauto. }
  cbn [orb]. rewrite orb_false_r.
  destruct (isdigit chr); [cbn; eauto |].
  cbn [orb].
  destruct (IsSymbolStart chr); [cbn; eauto |].
  reflexivity.
Qed.

Lemma Next_throws_outside_the_alphabet_witness :
  Next (mkTokenizer None (mkStream (list_ascii_of_string "  @x") false))
  = (Throw (SyntaxError "Tokenizer::Next(): invalid character code: 64"),
     mkTokenizer None (mkStream (list_ascii_of_string "x") false)).
Proof.
  exact (Next_throws_outside_the_alphabet None (list_ascii_of_string "  ")
           "@"%char (list_ascii_of_string "x") eq_refl eq_refl).
Defined.

(** ** The tokens of a text *)

Lemma int_wrap_int z : - 2 ^ 31 <= z < 2 ^ 31 -> int_wrap z = z.
Proof. intros H. unfold int_wrap. rewrite Z.mod_small; lia. Qed.

Lemma digits_value_le d : forall value, 0 <= value -> value <= digits_value value d.
Proof.
  induction d as [| d IH | d IH | d IH | d IH | d IH | d IH | d IH | d IH
                  | d IH | d IH]; intros value H; cbn [digits_value];
    [lia | | | | | | | | | |];
    match goal with
    | |- _ <= digits_value ?v _ => specialize (IH v ltac:(lia)); lia
    end.
Qed.

Lemma of_uint_acc_value d : forall acc,
  Z.pos (Pos.of_uint_acc d acc) = digits_value (Z.pos acc) d.
Proof.
  induction d as [| d IH | d IH | d IH | d IH | d IH | d IH | d IH | d IH
                  | d IH | d IH]; intros acc;
    cbn [Pos.of_uint_acc digits_value]; [reflexivity | | | | | | | | | |];
    rewrite IH; f_equal; lia.
Qed.

Lemma of_uint_value d : Z.of_N (Pos.of_uint d) = digits_value 0 d.
Proof.
  induction d as [| d IH | d IH | d IH | d IH | d IH | d IH | d IH | d IH
                  | d IH | d IH];
    cbn [Pos.of_uint digits_value]; [reflexivity | exact IH | | | | | | | | |];
    cbn [Z.of_N]; now rewrite of_uint_acc_value.
Qed.

Lemma to_string_digits z :
  exists d,
    d <> Decimal.Nil
    /\ digits_value 0 d = Z.abs z
    /\ to_string z
       = if Z.ltb z 0 then String "-" (NilEmpty.string_of_uint d)
         else NilEmpty.string_of_uint d.
Proof.
  destruct z as [| p | p].
  - exists (Decimal.D0 Decimal.Nil). repeat split. discriminate.
  - exists (Pos.to_uint p). split; [apply Unsigned.to_uint_nonnil |]. split.
    + rewrite <- of_uint_value, DecimalPos.Unsigned.of_to. reflexivity.
    + unfold to_string. cbn [Z.to_int NilZero.string_of_int Z.ltb Z.compare].
      pose proof (Unsigned.to_uint_nonnil p) as Hn.
      unfold NilZero.string_of_uint. now destruct (Pos.to_uint p).
  - exists (Pos.to_uint p). split; [apply Unsigned.to_uint_nonnil |]. split.
    + rewrite <- of_uint_value, DecimalPos.Unsigned.of_to. reflexivity.
    + unfold to_string. cbn [Z.to_int NilZero.string_of_int Z.ltb Z.compare].
      pose proof (Unsigned.to_uint_nonnil p) as Hn.
      unfold NilZero.string_of_uint. now destruct (Pos.to_uint p).
Qed.

Lemma string_of_uint_head d :
  d <> Decimal.Nil ->
  exists chr k l,
    NilEmpty.string_of_uint d = String chr (NilEmpty.string_of_uint l)
    /\ digit_char chr k
    /\ forall value, digits_value value d = digits_value (10 * value + k) l.
Proof.
  intros Hd. unfold digit_char.
  destruct d as [| d | d | d | d | d | d | d | d | d | d]; [congruence | ..];
    eexists _, _, d; (split; [reflexivity |]);
    (split; [| intros value; reflexivity]);
    repeat split; try reflexivity; vm_compute; congruence.
Qed.

Lemma digit_char_digit chr k :
  digit_char chr k -> isdigit chr = true.
Proof. now intros [H _]. Qed.

Ltac digits_step IH j :=
  intros value chr k sep rest Hchr Hv Hlt Hsep;
  pose proof Hchr as (_ & Hk & Hk9 & _);
  cbn [NilEmpty.string_of_uint list_ascii_of_string app digits_loop
         digits_value] in *;
  match goal with
  | |- context [isdigit ?c] => change (isdigit c) with true
  end;
  cbv iota;
  match type of Hlt with
  | digits_value ?v ?l < _ =>
    pose proof (digits_value_le l v ltac:(lia)) as Hmono
  end;
  rewrite Hk, int_wrap_int by lia;
  apply (IH (10 * value + k) _ j);
  [unfold digit_char; repeat split; try reflexivity; vm_compute; congruence
  | lia | exact Hlt | exact Hsep].

Lemma digits_loop_digits l : forall value chr k sep rest,
  digit_char chr k ->
  0 <= value ->
  digits_value (10 * value + k) l < 2 ^ 31 ->
  isdigit sep = false ->
  digits_loop value chr
    (list_ascii_of_string (NilEmpty.string_of_uint l) ++ sep :: rest)
  = (digits_value (10 * value + k) l, mkStream (sep :: rest) false).
Proof.
  induction l as [| l IH | l IH | l IH | l IH | l IH | l IH | l IH | l IH
                  | l IH | l IH].
  - intros value chr k sep rest Hchr Hv Hlt Hsep.
    pose proof Hchr as (_ & Hk & Hk9 & _).
    cbn [NilEmpty.string_of_uint list_ascii_of_string app digits_loop
           digits_value] in *.
    rewrite Hsep, Hk. rewrite int_wrap_int by lia. reflexivity.
  - digits_step IH 0.
  - digits_step IH 1.
  - digits_step IH 2.
  - digits_step IH 3.
  - digits_step IH 4.
  - digits_step IH 5.
  - digits_step IH 6.
  - digits_step IH 7.
  - digits_step IH 8.
  - digits_step IH 9.
Qed.

Lemma IsSymbolStart_name_char chr : IsSymbolStart chr = true -> name_char chr.
Proof.
  unfold name_char.
  destruct chr as [[] [] [] [] [] [] [] []]; vm_compute; intros H;
    try discriminate; repeat split.
Qed.

Lemma symbol_loop_name l : forall name sep rest,
  forallb IsSymbol l = true ->
  IsSymbol sep = false ->
  symbol_loop name (l ++ sep :: rest)
  = (name ++ string_of_list_ascii l, mkStream (sep :: rest) false).
Proof.
  induction l as [| c l IH]; intros name sep rest Hl Hsep.
  - cbn. rewrite Hsep. now rewrite append_empty_r.
  - cbn [forallb] in Hl. apply andb_prop in Hl as [Hc Hl].
    cbn [app symbol_loop string_of_list_ascii]. rewrite Hc.
    rewrite (IH _ _ _ Hl Hsep). now rewrite append_assoc.
Qed.

Ltac Next_start Hs Hc :=
  unfold Next; cbn [in_];
  rewrite (proj1 (Next_at _ _ None _ Hs Hc));
  unfold IsEof, get; cbn [eofbit chars].

Lemma Next_constant z old spaces rest :
  - 2 ^ 31 < z < 2 ^ 31 ->
  forallb isspace spaces = true ->
  Next (mkTokenizer old
          (mkStream (spaces ++ list_ascii_of_string (to_string z)
                     ++ " "%char :: rest) false))
  = (Ret tt, mkTokenizer (Some (ConstantToken z))
               (mkStream (" "%char :: rest) false)).
Proof.
  intros Hz Hs.
  destruct (to_string_digits z) as (d & Hd & Hval & Hstr).
  destruct (string_of_uint_head d Hd) as (chr & k & l & Hsd & Hchr & Hhead).
  pose proof Hchr as (Hdig & Hk & Hk9 & Hsp & Hsign & H1 & H2 & H3 & H4 & H5).
  assert (Hloop : digits_loop 0 chr
                    (list_ascii_of_string (NilEmpty.string_of_uint l)
                     ++ " "%char :: rest)
                  = (Z.abs z, mkStream (" "%char :: rest) false)).
  { rewrite (digits_loop_digits l 0 chr k " "%char rest Hchr ltac:(lia)).
    - now rewrite <- Hhead, Hval.
    - rewrite <- Hhead, Hval. lia.
    - reflexivity. }
  rewrite Hstr, Hsd. destruct (Z.ltb_spec z 0) as [Hneg | Hpos].
  - cbn [list_ascii_of_string app].
    Next_start Hs (eq_refl : isspace "-" = false).
    change (Ascii.eqb "-" "(") with false. change (Ascii.eqb "-" ")") with false.
    change (Ascii.eqb "-" ".") with false. change (Ascii.eqb "-" "'") with false.
    change (Ascii.eqb "-" "/") with false. change (is_sign "-") with true.
    cbv iota. unfold sign_alone, IsEof, peek. cbn [eofbit chars].
    rewrite Hdig. cbn [negb orb].
    change (isdigit "-") with false. cbn [orb].
    unfold read_number. change (is_sign "-") with true.
    change (Ascii.eqb "-" "-") with true. cbn [andb].
    unfold get, digits, IsEof. cbn [eofbit chars]. rewrite Hloop.
    cbn [fst snd]. rewrite int_wrap_int by lia.
    do 4 f_equal. lia.
  - cbn [list_ascii_of_string app].
    Next_start Hs Hsp.
    rewrite H1, H2, H3, H4, H5, Hsign, Hdig. cbn [orb].
    unfold read_number. rewrite Hsign. cbn [andb].
    unfold digits, IsEof. cbn [eofbit chars]. rewrite Hloop.
    cbn [fst snd]. do 4 f_equal. lia.
Qed.

Lemma Next_symbol name old spaces rest :
  symbol_name name = true ->
  forallb isspace spaces = true ->
  Next (mkTokenizer old
          (mkStream (spaces ++ list_ascii_of_string name ++ " "%char :: rest)
             false))
  = (Ret tt, mkTokenizer (Some (SymbolToken name))
               (mkStream (" "%char :: rest) false)).
Proof.
  intros Hname Hs. destruct name as [| chr name']; [discriminate |].
  cbn [symbol_name] in Hname. apply orb_prop in Hname as [Hone | Hname].
  - apply andb_prop in Hone as [Hone Hempty].
    apply String.eqb_eq in Hempty. subst name'.
    unfold one_of in Hone. cbn [list_ascii_of_string existsb] in Hone.
    cbn [list_ascii_of_string app].
    destruct (Ascii.eqb_spec chr "+") as [-> | _];
      [Next_start Hs (eq_refl : isspace "+" = false); reflexivity |].
    destruct (Ascii.eqb_spec chr "-") as [-> | _];
      [Next_start Hs (eq_refl : isspace "-" = false); reflexivity |].
    destruct (Ascii.eqb_spec chr "/") as [-> | _];
      [Next_start Hs (eq_refl : isspace "/" = false); reflexivity |].
    discriminate.
  - apply andb_prop in Hname as [Hname Ht].
    apply andb_prop in Hname as [Hname Hf].
    apply andb_prop in Hname as [Hstart Hrest].
    apply negb_true_iff in Ht, Hf.
    destruct (IsSymbolStart_name_char chr Hstart)
      as (_ & Hdig & Hsp & Hsign & H1 & H2 & H3 & H4 & H5).
    cbn [list_ascii_of_string app].
    Next_start Hs Hsp.
    rewrite H1, H2, H3, H4, H5, Hsign, Hdig, Hstart. cbn [orb].
    unfold read_symbol, IsEof. cbn [eofbit chars].
    rewrite (symbol_loop_name _ _ _ _ Hrest (eq_refl : IsSymbol " " = false)).
    rewrite string_of_list_ascii_of_string.
    change (String chr "" ++ name') with (String chr name').
    now rewrite Hf, Ht.
Qed.

Lemma Next_token_text token old spaces rest :
  scannable token = true ->
  forallb isspace spaces = true ->
  Next (mkTokenizer old
          (mkStream (spaces ++ list_ascii_of_string (token_text token)
                     ++ " "%char :: rest) false))
  = (Ret tt, mkTokenizer (Some token) (mkStream (" "%char :: rest) false)).
Proof.
  intros Hscan Hs.
  destruct token as [value | [|] | [|] | name | |];
    cbn [token_text Boolean_ToString list_ascii_of_string app].
  - cbn [scannable] in Hscan. apply andb_prop in Hscan as [Hlo Hhi].
    apply Z.ltb_lt in Hlo, Hhi. now apply Next_constant.
  - Next_start Hs (eq_refl : isspace "(" = false). reflexivity.
  - Next_start Hs (eq_refl : isspace ")" = false). reflexivity.
  - Next_start Hs (eq_refl : isspace "#" = false). reflexivity.
  - Next_start Hs (eq_refl : isspace "#" = false). reflexivity.
  - now apply Next_symbol.
  - Next_start Hs (eq_refl : isspace "'" = false). reflexivity.
  - Next_start Hs (eq_refl : isspace "." = false). reflexivity.
Qed.

Lemma delivered_text tokens : forall token fuel,
  forallb scannable tokens = true ->
  (S (length tokens) < fuel)%nat ->
  delivered fuel
    (mkTokenizer (Some token)
       (mkStream (" "%char :: list_ascii_of_string (text tokens)) false))
  = Ret (token :: tokens).
Proof.
  induction tokens as [| next tokens IH]; intros token fuel Hscan Hf.
  - destruct fuel as [| [| fuel]]; cbn [length] in Hf; try lia. reflexivity.
  - cbn [forallb] in Hscan. apply andb_prop in Hscan as [Hnext Hscan].
    destruct fuel as [| fuel]; [lia |]. cbn [length] in Hf.
    cbn [delivered token_ text].
    rewrite !list_ascii_of_string_app.
    change (list_ascii_of_string " ") with [" "%char].
    cbn [app].
    pose proof (Next_token_text next (Some token) [" "%char]
                  (list_ascii_of_string (text tokens)) Hnext eq_refl) as HN.
    cbn [app] in HN. rewrite HN.
    rewrite (IH next fuel Hscan ltac:(lia)). reflexivity.
Qed.

(** X30.  The tokenizer on the text of tokens: whatever the tokens, as
    long as each is one the tokenizer can deliver, the tokens of their
    texts, each followed by a space, are these tokens.  So a constant is
    read back from the decimal text [std::to_string] gives, a sign or a
    slash alone is a symbol, and the texts [#t] and [#f] are the
    booleans. *)
Theorem tokenize_text_of_tokens :
  forall tokens fuel,
    forallb scannable tokens = true ->
    (length tokens < fuel)%nat ->
    tokenize fuel (text tokens) = Ret tokens.
Proof.
  intros tokens fuel Hscan Hf. unfold tokenize, Tokenizer_new.
  destruct tokens as [| token tokens].
  - destruct fuel; [cbn in Hf; lia |]. reflexivity.
  - cbn [forallb] in Hscan. apply andb_prop in Hscan as [Htoken Hscan].
    cbn [text]. rewrite !list_ascii_of_string_app.
    change (list_ascii_of_string " ") with [" "%char]. cbn [app].
    pose proof (Next_token_text token None []
                  (list_ascii_of_string (text tokens)) Htoken eq_refl) as HN.
    cbn [app] in HN. rewrite HN.
    apply delivered_text; [exact Hscan |]. cbn [length] in Hf. lia.
Qed.

Lemma tokenize_text_of_tokens_witness :
  tokenize 10 "( define x - -12 ' #t . ) "
  = Ret [LP; SymbolToken "define"; SymbolToken "x"; SymbolToken "-";
         ConstantToken (-12); QuoteToken; BooleanToken true; DotToken; RP].
Proof.
  exact (tokenize_text_of_tokens
           [LP; SymbolToken "define"; SymbolToken "x"; SymbolToken "-";
            ConstantToken (-12); QuoteToken; BooleanToken true; DotToken; RP]
           10 eq_refl ltac:(cbn; lia)).
Defined.
